(** * telegram-discord-bridge: configuration validator and message history

    A shallow embedding of [bridge/config/config.py] (the static validators
    of class [Config]) and of [bridge/history/history.py] (class
    [MessageHistoryHandler]), with the properties of the specification
    stated and settled on it.

    Layout:
    - [Py]      the fragment of Python's dynamic values the validators touch
                (exceptions, subscripting, truthiness, [str]/[repr], hashing);
    - [Config]  the validators, translated function by function;
    - [Schema]  forwarder entries of the documented shape and their YAML form;
    - [History] the history handler over an explicit object heap and two
                files;
    - [Samples], [ConfigNotions], [HistoryNotions]  concrete inputs and the
                notions the statements use;
    - [ConfigProofs], [HistoryProofs]  the theorems.

    Further parts of the program, with their own properties:
    - [HistoryRuns]  sequences of handler calls and restarts;
    - [Objects], [Registry], [FullSample]  the section classes, [Config.load]
                and the registry of [Config] instances;
    - [App]     the PID file handling of [app.py];
    - [Media], [MediaNotions]  [clean_old_media] with [glob] and [fnmatch];
    - [OpenAI]  the request of [analyze_message_sentiment];
    - [ValidatorFacts], [HistoryFacts], [ObjectsFacts], [RegistryFacts],
      [AppFacts], [OpenAIFacts], [MediaFacts]  the theorems.

    Calls are taken one at a time: the handler's lock and the interleaving
    of coroutines are outside the model. *)

From Stdlib Require Import ZArith String List Bool Ascii Lia.
From Stdlib Require Import DecimalString QArith.
From Stdlib Require Decimal DecimalPos.
Import ListNotations.

Set Warnings "-register-all".

Local Open Scope string_scope.
Local Open Scope Z_scope.

(* ================================================================== *)
(** * Python values and exceptions *)
(* ================================================================== *)

Module Py.

(** The exceptions that the modelled code can raise. *)
Inductive exn : Type :=
| KeyError (k : string)
| TypeError
| AttributeError
| ValueError
| JSONDecodeError.

(** A computation either returns or raises. *)
Inductive result (A : Type) : Type :=
| Ok (a : A)
| Raise (e : exn).

Arguments Ok {A} a.
Arguments Raise {A} e.

Definition bind {A B} (m : result A) (k : A -> result B) : result B :=
  match m with
  | Ok a => k a
  | Raise e => Raise e
  end.

Declare Scope py_scope.
Delimit Scope py_scope with py.

Notation "x <- m ;; k" := (bind m (fun x => k))
  (at level 61, m at next level, right associativity) : py_scope.
Notation "' p <- m ;; k" := (bind m (fun x => match x with p => k end))
  (at level 61, p pattern, m at next level, right associativity) : py_scope.

Local Open Scope py_scope.

(** What [yaml.safe_load] produces, restricted to the node kinds that the
    configuration document uses.  A mapping is kept as an association list
    in document order and is read by first match; only string keys occur. *)
Inductive value : Type :=
| VNone
| VBool (b : bool)
| VInt (z : Z)
| VStr (s : string)
| VList (l : list value)
| VDict (d : list (string * value)).

Fixpoint assoc {A} (k : string) (d : list (string * A)) : option A :=
  match d with
  | [] => None
  | (k', v) :: d' => if String.eqb k k' then Some v else assoc k d'
  end.

(** [v[k]] for a string key. *)
Definition subscript (v : value) (k : string) : result value :=
  match v with
  | VDict d =>
      match assoc k d with
      | Some x => Ok x
      | None => Raise (KeyError k)
      end
  | _ => Raise TypeError
  end.

(** [v.get(k, default)]: only mappings have the method. *)
Definition get (v : value) (k : string) (default : value) : result value :=
  match v with
  | VDict d =>
      match assoc k d with
      | Some x => Ok x
      | None => Ok default
      end
  | _ => Raise AttributeError
  end.

Definition is_substring (k s : string) : bool :=
  match String.index 0 k s with
  | Some _ => true
  | None => false
  end.

Definition is_str (k : string) (v : value) : bool :=
  match v with
  | VStr s => String.eqb k s
  | _ => false
  end.

(** [k in v] for a string [k]: key membership in a mapping, element
    membership in a list, substring test in a string. *)
Definition contains (k : string) (v : value) : result bool :=
  match v with
  | VDict d =>
      match assoc k d with
      | Some _ => Ok true
      | None => Ok false
      end
  | VList l => Ok (existsb (is_str k) l)
  | VStr s => Ok (is_substring k s)
  | _ => Raise TypeError
  end.

(** Truth value testing. *)
Definition truthy (v : value) : bool :=
  match v with
  | VNone => false
  | VBool b => b
  | VInt z => negb (Z.eqb z 0)
  | VStr s => negb (String.eqb s "")
  | VList l => match l with [] => false | _ => true end
  | VDict d => match d with [] => false | _ => true end
  end.

(** [len(v)]. *)
Definition len (v : value) : result Z :=
  match v with
  | VStr s => Ok (Z.of_nat (String.length s))
  | VList l => Ok (Z.of_nat (List.length l))
  | VDict d => Ok (Z.of_nat (List.length d))
  | _ => Raise TypeError
  end.

Fixpoint chars (s : string) : list value :=
  match s with
  | EmptyString => []
  | String c s' => VStr (String c EmptyString) :: chars s'
  end.

(** The items that [for x in v] visits. *)
Definition iter (v : value) : result (list value) :=
  match v with
  | VList l => Ok l
  | VDict d => Ok (map (fun kv => VStr (fst kv)) d)
  | VStr s => Ok (chars s)
  | _ => Raise TypeError
  end.

(** [v is False]. *)
Definition is_False (v : value) : bool :=
  match v with
  | VBool false => true
  | _ => false
  end.

(** [v is None]. *)
Definition is_None (v : value) : bool :=
  match v with
  | VNone => true
  | _ => false
  end.

(** [isinstance(v, int)]; [bool] is a subclass of [int]. *)
Definition isinstance_int (v : value) : bool :=
  match v with
  | VInt _ | VBool _ => true
  | _ => false
  end.

(** [v == ""]. *)
Definition eq_empty_str (v : value) : bool :=
  match v with
  | VStr s => String.eqb s ""
  | _ => false
  end.

(** ** [str.lower]

    Strings are byte strings here; the ASCII letters are folded and every
    other byte is kept.  On text within ASCII this is [str.lower]; on other
    text [str.lower] folds more letters, and what is stated below about
    names that do not meet, or about an accepted document, is stated for
    names within ASCII. *)


Definition lower_ascii (c : ascii) : ascii :=
  let n := nat_of_ascii c in
  if (Nat.leb 65 n && Nat.leb n 90)%bool then ascii_of_nat (n + 32) else c.

Fixpoint str_lower (s : string) : string :=
  match s with
  | EmptyString => EmptyString
  | String c s' => String (lower_ascii c) (str_lower s')
  end.

(** [v.lower()]: a string method. *)
Definition lower (v : value) : result string :=
  match v with
  | VStr s => Ok (str_lower s)
  | _ => Raise AttributeError
  end.

(** ** Hashing

    Set members and dictionary keys are compared through [__hash__] and
    [__eq__]: [True] and [1] are one key, lists and mappings are unhashable. *)
Inductive hkey : Type :=
| HNone
| HNum (z : Z)
| HStr (s : string).

Definition hkey_eqb (a b : hkey) : bool :=
  match a, b with
  | HNone, HNone => true
  | HNum x, HNum y => Z.eqb x y
  | HStr x, HStr y => String.eqb x y
  | _, _ => false
  end.

Definition hash_key (v : value) : result hkey :=
  match v with
  | VNone => Ok HNone
  | VBool b => Ok (HNum (if b then 1 else 0))
  | VInt z => Ok (HNum z)
  | VStr s => Ok (HStr s)
  | VList _ | VDict _ => Raise TypeError
  end.

(** ** [str] and [repr] *)

Definition str_of_int (z : Z) : string := NilZero.string_of_int (Z.to_int z).

Definition hex_digit (n : nat) : ascii :=
  ascii_of_nat (if Nat.ltb n 10 then 48 + n else 87 + n).

Fixpoint has_char (c : ascii) (s : string) : bool :=
  match s with
  | EmptyString => false
  | String c' s' => (Ascii.eqb c c' || has_char c s')%bool
  end.

Definition dquote : ascii := ascii_of_nat 34.

Definition quote_of (s : string) : ascii :=
  if (has_char "'" s && negb (has_char dquote s))%bool then dquote else "'"%char.

Definition escape_char (q c : ascii) : string :=
  let n := nat_of_ascii c in
  if Ascii.eqb c "\" then "\\"
  else if Ascii.eqb c q then String "\" (String q EmptyString)
  else if Nat.eqb n 10 then "\n"
  else if Nat.eqb n 13 then "\r"
  else if Nat.eqb n 9 then "\t"
  else if (Nat.ltb n 32 || Nat.eqb n 127)%bool then
    String "\" (String "x" (String (hex_digit (n / 16)) (String (hex_digit (n mod 16)) EmptyString)))
  else String c EmptyString.

Fixpoint escape (q : ascii) (s : string) : string :=
  match s with
  | EmptyString => EmptyString
  | String c s' => escape_char q c ++ escape q s'
  end.

(** [repr(s)] of a string: quoted, with the quote chosen as Python does. *)
Definition repr_str (s : string) : string :=
  let q := quote_of s in
  String q (escape q s ++ String q EmptyString).

Fixpoint join (sep : string) (l : list string) : string :=
  match l with
  | [] => ""
  | [x] => x
  | x :: l' => x ++ sep ++ join sep l'
  end.

Fixpoint repr (v : value) : string :=
  match v with
  | VNone => "None"
  | VBool b => if b then "True" else "False"
  | VInt z => str_of_int z
  | VStr s => repr_str s
  | VList l => "[" ++ join ", " (map repr l) ++ "]"
  | VDict d =>
      "{" ++ join ", " (map (fun kv => repr_str (fst kv) ++ ": " ++ repr (snd kv)) d) ++ "}"
  end.

(** [str(v)], which is what an f-string field [{v}] inserts. *)
Definition str (v : value) : string :=
  match v with
  | VStr s => s
  | _ => repr v
  end.

(** ** Sets of strings

    A set is a duplicate-free list.  Python iterates a set of strings in an
    order that depends on the process's hash seed; the list order stands
    for it wherever a set is printed. *)
Definition str_set := list string.

Definition mem (x : string) (s : str_set) : bool := existsb (String.eqb x) s.

Fixpoint set_of_list (l : list string) : str_set :=
  match l with
  | [] => []
  | x :: l' => if mem x l' then set_of_list l' else x :: set_of_list l'
  end.

Definition intersection (a b : str_set) : str_set := filter (fun x => mem x b) a.

Definition nonempty {A} (l : list A) : bool :=
  match l with
  | [] => false
  | _ => true
  end.

(** [repr] of a set of strings; the empty one prints as [set()]. *)
Definition repr_set (s : str_set) : string :=
  match s with
  | [] => "set()"
  | _ => "{" ++ join ", " (map repr_str s) ++ "}"
  end.

(** Monadic traversal, left to right, stopping at the first exception. *)
Fixpoint mapM {A B} (f : A -> result B) (l : list A) : result (list B) :=
  match l with
  | [] => Ok []
  | x :: l' =>
      y <- f x ;;
      ys <- mapM f l' ;;
      Ok (y :: ys)
  end.

End Py.

(* ================================================================== *)
(** * bridge/config/config.py: the validators of [Config] *)
(* ================================================================== *)

Module Config.

Import Py.
Local Open Scope py_scope.

(** [Config.validate_openai_enabled]; it is called on the raw [openai]
    section of the document. *)
Definition openai_error : string :=
  "Invalid configuration: `api_key`, `organization`, and `sentiment_analysis_prompt` must be set when `enabled` is True.".

Definition validate_openai_enabled (config : value) : result (bool * string) :=
  enabled <- subscript config "enabled" ;;
  if truthy enabled then
    api_key <- subscript config "api_key" ;;
    if eq_empty_str api_key then Ok (false, openai_error) else
    organization <- subscript config "organization" ;;
    if eq_empty_str organization then Ok (false, openai_error) else
    prompt <- subscript config "sentiment_analysis_prompt" ;;
    if is_None prompt then Ok (false, openai_error) else Ok (true, "")
  else Ok (true, "").

(** [Config.validate_forwarder_types]. *)
Definition validate_forwarder_types (forwarder : value) : result (bool * string) :=
  tg_channel_id <- subscript forwarder "tg_channel_id" ;;
  discord_channel_id <- subscript forwarder "discord_channel_id" ;;
  if negb (isinstance_int tg_channel_id) then
    Ok (false, "Invalid configuration: `tg_channel_id` must be an integer: forwarder with `tg_channel_id` "
               ++ str tg_channel_id)
  else if negb (isinstance_int discord_channel_id) then
    Ok (false, "Invalid configuration: `discord_channel_id` must be an integer: forwarder with `tg_channel_id` "
               ++ str tg_channel_id)
  else Ok (true, "").

(** The running set of [(tg_channel_id, discord_channel_id)] tuples. *)
Definition combinations := list (hkey * hkey).

Definition combination_in (c : hkey * hkey) (s : combinations) : bool :=
  existsb (fun c' => (hkey_eqb (fst c) (fst c') && hkey_eqb (snd c) (snd c'))%bool) s.

(** [Config.validate_forwarder_combinations]; the set argument is mutated
    by the source, so the new set is returned with the verdict. *)
Definition validate_forwarder_combinations (forwarder : value)
    (forwarder_combinations : combinations)
  : result ((bool * string) * combinations) :=
  tg_channel_id <- subscript forwarder "tg_channel_id" ;;
  discord_channel_id <- subscript forwarder "discord_channel_id" ;;
  h1 <- hash_key tg_channel_id ;;
  h2 <- hash_key discord_channel_id ;;
  if combination_in (h1, h2) forwarder_combinations then
    Ok ((false, "Invalid configuration: duplicate forwarder with combination ("
                ++ repr tg_channel_id ++ ", " ++ repr discord_channel_id ++ ")"),
        forwarder_combinations)
  else Ok ((true, ""), (h1, h2) :: forwarder_combinations).

(** [any(tag.get("override_mention_everyone", False) for tag in tags)]. *)
Fixpoint any_override (tags : list value) : result bool :=
  match tags with
  | [] => Ok false
  | tag :: tags' =>
      o <- get tag "override_mention_everyone" (VBool false) ;;
      if truthy o then Ok true else any_override tags'
  end.

(** [Config.validate_mention_everyone_and_override]. *)
Definition validate_mention_everyone_and_override (forwarder forward_hashtags : value)
  : result (bool * string) :=
  tg_channel_id <- subscript forwarder "tg_channel_id" ;;
  mention_everyone <- subscript forwarder "mention_everyone" ;;
  if truthy mention_everyone then
    tags <- iter forward_hashtags ;;
    conflict <- any_override tags ;;
    if conflict then
      Ok (false, "Invalid configuration: `override_mention_everyone` has no effect when `mention_everyone` set to True: forwarder with `tg_channel_id` "
                 ++ str tg_channel_id)
    else Ok (true, "")
  else Ok (true, "").

(** [{tag["name"].lower() for tag in tags}]. *)
Definition tag_name (tag : value) : result string :=
  n <- subscript tag "name" ;;
  lower n.

Definition hashtag_names (tags : value) : result str_set :=
  l <- iter tags ;;
  names <- mapM tag_name l ;;
  Ok (set_of_list names).

(** The dictionary [tg_channel_hashtags]: channel id to the list of name
    sets seen for it. *)
Definition channel_hashtags := list (hkey * list str_set).

Fixpoint lookup_channel (k : hkey) (d : channel_hashtags) : option (list str_set) :=
  match d with
  | [] => None
  | (k', v) :: d' => if hkey_eqb k k' then Some v else lookup_channel k d'
  end.

Fixpoint set_channel (k : hkey) (v : list str_set) (d : channel_hashtags) : channel_hashtags :=
  match d with
  | [] => [(k, v)]
  | (k', v') :: d' => if hkey_eqb k k' then (k, v) :: d' else (k', v') :: set_channel k v d'
  end.

(** The name set of one forwarder in [validate_shared_hashtags]:
    [{...} if forwarder.get("forward_hashtags") else set()]. *)
Definition shared_names (forwarder : value) : result str_set :=
  fh <- get forwarder "forward_hashtags" VNone ;;
  if truthy fh then
    tags <- get forwarder "forward_hashtags" (VList []) ;;
    hashtag_names tags
  else Ok [].

Definition shared_error (shared : str_set) (tg_channel_id : value) : string :=
  "Shared hashtags " ++ repr_set shared ++ " found for forwarders with tg_channel_id "
  ++ str tg_channel_id ++ ". The same message will be forwarded multiple times.".

(** The body of the [for] loop of [validate_shared_hashtags], over the
    forwarders still to visit. *)
Fixpoint shared_loop (forwarders : list value) (tg_channel_hashtags : channel_hashtags)
  : result (bool * string) :=
  match forwarders with
  | [] => Ok (true, "")
  | forwarder :: rest =>
      tg_channel_id <- subscript forwarder "tg_channel_id" ;;
      forward_hashtags <- shared_names forwarder ;;
      if nonempty forward_hashtags then
        k <- hash_key tg_channel_id ;;
        match lookup_channel k tg_channel_hashtags with
        | None => shared_loop rest (set_channel k [forward_hashtags] tg_channel_hashtags)
        | Some existing =>
            match find (fun e => nonempty (intersection e forward_hashtags)) existing with
            | Some e => Ok (false, shared_error (intersection e forward_hashtags) tg_channel_id)
            | None =>
                shared_loop rest
                  (set_channel k (List.app existing [forward_hashtags]) tg_channel_hashtags)
            end
        end
      else shared_loop rest tg_channel_hashtags
  end.

(** [Config.validate_shared_hashtags]. *)
Definition validate_shared_hashtags (forwarders : value) : result (bool * string) :=
  l <- iter forwarders ;;
  shared_loop l [].

(** [Config.validate_hashtags_overlap]. *)
Definition validate_hashtags_overlap (forwarder forward_hashtags excluded_hashtags : value)
  : result (bool * string) :=
  tg_channel_id <- subscript forwarder "tg_channel_id" ;;
  forward_hashtags_names <- hashtag_names forward_hashtags ;;
  excluded_hashtags_names <- hashtag_names excluded_hashtags ;;
  let common_hashtags := intersection forward_hashtags_names excluded_hashtags_names in
  if nonempty common_hashtags then
    Ok (false, "Invalid configuration: overlapping hashtags " ++ repr_set common_hashtags
               ++ " found in forward_hashtags and excluded_hashtags for forwarder with `tg_channel_id` "
               ++ str tg_channel_id)
  else Ok (true, "").

(** [Config.get_excluded_hashtags] and [Config.get_forward_hashtags]. *)
Definition get_excluded_hashtags (forwarder : value) : result value :=
  present <- contains "excluded_hashtags" forwarder ;;
  if present then subscript forwarder "excluded_hashtags" else Ok (VList []).

Definition get_forward_hashtags (forwarder : value) : result value :=
  present <- contains "forward_hashtags" forwarder ;;
  if present then subscript forwarder "forward_hashtags" else Ok (VList []).

(** The local variables of [validate_config] that the loop updates. *)
Record locals : Type := mk_locals {
  valid : bool;
  errors : list string;
  forwarder_error_string : string;
  forwarder_combinations : combinations
}.

(** [valid, error = check; if not valid: errors.append(prefix error)]. *)
Definition record_check (prefix : string) (check : bool * string) (errs : list string)
  : list string :=
  if fst check then errs else List.app errs [(prefix ++ snd check)%string].

Definition forward_hashtags_required : string :=
  " `forward_hashtags` must be set when `forward_everything` is False".

(** One iteration of the [for forwarder in forwarders] loop of
    [validate_config]. *)
Definition validate_forwarder (st : locals) (forwarder : value) : result locals :=
  name <- subscript forwarder "forwarder_name" ;;
  let fes := forwarder_error_string st ++ " forwarder name: " ++ str name in
  forward_hashtags <- get_forward_hashtags forwarder ;;
  n <- len forward_hashtags ;;
  missing <- (if n <=? 0 then
                fe <- subscript forwarder "forward_everything" ;;
                Ok (is_False fe)
              else Ok false) ;;
  let valid0 := if missing then false else valid st in
  let errors0 :=
    if missing then List.app (errors st) [(fes ++ forward_hashtags_required)%string] else errors st in
  excluded_hashtags <- get_excluded_hashtags forwarder ;;
  c1 <- validate_forwarder_types forwarder ;;
  let errors1 := record_check (fes ++ " ") c1 errors0 in
  ' (c2, combos) <- validate_forwarder_combinations forwarder (forwarder_combinations st) ;;
  let errors2 := record_check (fes ++ " ") c2 errors1 in
  c3 <- validate_mention_everyone_and_override forwarder forward_hashtags ;;
  let errors3 := record_check (fes ++ " ") c3 errors2 in
  c4 <- validate_hashtags_overlap forwarder forward_hashtags excluded_hashtags ;;
  let errors4 := record_check (fes ++ " ") c4 errors3 in
  Ok (mk_locals (fst c4) errors4 fes combos).

Fixpoint validate_forwarders (forwarders : list value) (st : locals) : result locals :=
  match forwarders with
  | [] => Ok st
  | forwarder :: rest =>
      st' <- validate_forwarder st forwarder ;;
      validate_forwarders rest st'
  end.

Definition is_empty {A} (l : list A) : bool :=
  match l with
  | [] => true
  | _ => false
  end.

(** [Config.validate_config]. *)
Definition validate_config (config : value) : result (bool * list string) :=
  forwarders <- subscript config "telegram_forwarders" ;;
  openai <- subscript config "openai" ;;
  c0 <- validate_openai_enabled openai ;;
  let st0 := mk_locals (fst c0) (record_check "" c0 []) "Invalid forwarder configuration:" [] in
  l <- iter forwarders ;;
  st <- validate_forwarders l st0 ;;
  c5 <- validate_shared_hashtags forwarders ;;
  let errors5 := record_check "" c5 (errors st) in
  let valid5 := is_empty errors5 in
  Ok (valid5, errors5).

(** The part of [Config.load] between parsing and the construction of the
    configuration objects: the required top-level keys, then the validator.
    [Exit1] stands for [sys.exit(1)]. *)
Definition required_keys : list string :=
  ["application"; "logger"; "telegram"; "discord"; "telegram_forwarders"].

Fixpoint first_missing (keys : list string) (config_data : value) : result (option string) :=
  match keys with
  | [] => Ok None
  | key :: keys' =>
      present <- contains key config_data ;;
      if present then first_missing keys' config_data else Ok (Some key)
  end.

Inductive load_outcome : Type :=
| Exit1_missing_key (key : string)
| Exit1_invalid (errs : list string)
| Validated.

Definition load_checks (config_data : value) : result load_outcome :=
  missing <- first_missing required_keys config_data ;;
  match missing with
  | Some key => Ok (Exit1_missing_key key)
  | None =>
      ' (ok, errs) <- validate_config config_data ;;
      if ok then Ok Validated else Ok (Exit1_invalid errs)
  end.

End Config.

(* ================================================================== *)
(** * Forwarder entries of the documented shape *)
(* ================================================================== *)

(** The configuration document lists, for each forwarder,
    [forwarder_name], [tg_channel_id], [discord_channel_id],
    [forward_everything], [mention_everyone] and the optional lists
    [forward_hashtags] and [excluded_hashtags] of tags with a [name] and an
    optional [override_mention_everyone].  The channel ids stay dynamic
    values: whether they are integers is what the validator checks. *)
Module Schema.

Import Py.

Record hashtag : Type := mk_hashtag {
  name : string;
  override_mention_everyone : option bool
}.

Record forwarder : Type := mk_forwarder {
  forwarder_name : string;
  tg_channel_id : value;
  discord_channel_id : value;
  forward_everything : bool;
  forward_hashtags : option (list hashtag);
  excluded_hashtags : option (list hashtag);
  mention_everyone : bool
}.

Definition field (k : string) (o : option value) : list (string * value) :=
  match o with
  | Some v => [(k, v)]
  | None => []
  end.

Definition yaml_of_hashtag (t : hashtag) : value :=
  VDict (("name", VStr (name t))
           :: field "override_mention_everyone" (option_map VBool (override_mention_everyone t))).

Definition yaml_of_hashtags (ts : list hashtag) : value :=
  VList (map yaml_of_hashtag ts).

Definition yaml_of_forwarder (f : forwarder) : value :=
  VDict ([("forwarder_name", VStr (forwarder_name f));
          ("tg_channel_id", tg_channel_id f);
          ("discord_channel_id", discord_channel_id f);
          ("forward_everything", VBool (forward_everything f));
          ("mention_everyone", VBool (mention_everyone f))]
           ++ field "forward_hashtags" (option_map yaml_of_hashtags (forward_hashtags f))
           ++ field "excluded_hashtags" (option_map yaml_of_hashtags (excluded_hashtags f)))%list.

Definition yaml_of_forwarders (fs : list forwarder) : value :=
  VList (map yaml_of_forwarder fs).

(** The tags of a forwarder, an absent list read as empty. *)
Definition tags_of (o : option (list hashtag)) : list hashtag :=
  match o with
  | Some ts => ts
  | None => []
  end.

(** The lower-cased tag names of a list of tags. *)
Definition names_of (ts : list hashtag) : list string :=
  map (fun t => str_lower (name t)) ts.

Definition forward_names (f : forwarder) : list string := names_of (tags_of (forward_hashtags f)).
Definition excluded_names (f : forwarder) : list string := names_of (tags_of (excluded_hashtags f)).

Definition disjoint (a b : list string) : Prop := forall x, In x a -> ~ In x b.



(** Integer channel ids. *)
Definition integer_ids (f : forwarder) : Prop :=
  isinstance_int (tg_channel_id f) = true /\ isinstance_int (discord_channel_id f) = true.

(** Channel ids that can be members of a set or keys of a dictionary. *)
Definition hashable_ids (f : forwarder) : Prop :=
  (exists k, hash_key (tg_channel_id f) = Ok k) /\
  (exists k, hash_key (discord_channel_id f) = Ok k).

(** I1: [forward_hashtags] is non-empty unless [forward_everything]. *)
Definition hashtags_where_required (f : forwarder) : Prop :=
  forward_everything f = false -> tags_of (forward_hashtags f) <> [].

(** I2: no two entries share [(tg_channel_id, discord_channel_id)], the ids
    compared as set members are. *)
Definition combination (f : forwarder) : result hkey * result hkey :=
  (hash_key (tg_channel_id f), hash_key (discord_channel_id f)).

Definition unique_combinations (fs : list forwarder) : Prop :=
  NoDup (map combination fs).

(** I3: forward and excluded names are disjoint, case-insensitively. *)
Definition no_overlap (f : forwarder) : Prop :=
  disjoint (forward_names f) (excluded_names f).

(** I4: [mention_everyone] is not combined with an overriding tag. *)
Definition overrides (t : hashtag) : bool :=
  match override_mention_everyone t with
  | Some b => b
  | None => false
  end.

Definition no_override_conflict (f : forwarder) : Prop :=
  mention_everyone f = true ->
  forall t, In t (tags_of (forward_hashtags f)) -> overrides t = false.

(** I5 fails: two forwarders of one source channel have a forward name in
    common, case-insensitively. *)
Definition same_channel (fi fj : forwarder) : Prop :=
  exists k, hash_key (tg_channel_id fi) = Ok k /\ hash_key (tg_channel_id fj) = Ok k.

Definition common_hashtag (fi fj : forwarder) : Prop :=
  exists x, In x (forward_names fi) /\ In x (forward_names fj).

Definition shared_hashtags (fs : list forwarder) : Prop :=
  exists i j fi fj,
    (i < j)%nat /\ nth_error fs i = Some fi /\ nth_error fs j = Some fj /\
    same_channel fi fj /\ common_hashtag fi fj.

(** A document with the given forwarders and [openai] section; the other
    sections are not read by the validator. *)
Definition document_of_values (forwarders : list value) (openai : value) : value :=
  VDict [("application", VDict []); ("logger", VDict []); ("telegram", VDict []);
         ("discord", VDict []); ("openai", openai);
         ("telegram_forwarders", VList forwarders)].

Definition document (fs : list forwarder) (openai : value) : value :=
  document_of_values (map yaml_of_forwarder fs) openai.

End Schema.

(* ================================================================== *)
(** * bridge/history/history.py: [MessageHistoryHandler] *)
(* ================================================================== *)

Module History.

Import Py.

(** ** Dictionaries

    A Python [dict] keeps its keys in insertion order: assigning to a key
    that is present replaces the value in place, assigning to a new key
    appends. *)
Section OrderedDict.

Context {K V : Type} (eqb : K -> K -> bool).

Fixpoint od_get (k : K) (d : list (K * V)) : option V :=
  match d with
  | [] => None
  | (k', v) :: d' => if eqb k k' then Some v else od_get k d'
  end.

Fixpoint od_set (k : K) (v : V) (d : list (K * V)) : list (K * V) :=
  match d with
  | [] => [(k, v)]
  | (k', v') :: d' => if eqb k k' then (k', v) :: d' else (k', v') :: od_set k v d'
  end.

(** [dict(pairs)]: later pairs overwrite earlier ones. *)
Definition od_of_pairs (l : list (K * V)) : list (K * V) :=
  fold_left (fun d kv => od_set (fst kv) (snd kv) d) l [].

End OrderedDict.

(** A source message id as it occurs as a dictionary key: the [int] that
    [save_mapping_data] is called with, or the [str] that a JSON object
    key loads as.  [100] and ["100"] are different keys. *)
Inductive key : Type :=
| KInt (z : Z)
| KStr (s : string).

Definition key_eqb (a b : key) : bool :=
  match a, b with
  | KInt x, KInt y => Z.eqb x y
  | KStr x, KStr y => String.eqb x y
  | _, _ => false
  end.

(** What a source message id is mapped to: a destination message id, the
    tuple [(discord_channel_id, exception)] that [save_missed_message]
    stores, or the two-element list that such a tuple loads back as. *)
Inductive entry : Type :=
| Id (discord_message_id : Z)
| Tuple (discord_channel_id : Z) (exception : string)
| Array (discord_channel_id : Z) (exception : string).

Definition forwarder_data := list (key * entry).
Definition mapping := list (string * forwarder_data).

(** ** JSON documents

    The text that [json.dumps] writes and [json.loads] reads is kept as the
    document it denotes: an object of objects whose member names are
    strings, in the order written, a name possibly repeated. *)
Inductive jvalue : Type :=
| JInt (z : Z)
| JArr (n : Z) (s : string).

Definition jobject := list (string * list (string * jvalue)).

(** [json.dumps] turns an [int] key into its decimal text. *)
Definition dumps_key (k : key) : string :=
  match k with
  | KInt z => str_of_int z
  | KStr s => s
  end.

Definition dumps_entry (e : entry) : jvalue :=
  match e with
  | Id z => JInt z
  | Tuple n s | Array n s => JArr n s
  end.

Definition json_dumps (m : mapping) : jobject :=
  map (fun fd => (fst fd, map (fun kv => (dumps_key (fst kv), dumps_entry (snd kv))) (snd fd))) m.

Definition loads_entry (j : jvalue) : entry :=
  match j with
  | JInt z => Id z
  | JArr n s => Array n s
  end.

(** [json.loads]: every key is a [str]; a repeated name keeps its last value. *)
Definition json_loads (doc : jobject) : mapping :=
  od_of_pairs String.eqb
    (map (fun fd =>
            (fst fd,
             od_of_pairs key_eqb (map (fun kv => (KStr (fst kv), loads_entry (snd kv))) (snd fd))))
         doc).

(** ** [int(k)] on a key

    An [int] is returned as it is.  A [str] is stripped of surrounding
    white space and read as an optional sign and decimal digits, single
    underscores allowed between digits; anything else is a [ValueError].
    White space and digits are the ASCII ones: what is read here Python
    reads to the same number, and the keys that the handler writes are
    read. *)
Definition is_space (c : ascii) : bool :=
  let n := nat_of_ascii c in
  (Nat.eqb n 32 || (Nat.leb 9 n && Nat.leb n 13))%bool.

Definition is_digit (c : ascii) : bool :=
  let n := nat_of_ascii c in
  (Nat.leb 48 n && Nat.leb n 57)%bool.

Fixpoint lstrip (l : list ascii) : list ascii :=
  match l with
  | c :: l' => if is_space c then lstrip l' else l
  | [] => []
  end.

Definition strip (l : list ascii) : list ascii := rev (lstrip (rev (lstrip l))).

Fixpoint digits (after_digit : bool) (l : list ascii) : option (list ascii) :=
  match l with
  | [] => if after_digit then Some [] else None
  | c :: l' =>
      if is_digit c then option_map (cons c) (digits true l')
      else if (Ascii.eqb c "_" && after_digit)%bool then digits false l'
      else None
  end.

Definition unsigned (l : list ascii) : option Z :=
  match digits false l with
  | Some ds =>
      match NilEmpty.uint_of_string (string_of_list_ascii ds) with
      | Some u => Some (Z.of_uint u)
      | None => None
      end
  | None => None
  end.

Definition int_of_string (s : string) : option Z :=
  match strip (list_ascii_of_string s) with
  | c :: l =>
      if Ascii.eqb c "-" then option_map Z.opp (unsigned l)
      else if Ascii.eqb c "+" then unsigned l
      else unsigned (c :: l)
  | [] => None
  end.

Definition int (k : key) : result Z :=
  match k with
  | KInt z => Ok z
  | KStr s =>
      match int_of_string s with
      | Some z => Ok z
      | None => Raise ValueError
      end
  end.

(** ** Files and the handler's state *)

(** A file holds the text of a document or bytes that are no JSON text (the
    empty file among them); [st_size] is its length in bytes. *)
Inductive file : Type :=
| JsonFile (size : Z) (doc : jobject)
| RawFile (size : Z).

Definition st_size (f : file) : Z :=
  match f with
  | JsonFile n _ => n
  | RawFile n => n
  end.

(** The handler is a singleton; [mapping_data_cache] holds [None] or a
    reference to a dictionary object, the dictionary objects live in
    [heap] and are addressed by position.  The inner dictionaries are only
    reachable through their outer one and are kept inside it.  [log] keeps
    the messages passed to [logger.error]. *)
Record state : Type := mk_state {
  heap : list mapping;
  mapping_data_cache : option nat;
  messages_history : option file;
  missed_messages_history : option file;
  log : list string
}.

Definition deref (a : nat) (s : state) : mapping := nth a (heap s) [].

Fixpoint update_nth {A} (n : nat) (f : A -> A) (l : list A) : list A :=
  match l, n with
  | [], _ => []
  | x :: l', O => f x :: l'
  | x :: l', S n' => x :: update_nth n' f l'
  end.

Definition mutate (a : nat) (f : mapping -> mapping) (s : state) : state :=
  mk_state (update_nth a f (heap s)) (mapping_data_cache s)
           (messages_history s) (missed_messages_history s) (log s).

(** A new dictionary object that becomes the cache. *)
Definition cache_new (m : mapping) (s : state) : nat * state :=
  let a := List.length (heap s) in
  (a, mk_state (List.app (heap s) [m]) (Some a)
               (messages_history s) (missed_messages_history s) (log s)).

(** [MessageHistoryHandler.load_mapping_data]: returns the reference held
    by the cache, filling the cache from the history file on first use.
    Only [FileNotFoundError] is handled. *)
Definition load_mapping_data (s : state) : result nat * state :=
  match mapping_data_cache s with
  | Some a => (Ok a, s)
  | None =>
      match messages_history s with
      | Some (JsonFile _ doc) => let (a, s') := cache_new (json_loads doc) s in (Ok a, s')
      | Some (RawFile _) => (Raise JSONDecodeError, s)
      | None => let (a, s') := cache_new [] s in (Ok a, s')
      end
  end.

(** How the operating system answers an [open(..., "w")] followed by one
    [write]: the text is written and the file has [size] bytes; or the open
    fails and the file is as before; or the open has truncated the file and
    the write fails, [size] bytes of an unfinished text being left. *)
Inductive write_outcome : Type :=
| Written (size : Z)
| OpenFails
| WriteFails (size : Z).

Definition write_text (o : write_outcome) (doc : jobject) (old : option file)
  : option file * bool :=
  match o with
  | Written n => (Some (JsonFile n doc), true)
  | OpenFails => (old, false)
  | WriteFails n => (Some (RawFile n), false)
  end.

(** [if name not in mapping_data: mapping_data[name] = {}] followed by
    [mapping_data[name][k] = e]. *)
Definition assign (forwarder_name : string) (k : key) (e : entry) (m : mapping) : mapping :=
  let inner :=
    match od_get String.eqb forwarder_name m with
    | Some d => d
    | None => []
    end in
  od_set String.eqb forwarder_name (od_set key_eqb k e inner) m.

(** [MessageHistoryHandler.save_mapping_data]. *)
Definition save_mapping_data (o : write_outcome) (forwarder_name : string)
    (tg_message_id : Z) (discord_message_id : Z) (s : state) : result unit * state :=
  match load_mapping_data s with
  | (Raise e, s1) => (Raise e, s1)
  | (Ok mapping_data, s1) =>
      let s2 := mutate mapping_data
                  (assign forwarder_name (KInt tg_message_id) (Id discord_message_id)) s1 in
      match write_text o (json_dumps (deref mapping_data s2)) (messages_history s2) with
      | (f, true) =>
          (Ok tt, mk_state (heap s2) (Some mapping_data) f (missed_messages_history s2) (log s2))
      | (f, false) =>
          (Ok tt, mk_state (heap s2) (mapping_data_cache s2) f (missed_messages_history s2)
                    (List.app (log s2) ["An error occurred while saving mapping data: %s"]))
      end
  end.

(** [MessageHistoryHandler.save_missed_message]. *)
Definition save_missed_message (o : write_outcome) (forwarder_name : string)
    (tg_message_id : Z) (discord_channel_id : Z) (exception : string) (s : state)
  : result unit * state :=
  match load_mapping_data s with
  | (Raise e, s1) => (Raise e, s1)
  | (Ok mapping_data, s1) =>
      let s2 := mutate mapping_data
                  (assign forwarder_name (KInt tg_message_id)
                     (Tuple discord_channel_id exception)) s1 in
      match write_text o (json_dumps (deref mapping_data s2)) (missed_messages_history s2) with
      | (f, true) =>
          (Ok tt, mk_state (heap s2) (mapping_data_cache s2) (messages_history s2) f (log s2))
      | (f, false) =>
          (Ok tt, mk_state (heap s2) (mapping_data_cache s2) (messages_history s2) f
                    (List.app (log s2) ["An error occurred while saving missed message: %s"]))
      end
  end.

(** [MessageHistoryHandler.get_discord_message_id]; [None] is the
    not-found answer. *)
Definition get_discord_message_id (forwarder_name : string) (tg_message_id : key) (s : state)
  : result (option entry) * state :=
  match load_mapping_data s with
  | (Raise e, s1) => (Raise e, s1)
  | (Ok mapping_data, s1) =>
      match od_get String.eqb forwarder_name (deref mapping_data s1) with
      | Some forwarder_data => (Ok (od_get key_eqb tg_message_id forwarder_data), s1)
      | None => (Ok None, s1)
      end
  end.

(** [max(keys, key=int)]: the first key whose [int] is the largest. *)
Fixpoint max_from (best : key) (best_int : Z) (keys : list key) : result key :=
  match keys with
  | [] => Ok best
  | k :: keys' =>
      match int k with
      | Ok z => if z >? best_int then max_from k z keys' else max_from best best_int keys'
      | Raise e => Raise e
      end
  end.

Definition max_key (keys : list key) : result key :=
  match keys with
  | [] => Raise ValueError
  | k :: keys' =>
      match int k with
      | Ok z => max_from k z keys'
      | Raise e => Raise e
      end
  end.

Record last_message : Type := mk_last_message {
  forwarder_name : string;
  telegram_id : Z;
  discord_id : entry
}.

(** The loop of [get_last_messages_for_all_forwarders] over the items of
    the mapping. *)
Fixpoint last_messages (items : mapping) : result (list last_message) :=
  match items with
  | [] => Ok []
  | (name, data) :: items' =>
      if nonempty data then
        bind (max_key (map fst data)) (fun last_tg_message_id =>
        match od_get key_eqb last_tg_message_id data with
        | None => Raise (KeyError (dumps_key last_tg_message_id))
        | Some discord_message_id =>
            bind (int last_tg_message_id) (fun tid =>
            bind (last_messages items') (fun rest =>
            Ok (mk_last_message name tid discord_message_id :: rest)))
        end)
      else last_messages items'
  end.

(** [MessageHistoryHandler.get_last_messages_for_all_forwarders]. *)
Definition get_last_messages_for_all_forwarders (s : state)
  : result (list last_message) * state :=
  match load_mapping_data s with
  | (Raise e, s1) => (Raise e, s1)
  | (Ok mapping_data, s1) => (last_messages (deref mapping_data s1), s1)
  end.

(** [st_size / (1024 * 1024) > history_size_limit]. *)
Definition oversized (f : file) (history_size_limit : Q) : bool :=
  negb (Qle_bool (st_size f # 1048576) history_size_limit).

Definition rotation_error : string :=
  "Failed rotating the history file! Make sure that the storage growth does not get out of hand!".

(** [open(name, "w").close()] on both files. *)
Definition truncate_both (s : state) : state :=
  mk_state (heap s) (mapping_data_cache s) (Some (RawFile 0)) (Some (RawFile 0)) (log s).

Definition log_error (msg : string) (s : state) : state :=
  mk_state (heap s) (mapping_data_cache s) (messages_history s) (missed_messages_history s)
           (List.app (log s) [msg]).

(** [MessageHistoryHandler.clean_history_data]; [os.stat] of a missing file
    raises, which the handler logs.  The second [os.stat] is only reached
    when the first file is within the limit.  The two truncating [open]
    calls are taken to succeed. *)
Definition clean_history_data (history_size_limit : Q) (s : state) : state :=
  match messages_history s with
  | None => log_error rotation_error s
  | Some h =>
      if oversized h history_size_limit then truncate_both s
      else
        match missed_messages_history s with
        | None => log_error rotation_error s
        | Some m => if oversized m history_size_limit then truncate_both s else s
        end
  end.

(** A process start: no dictionary objects, an unset cache, the files as
    they are on disk. *)
Definition restart (s : state) : state :=
  mk_state [] None (messages_history s) (missed_messages_history s) [].

Definition fresh : state := mk_state [] None None None [].

End History.

(* ================================================================== *)
(** * Concrete documents and stores used below *)
(* ================================================================== *)

Module Samples.

Import Py Schema.

(** An [openai] section with the feature switched off. *)
Definition openai_off : value := VDict [("enabled", VBool false)].

Definition news : hashtag := mk_hashtag "news" None.

(** Two forwarders of source channel 1 to different destinations, both
    forwarding the tag [news]. *)
Definition fwd_a : forwarder :=
  mk_forwarder "A" (VInt 1) (VInt 10) false (Some [mk_hashtag "News" None]) None false.
Definition fwd_b : forwarder :=
  mk_forwarder "B" (VInt 1) (VInt 20) false (Some [news]) None false.

(** A forwarder of another channel that forwards nothing. *)
Definition fwd_c : forwarder :=
  mk_forwarder "C" (VInt 2) (VInt 30) false None None false.

(** A forwarder of a third channel that forwards everything and mentions
    everyone. *)
Definition fwd_d : forwarder :=
  mk_forwarder "D" (VInt 3) (VInt 30) true None (Some [news]) true.

(** A forwarder entry from which one key has been left out. *)
Definition without (k : string) (v : value) : value :=
  match v with
  | VDict d => VDict (filter (fun kv => negb (String.eqb k (fst kv))) d)
  | _ => v
  end.

Definition document_lacking (k : string) : value :=
  document_of_values [without k (yaml_of_forwarder fwd_c)] openai_off.

Definition forwarder_keys : list string :=
  ["forwarder_name"; "tg_channel_id"; "discord_channel_id"; "forward_everything";
   "mention_everyone"].

End Samples.

(* ================================================================== *)
(** * Notions used to state and prove the properties *)
(* ================================================================== *)

Module ConfigNotions.

Import Py Config Schema.

(** The name sets recorded so far, each with the key of its channel. *)
Definition seen_sets := list (hkey * str_set).

(** The dictionary of the loop holds exactly the recorded sets. *)
Definition records (tch : channel_hashtags) (seen : seen_sets) : Prop :=
  forall k s, (exists e, lookup_channel k tch = Some e /\ In s e) <-> In (k, s) seen.

(** A forwarder has a name in common with a recorded set of its channel. *)
Definition hits (seen : seen_sets) (f : forwarder) : Prop :=
  exists k s x,
    hash_key (tg_channel_id f) = Ok k /\ In (k, s) seen /\ In x s /\ In x (forward_names f).

Definition clash (seen : seen_sets) (fs : list forwarder) : Prop :=
  (exists j fj, nth_error fs j = Some fj /\ hits seen fj) \/ shared_hashtags fs.

(** The per-forwarder conditions of an accepted list. *)
Definition accepted (f : forwarder) : Prop :=
  integer_ids f /\ hashtags_where_required f /\ no_overlap f /\ no_override_conflict f.

End ConfigNotions.

Module HistoryNotions.

Import Py History.

(** The state that a call leaves. *)
Definition after {A} (r : result A * state) : state := snd r.

(** The answer of a call. *)
Definition answer {A} (r : result A * state) : result A := fst r.

(** One successful [save_mapping_data("f1", 100, 200)] in a new process
    without files; the text written has 40 bytes. *)
Definition recorded : state := after (save_mapping_data (Written 40) "f1" 100 200 fresh).

(** A history file of three megabytes holding the entry [("f1", 100)], with
    a limit of two megabytes. *)
Definition oversized_store : state :=
  after (save_mapping_data (Written 3145728) "f1" 100 200 fresh).

(** Every key of the dictionary can be read as an integer. *)
Definition numeric (data : forwarder_data) : Prop :=
  forall k, In k (map fst data) -> exists z, int k = Ok z.

(** [m] reports an entry of [data] whose source id is numerically largest. *)
Definition is_last (data : forwarder_data) (m : last_message) : Prop :=
  exists k,
    In k (map fst data)
    /\ int k = Ok (telegram_id m)
    /\ od_get key_eqb k data = Some (discord_id m)
    /\ forall k' z', In k' (map fst data) -> int k' = Ok z' -> z' <= telegram_id m.

(** Three records for [f1] with the source ids 5, 42 and 7, in this order. *)
Definition three_records : state :=
  after (save_mapping_data (Written 90) "f1" 7 703
    (after (save_mapping_data (Written 60) "f1" 42 742
      (after (save_mapping_data (Written 30) "f1" 5 705 fresh))))).

(** The characters of a decimal numeral. *)
Definition chars_of (d : Decimal.uint) : list ascii :=
  list_ascii_of_string (NilEmpty.string_of_uint d).

(** The cache refers to an object of the heap, and every key in memory or
    in the history file reads as an integer. *)
Definition numeric_mapping (m : mapping) : Prop := Forall numeric (map snd m).

Definition numeric_doc (doc : jobject) : Prop :=
  forall name members k,
    In (name, members) doc -> In k (map fst members) -> exists z, int (KStr k) = Ok z.

Definition numeric_file (f : option file) : Prop :=
  match f with
  | Some (JsonFile _ doc) => numeric_doc doc
  | _ => True
  end.

Record consistent (s : state) : Prop := {
  cache_in_heap :
    match mapping_data_cache s with
    | Some a => (a < List.length (heap s))%nat
    | None => True
    end;
  heap_numeric : Forall numeric_mapping (heap s);
  file_numeric : numeric_file (messages_history s)
}.

End HistoryNotions.

(* ================================================================== *)
(** * Sequences of calls on the history handler *)
(* ================================================================== *)

Module HistoryRuns.

Import Py History HistoryNotions.

(** A call on the handler, with what the operating system answers to its
    write, or a restart of the process. *)
Inductive call : Type :=
| Save (o : write_outcome) (forwarder_name : string) (tg_message_id discord_message_id : Z)
| Missed (o : write_outcome) (forwarder_name : string) (tg_message_id discord_channel_id : Z)
         (exception : string)
| Lookup (forwarder_name : string) (tg_message_id : key)
| Last
| Rotate (history_size_limit : Q)
| Restart.

Definition step (s : state) (c : call) : state :=
  match c with
  | Save o name k v => after (save_mapping_data o name k v s)
  | Missed o name k ch exc => after (save_missed_message o name k ch exc s)
  | Lookup name k => after (get_discord_message_id name k s)
  | Last => after (get_last_messages_for_all_forwarders s)
  | Rotate limit => clean_history_data limit s
  | Restart => restart s
  end.

(** The state after a sequence of calls in a new installation. *)
Definition run (calls : list call) : state := fold_left step calls fresh.

Definition is_KStr (k : key) : bool :=
  match k with
  | KStr _ => true
  | KInt _ => false
  end.

(** The keys loaded from the file come before the keys recorded since. *)
Definition strings_first (d : forwarder_data) : Prop :=
  exists strs ints,
    d = List.app strs ints
    /\ Forall (fun kv => is_KStr (fst kv) = true) strs
    /\ Forall (fun kv => is_KStr (fst kv) = false) ints.

(** A mapping as the handler builds it: no name and no key twice. *)
Definition dict_like (m : mapping) : Prop :=
  NoDup (map fst m)
  /\ Forall (fun d => NoDup (map fst d) /\ strings_first d) (map snd m).

Definition tidy (s : state) : Prop := Forall dict_like (heap s).

(** What every state reached by calls on the handler satisfies. *)
Definition healthy (s : state) : Prop := consistent s /\ tidy s.

(** The entry that [get_discord_message_id] reads in a mapping. *)
Definition entry_of (m : mapping) (name : string) (k : key) : option entry :=
  match od_get String.eqb name m with
  | Some data => od_get key_eqb k data
  | None => None
  end.

(** The pair that a pair of the cache is written and read back as. *)
Definition reloaded (kv : key * entry) : key * entry :=
  (KStr (dumps_key (fst kv)), loads_entry (dumps_entry (snd kv))).

End HistoryRuns.

(* ================================================================== *)
(** * bridge/config/config.py: the configuration objects and [load] *)
(* ================================================================== *)

Module Objects.

Import Py Config.
Local Open Scope py_scope.

(** An object of one of the section classes: its attributes, in the order
    in which [__init__] assigns them. *)
Definition attrs := list (string * value).

(** [o.name], and [getattr(o, name)]. *)
Definition getattr (o : attrs) (name : string) : result value :=
  match assoc name o with
  | Some v => Ok v
  | None => Raise AttributeError
  end.

(** [AppConfig.__init__]. *)
Definition AppConfig (config_data : value) : result attrs :=
  name <- subscript config_data "name" ;;
  version <- subscript config_data "version" ;;
  description <- subscript config_data "description" ;;
  debug <- subscript config_data "debug" ;;
  healthcheck_interval <- subscript config_data "healthcheck_interval" ;;
  recoverer_delay <- subscript config_data "recoverer_delay" ;;
  history_size_limit <- subscript config_data "history_size_limit" ;;
  Ok [("name", name); ("version", version); ("description", description); ("debug", debug);
      ("internet_connected", VBool false); ("healthcheck_interval", healthcheck_interval);
      ("recoverer_delay", recoverer_delay); ("history_size_limit", history_size_limit)].

(** [APIConfig.__init__]. *)
Definition APIConfig (config_data : value) : result attrs :=
  enabled <- subscript config_data "enabled" ;;
  cors_origins <- subscript config_data "cors_origins" ;;
  telegram_login_enabled <- subscript config_data "telegram_login_enabled" ;;
  telegram_auth_file <- subscript config_data "telegram_auth_file" ;;
  telegram_auth_request_expiration <- subscript config_data "telegram_auth_request_expiration" ;;
  Ok [("enabled", enabled); ("cors_origins", cors_origins);
      ("telegram_login_enabled", telegram_login_enabled);
      ("telegram_auth_file", telegram_auth_file);
      ("telegram_auth_request_expiration", telegram_auth_request_expiration)].

(** [LoggerConfig.__init__]. *)
Definition LoggerConfig (config_data : value) : result attrs :=
  level <- subscript config_data "level" ;;
  file_max_bytes <- subscript config_data "file_max_bytes" ;;
  file_backup_count <- subscript config_data "file_backup_count" ;;
  format <- subscript config_data "format" ;;
  date_format <- subscript config_data "date_format" ;;
  console <- subscript config_data "console" ;;
  Ok [("level", level); ("file_max_bytes", file_max_bytes);
      ("file_backup_count", file_backup_count); ("format", format);
      ("date_format", date_format); ("console", console)].

(** [TelegramConfig.__init__]. *)
Definition TelegramConfig (config_data : value) : result attrs :=
  phone <- subscript config_data "phone" ;;
  password <- subscript config_data "password" ;;
  api_id <- subscript config_data "api_id" ;;
  api_hash <- subscript config_data "api_hash" ;;
  log_unhandled_conversations <- subscript config_data "log_unhandled_conversations" ;;
  Ok [("is_healthy", VBool false); ("phone", phone); ("password", password);
      ("api_id", api_id); ("api_hash", api_hash);
      ("log_unhandled_conversations", log_unhandled_conversations)].

(** [DiscordConfig.__init__]. *)
Definition DiscordConfig (config_data : value) : result attrs :=
  bot_token <- subscript config_data "bot_token" ;;
  built_in_roles <- subscript config_data "built_in_roles" ;;
  max_latency <- subscript config_data "max_latency" ;;
  Ok [("is_healthy", VBool false); ("bot_token", bot_token);
      ("built_in_roles", built_in_roles); ("max_latency", max_latency)].

(** [OpenAIConfig.__init__]; [OpenAIConfig.__getitem__] is [getattr]. *)
Definition OpenAIConfig (config_data : value) : result attrs :=
  filter <- subscript config_data "filter" ;;
  api_key <- subscript config_data "api_key" ;;
  organization <- subscript config_data "organization" ;;
  enabled <- subscript config_data "enabled" ;;
  sentiment_analysis_prompt <- subscript config_data "sentiment_analysis_prompt" ;;
  Ok [("is_healthy", VBool true); ("filter", filter); ("api_key", api_key);
      ("organization", organization); ("enabled", enabled);
      ("sentiment_analysis_prompt", sentiment_analysis_prompt)].

(** A [Config] instance: [_initialized], the instance attribute
    [_file_path] when [set_file_path] has assigned one (the class attribute
    is read otherwise), and the attributes that [__init__] and [load]
    assign; [None] stands for an attribute that has not been assigned. *)
Record instance : Type := mk_instance {
  initialized : bool;
  file_path : option string;
  app : option attrs;
  api : option attrs;
  logger : option attrs;
  telegram : option attrs;
  discord : option attrs;
  openai : option attrs;
  telegram_forwarders : option value
}.

(** [os.path.join(os.path.curdir, name)] with the POSIX separator. *)
Definition in_curdir (name : string) : string := "./" ++ name.

(** [self._file_path]. *)
Definition path_of (self : instance) : string :=
  match file_path self with
  | Some p => p
  | None => in_curdir "config.yml"
  end.

(** What opening and parsing the file gives. *)
Inductive read_outcome : Type :=
| FileNotFound
| YAMLError (ex : string)
| Parsed (config_data : value).

(** How a call ends: it returns, it ends the process with [sys.exit], or
    it raises. *)
Inductive outcome (A : Type) : Type :=
| Returns (a : A)
| Exits (code : Z)
| Raises (e : exn).

Arguments Returns {A} a.
Arguments Exits {A} code.
Arguments Raises {A} e.

Definition newline : string := String (ascii_of_nat 10) EmptyString.

(** The lines that [load] prints for an invalid document. *)
Definition invalid_report (errs : list string) : list string :=
  "Error: Invalid configuration file." :: map (fun e => newline ++ e ++ newline) errs.

Definition set_app (o : attrs) (i : instance) : instance :=
  mk_instance (initialized i) (file_path i) (Some o) (api i) (logger i) (telegram i)
              (discord i) (openai i) (telegram_forwarders i).
Definition set_api (o : attrs) (i : instance) : instance :=
  mk_instance (initialized i) (file_path i) (app i) (Some o) (logger i) (telegram i)
              (discord i) (openai i) (telegram_forwarders i).
Definition set_logger (o : attrs) (i : instance) : instance :=
  mk_instance (initialized i) (file_path i) (app i) (api i) (Some o) (telegram i)
              (discord i) (openai i) (telegram_forwarders i).
Definition set_telegram (o : attrs) (i : instance) : instance :=
  mk_instance (initialized i) (file_path i) (app i) (api i) (logger i) (Some o)
              (discord i) (openai i) (telegram_forwarders i).
Definition set_discord (o : attrs) (i : instance) : instance :=
  mk_instance (initialized i) (file_path i) (app i) (api i) (logger i) (telegram i)
              (Some o) (openai i) (telegram_forwarders i).
Definition set_openai (o : attrs) (i : instance) : instance :=
  mk_instance (initialized i) (file_path i) (app i) (api i) (logger i) (telegram i)
              (discord i) (Some o) (telegram_forwarders i).
Definition set_telegram_forwarders (v : value) (i : instance) : instance :=
  mk_instance (initialized i) (file_path i) (app i) (api i) (logger i) (telegram i)
              (discord i) (openai i) (Some v).
Definition set_initialized (i : instance) : instance :=
  mk_instance true (file_path i) (app i) (api i) (logger i) (telegram i)
              (discord i) (openai i) (telegram_forwarders i).
Definition set_path (p : string) (i : instance) : instance :=
  mk_instance (initialized i) (Some p) (app i) (api i) (logger i) (telegram i)
              (discord i) (openai i) (telegram_forwarders i).

(** [self.x = X(config_data[key])], then the rest [k]: the subscript or
    the constructor may raise, and the attributes assigned before stay. *)
Definition build (config_data : value) (key : string) (ctor : value -> result attrs)
    (set : attrs -> instance -> instance) (self : instance)
    (k : instance -> outcome value * instance) : outcome value * instance :=
  match subscript config_data key with
  | Raise e => (Raises e, self)
  | Ok section =>
      match ctor section with
      | Raise e => (Raises e, self)
      | Ok o => k (set o self)
      end
  end.

(** The assignments at the end of [load]. *)
Definition assign_sections (config_data : value) (self : instance)
  : outcome value * instance :=
  build config_data "application" AppConfig set_app self (fun self =>
  build config_data "api" APIConfig set_api self (fun self =>
  build config_data "logger" LoggerConfig set_logger self (fun self =>
  build config_data "telegram" TelegramConfig set_telegram self (fun self =>
  build config_data "discord" DiscordConfig set_discord self (fun self =>
  build config_data "openai" OpenAIConfig set_openai self (fun self =>
  match subscript config_data "telegram_forwarders" with
  | Raise e => (Raises e, self)
  | Ok fw => (Returns config_data, set_telegram_forwarders fw self)
  end)))))).

(** [Config.load] on the file that [self._file_path] names, [file] being
    what reading it gives; the third component is what is printed. *)
Definition load (file : read_outcome) (self : instance)
  : outcome value * instance * list string :=
  match file with
  | FileNotFound => (Exits 1, self, ["Error: Configuration file not found."])
  | YAMLError ex => (Exits 1, self, ["Error parsing configuration file: %s " ++ ex])
  | Parsed config_data =>
      match first_missing required_keys config_data with
      | Raise e => (Raises e, self, [])
      | Ok (Some key) =>
          (Exits 1, self, ["Error: Key %s not found in the configuration file. " ++ key])
      | Ok None =>
          match validate_config config_data with
          | Raise e => (Raises e, self, [])
          | Ok (false, errs) => (Exits 1, self, invalid_report errs)
          | Ok (true, _) => (assign_sections config_data self, [])
          end
      end
  end.

(** [Config.get_telegram_channel_by_forwarder_name]: the loop over
    [self.telegram_forwarders]. *)
Fixpoint channel_of (forwarders : list value) (forwarder_name : string) : result value :=
  match forwarders with
  | [] => Ok VNone
  | forwarder :: rest =>
      name <- get forwarder "forwarder_name" VNone ;;
      if is_str forwarder_name name then get forwarder "tg_channel_id" VNone
      else channel_of rest forwarder_name
  end.

Definition get_telegram_channel_by_forwarder_name (self : instance) (forwarder_name : string)
  : result value :=
  match telegram_forwarders self with
  | None => Raise AttributeError
  | Some forwarders =>
      l <- iter forwarders ;;
      channel_of l forwarder_name
  end.

(** A constructor reads exactly the keys [fields] and keeps each value
    under the attribute of the same name. *)
Definition reads (ctor : value -> result attrs) (fields : list string) : Prop :=
  (forall d o, ctor d = Ok o ->
               forall f, In f fields -> exists v, subscript d f = Ok v /\ getattr o f = Ok v)
  /\ (forall d, (forall f, In f fields -> exists v, subscript d f = Ok v) ->
                exists o, ctor d = Ok o).

End Objects.

(* ================================================================== *)
(** * bridge/config/config.py: the instances of [Config] *)
(* ================================================================== *)

Module Registry.

Import Py Config Objects.

(** The keys that [load] reads in each section of the document. *)
Definition section_fields : list (string * list string) :=
  [("application", ["name"; "version"; "description"; "debug"; "healthcheck_interval";
                    "recoverer_delay"; "history_size_limit"]);
   ("api", ["enabled"; "cors_origins"; "telegram_login_enabled"; "telegram_auth_file";
            "telegram_auth_request_expiration"]);
   ("logger", ["level"; "file_max_bytes"; "file_backup_count"; "format"; "date_format";
               "console"]);
   ("telegram", ["phone"; "password"; "api_id"; "api_hash"; "log_unhandled_conversations"]);
   ("discord", ["bot_token"; "built_in_roles"; "max_latency"]);
   ("openai", ["filter"; "api_key"; "organization"; "enabled"; "sentiment_analysis_prompt"])].

(** The attribute of the instance that holds the object of a section. *)
Definition section_of (self : instance) (key : string) : option attrs :=
  if String.eqb key "application" then app self
  else if String.eqb key "api" then api self
  else if String.eqb key "logger" then logger self
  else if String.eqb key "telegram" then telegram self
  else if String.eqb key "discord" then discord self
  else if String.eqb key "openai" then openai self
  else None.

(** Every section is present with every key that [load] reads. *)
Definition complete (config_data : value) : Prop :=
  forall key fields field,
    In (key, fields) section_fields -> In field fields ->
    exists section v, subscript config_data key = Ok section /\ subscript section field = Ok v.

(** The class attribute [Config._instances], a dictionary from version to
    instance, and the instances themselves, addressed by position; what has
    been printed so far.  A key is a string or [None]. *)
Record world : Type := mk_world {
  instances : list (option string * nat);
  objects : list instance;
  stdout : list string
}.

Definition version_eqb (a b : option string) : bool :=
  match a, b with
  | None, None => true
  | Some x, Some y => String.eqb x y
  | _, _ => false
  end.

Fixpoint lookup (k : option string) (d : list (option string * nat)) : option nat :=
  match d with
  | [] => None
  | (k', r) :: d' => if version_eqb k k' then Some r else lookup k d'
  end.

Fixpoint store (k : option string) (r : nat) (d : list (option string * nat))
  : list (option string * nat) :=
  match d with
  | [] => [(k, r)]
  | (k', r') :: d' => if version_eqb k k' then (k', r) :: d' else (k', r') :: store k r d'
  end.

Definition blank : instance := mk_instance false None None None None None None None None.

Definition object (r : nat) (w : world) : instance := nth r (objects w) blank.

Fixpoint replace_nth {A} (n : nat) (x : A) (l : list A) : list A :=
  match l, n with
  | [], _ => []
  | _ :: l', O => x :: l'
  | y :: l', S n' => y :: replace_nth n' x l'
  end.

Definition update (r : nat) (i : instance) (w : world) : world :=
  mk_world (instances w) (replace_nth r i (objects w)) (stdout w).

(** The file system as [load] sees it: what reading each path gives. *)
Definition disk := string -> read_outcome.

(** [Config.__new__]: unless the key [None] is registered, a new instance
    is created and registered under [""]; the instance registered under
    [""] is returned. *)
Definition new (w : world) : outcome nat * world :=
  match lookup None (instances w) with
  | None =>
      let r := List.length (objects w) in
      (Returns r, mk_world (store (Some "") r (instances w)) (List.app (objects w) [blank])
                           (stdout w))
  | Some _ =>
      match lookup (Some "") (instances w) with
      | Some r => (Returns r, w)
      | None => (Raises (KeyError ""), w)
      end
  end.

(** [self.load()] on the instance at [r]. *)
Definition load_at (d : disk) (r : nat) (w : world) : outcome value * world :=
  let self := object r w in
  match load (d (path_of self)) self with
  | (out, self', printed) =>
      (out, mk_world (instances w) (replace_nth r self' (objects w))
                     (List.app (stdout w) printed))
  end.

(** [Config.__init__]. *)
Definition init (d : disk) (r : nat) (w : world) : outcome unit * world :=
  let self := object r w in
  if initialized self then (Returns tt, w)
  else
    let w1 := update r (set_telegram_forwarders (VList []) (set_initialized self)) w in
    match load_at d r w1 with
    | (Returns _, w2) => (Returns tt, w2)
    | (Exits c, w2) => (Exits c, w2)
    | (Raises e, w2) => (Raises e, w2)
    end.

(** The call [Config()]: [__new__], then [__init__] on what it returned. *)
Definition Config_call (d : disk) (w : world) : outcome nat * world :=
  match new w with
  | (Returns r, w1) =>
      match init d r w1 with
      | (Returns _, w2) => (Returns r, w2)
      | (Exits c, w2) => (Exits c, w2)
      | (Raises e, w2) => (Raises e, w2)
      end
  | other => other
  end.

(** [version] as a condition: a non-empty string. *)
Definition truthy_version (version : option string) : bool :=
  match version with
  | Some s => negb (String.eqb s "")
  | None => false
  end.

(** [Config.set_file_path] on the instance at [r]. *)
Definition set_file_path (version : option string) (r : nat) (w : world) : world :=
  let p :=
    match version with
    | Some s => if truthy_version version then in_curdir ("config-" ++ s ++ ".yml")
                else in_curdir "config.yml"
    | None => in_curdir "config.yml"
    end in
  update r (set_path p (object r w)) w.

(** [Config.set_version]. *)
Definition set_version (d : disk) (version : option string) (w : world)
  : outcome nat * world :=
  let registered :=
    match lookup version (instances w) with
    | Some r => (Returns r, w)
    | None =>
        match Config_call d w with
        | (Returns r, w1) =>
            (Returns r, mk_world (store version r (instances w1)) (objects w1) (stdout w1))
        | other => other
        end
    end in
  match registered with
  | (Returns r, w1) =>
      let w2 := set_file_path version r w1 in
      match load_at d r w2 with
      | (Returns _, w3) => (Returns r, w3)
      | (Exits c, w3) => (Exits c, w3)
      | (Raises e, w3) => (Raises e, w3)
      end
  | other => other
  end.

(** [Config.get_config_instance]; the [KeyError] of a missing [""] is
    raised again as [ValueError]. *)
Definition get_config_instance (version : option string) (w : world) : outcome nat :=
  let found :=
    if truthy_version version then lookup version (instances w) else None in
  match found with
  | Some r => Returns r
  | None =>
      match lookup (Some "") (instances w) with
      | Some r => Returns r
      | None => Raises ValueError
      end
  end.

(** [Config.set_config_instance]: registers [config] unless the version is
    registered already, and returns [config]. *)
Definition set_config_instance (config : nat) (version : option string) (w : world)
  : nat * world :=
  let version := if truthy_version version then version else Some "" in
  match lookup version (instances w) with
  | Some _ => (config, w)
  | None =>
      (config,
       mk_world (store version config (instances w)) (objects w)
                (List.app (stdout w)
                   ["Setting config instance for version %s "
                    ++ match version with Some s => s | None => "None" end]))
  end.

Definition empty_world : world := mk_world [] [] [].

(** What the document and the instance hold for a section. *)
Definition mirrored (config_data : value) (self : instance) (key : string)
    (fields : list string) : Prop :=
  exists section o,
    subscript config_data key = Ok section
    /\ section_of self key = Some o
    /\ forall f, In f fields -> exists v, subscript section f = Ok v /\ getattr o f = Ok v.

(** The instance on which [__init__] calls [load]. *)
Definition started : instance := set_telegram_forwarders (VList []) (set_initialized blank).

End Registry.

(* ================================================================== *)
(** * A complete configuration document *)
(* ================================================================== *)

Module FullSample.

Import Py Schema Samples.

Definition application_section : value :=
  VDict [("name", VStr "bridge"); ("version", VStr "1.0"); ("description", VStr "d");
         ("debug", VBool false); ("healthcheck_interval", VInt 10);
         ("recoverer_delay", VInt 60); ("history_size_limit", VInt 50)].

Definition api_section : value :=
  VDict [("enabled", VBool false); ("cors_origins", VList []);
         ("telegram_login_enabled", VBool false); ("telegram_auth_file", VStr "auth.json");
         ("telegram_auth_request_expiration", VInt 300)].

Definition logger_section : value :=
  VDict [("level", VStr "INFO"); ("file_max_bytes", VInt 1000); ("file_backup_count", VInt 3);
         ("format", VStr "f"); ("date_format", VStr "d"); ("console", VBool true)].

Definition telegram_section : value :=
  VDict [("phone", VStr "+1"); ("password", VStr "p"); ("api_id", VInt 1);
         ("api_hash", VStr "h"); ("log_unhandled_conversations", VBool false)].

Definition discord_section : value :=
  VDict [("bot_token", VStr "t"); ("built_in_roles", VList [VStr "everyone"]);
         ("max_latency", VInt 1)].

Definition openai_section : value :=
  VDict [("enabled", VBool false); ("api_key", VStr "k"); ("organization", VStr "o");
         ("filter", VBool false);
         ("sentiment_analysis_prompt", VList [VDict [("role", VStr "system");
                                                     ("content", VStr "classify")]])].

(** A document with every section and key, and two valid forwarders. *)
Definition full_document : value :=
  VDict [("application", application_section); ("api", api_section);
         ("logger", logger_section); ("telegram", telegram_section);
         ("discord", discord_section); ("openai", openai_section);
         ("telegram_forwarders", yaml_of_forwarders [fwd_a; fwd_d])].

(** The same document without its [api] section. *)
Definition document_without_api : value :=
  VDict [("application", application_section);
         ("logger", logger_section); ("telegram", telegram_section);
         ("discord", discord_section); ("openai", openai_section);
         ("telegram_forwarders", yaml_of_forwarders [fwd_a; fwd_d])].

(** A disk on which every path holds the full sample document. *)
Definition full_disk : Registry.disk := fun _ => Objects.Parsed full_document.

End FullSample.

(* ================================================================== *)
(** * app.py: the PID file *)
(* ================================================================== *)

Module App.

Import Py.

(** The content of a file is a byte string.  On text within ASCII the
    functions below are [str.isspace], [str.strip] and [int]; Python also
    takes white space and decimal digits beyond ASCII, which they do not
    read. *)

(** [str.isspace] on one character, as [str.strip] and [int] use it. *)
Definition isspace (c : ascii) : bool :=
  let n := nat_of_ascii c in
  (Nat.eqb n 32 || (Nat.leb 9 n && Nat.leb n 13) || (Nat.leb 28 n && Nat.leb n 31))%bool.

Fixpoint lstrip (l : list ascii) : list ascii :=
  match l with
  | c :: l' => if isspace c then lstrip l' else l
  | [] => []
  end.

Definition strip_chars (l : list ascii) : list ascii := rev (lstrip (rev (lstrip l))).

(** [s.strip()]. *)
Definition strip (s : string) : string :=
  string_of_list_ascii (strip_chars (list_ascii_of_string s)).

(** [int(s)] for a string: surrounding white space dropped, an optional
    sign, decimal digits with single underscores between them. *)
Definition int (s : string) : option Z :=
  match strip_chars (list_ascii_of_string s) with
  | c :: l =>
      if Ascii.eqb c "-" then option_map Z.opp (History.unsigned l)
      else if Ascii.eqb c "+" then History.unsigned l
      else History.unsigned (c :: l)
  | [] => None
  end.

(** How a call ends: it returns, it ends the process with [sys.exit], or
    an exception of the named class leaves it. *)
Inductive ending (A : Type) : Type :=
| Done (a : A)
| SysExit (code : Z)
| Error (exception : string).

Arguments Done {A} a.
Arguments SysExit {A} code.
Arguments Error {A} exception.

(** The regular files of the working directory by name, and what has been
    logged at warning and error level. *)
Record machine : Type := mk_machine {
  files : list (string * string);
  log : list string
}.

Definition isfile (name : string) (m : machine) : bool :=
  match History.od_get String.eqb name (files m) with
  | Some _ => true
  | None => false
  end.

Definition write_file (name content : string) (m : machine) : machine :=
  mk_machine (History.od_set String.eqb name content (files m)) (log m).

Definition remove_file (name : string) (m : machine) : machine :=
  mk_machine (filter (fun f => negb (String.eqb name (fst f))) (files m)) (log m).

Definition logged (msg : string) (m : machine) : machine :=
  mk_machine (files m) (List.app (log m) [msg]).

(** What [os.kill(pid, SIGINT)] does: the signal is sent, or the call
    raises [ProcessLookupError], [PermissionError], or [OverflowError] for
    a number that is no process id of the system. *)
Inductive kill_outcome : Type :=
| Delivered
| NoSuchProcess
| NotPermitted
| OutOfRange.

(** The surroundings of the process: [config.app.name], [os.getpid()] and
    the answer of [os.kill]. *)
Record env : Type := mk_env {
  name : string;
  getpid : Z;
  kill : Z -> kill_outcome
}.

(** [determine_process_state]; an existing file is taken to be readable,
    so that only the [ValueError] of [int] can leave the [try]. *)
Definition determine_process_state (e : env) (pid_file : string) (m : machine)
  : ending (string * Z) * machine :=
  match History.od_get String.eqb pid_file (files m) with
  | None => (Done ("stopped", 0), m)
  | Some content =>
      match int (strip content) with
      | None => (Error "ValueError", m)
      | Some pid =>
          (Done ("running", pid),
           logged "%s is already be running with PID %s. PID file: %s" m)
      end
  end.

(** [create_pid_file]. *)
Definition create_pid_file (e : env) (m : machine) : ending string * machine :=
  let pid := getpid e in
  let bot_pid_file := name e ++ ".pid" in
  match determine_process_state e bot_pid_file m with
  | (Done (process_state, _), m1) =>
      if String.eqb process_state "running" then (SysExit 1, m1)
      else (Done bot_pid_file, write_file bot_pid_file (str_of_int pid) m1)
  | (SysExit c, m1) => (SysExit c, m1)
  | (Error x, m1) => (Error x, m1)
  end.

(** [remove_pid_file]. *)
Definition remove_pid_file (pid_file : string) (m : machine) : machine :=
  if isfile pid_file m then remove_file pid_file m
  else logged "PID file '%s' not found." m.

(** [stop_bridge]. *)
Definition stop_bridge (e : env) (m : machine) : ending unit * machine :=
  let pid_file := name e ++ ".pid" in
  match determine_process_state e pid_file m with
  | (Done (process_state, pid), m1) =>
      if String.eqb process_state "stopped" then
        (Done tt, logged "PID file '%s' not found. The %s may not be running." m1)
      else
        match kill e pid with
        | Delivered => (Done tt, logged "Sent SIGINT to the %s process with PID %s." m1)
        | NoSuchProcess =>
            (Done tt, logged "The %s process with PID %s is not running." m1)
        | NotPermitted => (Error "PermissionError", m1)
        | OutOfRange => (Error "OverflowError", m1)
        end
  | (SysExit c, m1) => (SysExit c, m1)
  | (Error x, m1) => (Error x, m1)
  end.

(** How [event_loop.run_until_complete(main())] ends. *)
Inductive run_end : Type :=
| Completed
| CancelledError
| ConnectionError
| OtherException (exception : string)
| SystemExit (code : Z).

(** [start_bridge]; [run] stands for the run of the bridge, which may
    change the files and the log. *)
Definition start_bridge (e : env) (run : machine -> run_end * machine) (m : machine)
  : ending unit * machine :=
  match create_pid_file e m with
  | (Done pid_file, m1) =>
      match run m1 with
      | (Completed, m2) => (Done tt, remove_pid_file pid_file m2)
      | (CancelledError, m2) => (Done tt, remove_pid_file pid_file m2)
      | (ConnectionError, m2) =>
          (Done tt, remove_pid_file pid_file (logged "Error while running the bridge: %s" m2))
      | (OtherException x, m2) => (Error x, remove_pid_file pid_file m2)
      | (SystemExit c, m2) => (SysExit c, remove_pid_file pid_file m2)
      end
  | (SysExit c, m1) => (SysExit c, m1)
  | (Error x, m1) => (Error x, m1)
  end.

(** A process named [bridge] with id 4242, on a system where no signalled
    process exists. *)
Definition sample_env : env := mk_env "bridge" 4242 (fun _ => NoSuchProcess).

End App.

(* ================================================================== *)
(** * bridge/history/history.py: [clean_old_media] *)
(* ================================================================== *)

Module Media.

Import Py.

(** ** [fnmatch] patterns

    A pattern is read into items: [*], [?], a character class [[...]] of
    single characters and ranges [x-y], optionally negated by a leading
    [!], or a literal character.  A [[] without a closing bracket is a
    literal.  Matching is case-sensitive, as on POSIX systems. *)
Inductive item : Type :=
| Star
| AnyChar
| Class (negated : bool) (ranges : list (ascii * ascii))
| Lit (c : ascii).

(** The members of a class up to the closing bracket, and the rest of the
    pattern after it; [None] when there is no closing bracket. *)
Fixpoint class_body (first : bool) (l : list ascii)
  : option (list (ascii * ascii) * list ascii) :=
  match l with
  | [] => None
  | c :: l' =>
      if (Ascii.eqb c "]" && negb first)%bool then Some ([], l')
      else
        match l' with
        | d :: hi :: l'' =>
            if (Ascii.eqb d "-" && negb (Ascii.eqb hi "]"))%bool then
              match class_body false l'' with
              | Some (rs, rest) => Some ((c, hi) :: rs, rest)
              | None => None
              end
            else
              match class_body false l' with
              | Some (rs, rest) => Some ((c, c) :: rs, rest)
              | None => None
              end
        | _ =>
            match class_body false l' with
            | Some (rs, rest) => Some ((c, c) :: rs, rest)
            | None => None
            end
        end
  end.

(** The items of a pattern; [fuel] bounds the number of items and is the
    length of the pattern. *)
Fixpoint items (fuel : nat) (l : list ascii) : list item :=
  match fuel, l with
  | O, _ => []
  | _, [] => []
  | S fuel', c :: l' =>
      if Ascii.eqb c "*" then Star :: items fuel' l'
      else if Ascii.eqb c "?" then AnyChar :: items fuel' l'
      else if Ascii.eqb c "[" then
        let (negated, body) :=
          match l' with
          | b :: l'' => if Ascii.eqb b "!" then (true, l'') else (false, l')
          | [] => (false, l')
          end in
        match class_body true body with
        | Some (rs, rest) => Class negated rs :: items fuel' rest
        | None => Lit c :: items fuel' l'
        end
      else Lit c :: items fuel' l'
  end.

Definition in_range (c : ascii) (r : ascii * ascii) : bool :=
  (Nat.leb (nat_of_ascii (fst r)) (nat_of_ascii c)
   && Nat.leb (nat_of_ascii c) (nat_of_ascii (snd r)))%bool.

(** Whether one character is matched by an item that takes one character. *)
Definition takes (i : item) (c : ascii) : bool :=
  match i with
  | Star => false
  | AnyChar => true
  | Class negated rs => xorb negated (existsb (in_range c) rs)
  | Lit x => Ascii.eqb c x
  end.

(** Whether the whole name is matched by the items. *)
Fixpoint matches (p : list item) (s : list ascii) : bool :=
  match p with
  | [] => match s with [] => true | _ => false end
  | Star :: p' =>
      (fix star (s : list ascii) : bool :=
         (matches p' s || match s with [] => false | _ :: s' => star s' end)%bool) s
  | i :: p' =>
      match s with
      | c :: s' => (takes i c && matches p' s')%bool
      | [] => false
      end
  end.

(** [fnmatch.fnmatch(name, pattern)]. *)
Definition fnmatch (name pattern : string) : bool :=
  matches (items (String.length pattern) (list_ascii_of_string pattern))
          (list_ascii_of_string name).

(** [s * n]. *)
Fixpoint repeat_str (s : string) (n : nat) : string :=
  match n with
  | O => ""
  | S n' => s ++ repeat_str s n'
  end.

(** The pattern that [clean_old_media] passes to [glob.glob]. *)
Definition media_pattern : string :=
  repeat_str "[0-9a-f]" 8 ++ "-" ++ repeat_str "[0-9a-f]" 4 ++ "-"
  ++ repeat_str "[0-9a-f]" 4 ++ "-" ++ repeat_str "[0-9a-f]" 4 ++ "-"
  ++ repeat_str "[0-9a-f]" 12 ++ ".*".

(** ** The working directory *)

Inductive kind : Type :=
| RegularFile
| Directory.

(** The entries of the working directory, in the order in which the
    operating system lists them, and the messages of [logger.error]. *)
Record folder : Type := mk_folder {
  entries : list (string * kind);
  errors : list string
}.

(** A name or pattern that starts with a dot. *)
Definition hidden (s : string) : bool :=
  match s with
  | String c _ => Ascii.eqb c "."
  | EmptyString => false
  end.

(** [glob.glob(pattern)] for a pattern without directory part: the names
    of the entries that match; hidden names are only looked at for a
    hidden pattern. *)
Definition glob (pattern : string) (d : folder) : list string :=
  map fst (filter (fun e => ((hidden pattern || negb (hidden (fst e)))
                             && fnmatch (fst e) pattern)%bool)
                  (entries d)).

Definition kind_of (name : string) (l : list (string * kind)) : option kind :=
  assoc name l.

Definition media_error : string :=
  "Failed deleting old media file! Make sure that the storage growth does not get out of hand!".

(** The loop [for file in files: os.remove(file)] inside the [try]:
    [os.remove] raises on a directory and on a name that is not there, the
    handler logs and the loop is over. *)
Fixpoint remove_each (names : list string) (d : folder) : folder :=
  match names with
  | [] => d
  | file :: rest =>
      match kind_of file (entries d) with
      | Some RegularFile =>
          remove_each rest
            (mk_folder (filter (fun e => negb (String.eqb file (fst e))) (entries d))
                       (errors d))
      | _ => mk_folder (entries d) (List.app (errors d) [media_error])
      end
  end.

(** [MessageHistoryHandler.clean_old_media]. *)
Definition clean_old_media (d : folder) : folder :=
  remove_each (glob media_pattern d) d.

(** ** The names meant

    Eight, four, four, four and twelve lower-case hexadecimal digits,
    separated by hyphens, then a dot and any extension. *)
Definition hex (c : ascii) : bool :=
  let n := nat_of_ascii c in
  ((Nat.leb 48 n && Nat.leb n 57) || (Nat.leb 97 n && Nat.leb n 102))%bool.

Definition hex_group (n : nat) (g : list ascii) : Prop :=
  List.length g = n /\ Forall (fun c => hex c = true) g.

Definition uuid_named (name : string) : Prop :=
  exists a b c d e ext,
    list_ascii_of_string name
    = List.app a ("-"%char :: List.app b ("-"%char :: List.app c ("-"%char ::
        List.app d ("-"%char :: List.app e ("."%char :: ext)))))
    /\ hex_group 8 a /\ hex_group 4 b /\ hex_group 4 c /\ hex_group 4 d /\ hex_group 12 e.

End Media.

(* ================================================================== *)
(** * bridge/openai_handler.py *)
(* ================================================================== *)

Module OpenAI.

Import Py Objects.

(** What [openai.ChatCompletion.create] is called with, as far as the
    arguments depend on the configuration and the message. *)
Record request : Type := mk_request {
  model : value;
  temperature : value;
  messages : value
}.

(** How the call to the service ends: a response with the contents of its
    choices, or an exception, by the [except] clause that takes it. *)
Inductive api_outcome : Type :=
| Response (choices : list string)
| InvalidRequestError
| RateLimitError
| APIError
| OtherException.

Definition generic_error : string := "Error generating suggestion.".

(** [prompt.append(item)]: lists have the method. *)
Definition append (prompt item : value) : result value :=
  match prompt with
  | VList l => Ok (VList (List.app l [item]))
  | _ => Raise AttributeError
  end.

(** The [try] body of [analyze_message_sentiment] up to the call: the
    prompt with the message appended, then the keyword arguments in the
    order in which they are written. *)
Definition sentiment_request (openai : attrs) (text : string) : result request :=
  bind (getattr openai "sentiment_analysis_prompt") (fun prompt =>
  bind (if is_None prompt then Ok prompt
        else append prompt (VDict [("role", VStr "user"); ("content", VStr text)]))
       (fun prompt =>
  bind (getattr openai "model") (fun model =>
  bind (getattr openai "temperature") (fun temperature =>
  Ok (mk_request model temperature prompt))))).

(** [analyze_message_sentiment]: every exception of the [try] body is
    answered with a fixed text. *)
Definition analyze_message_sentiment (openai : attrs) (create : request -> api_outcome)
    (text : string) : string :=
  match sentiment_request openai text with
  | Raise _ => generic_error
  | Ok req =>
      match create req with
      | Response (content :: _) => content
      | Response [] => generic_error
      | InvalidRequestError => "Error generating suggestion: Invalid request."
      | RateLimitError => "Error generating suggestion: Rate limit exceeded."
      | APIError => "Error generating suggestion: API error."
      | OtherException => generic_error
      end
  end.

End OpenAI.

(* ================================================================== *)
(** * Notions for the media cleaner *)
(* ================================================================== *)

Module MediaNotions.

Import Py Media.

(** The class [[0-9a-f]] as an item. *)
Definition hex_class : item := Class false [("0"%char, "9"%char); ("a"%char, "f"%char)].

(** The items of [media_pattern] before its final [*]. *)
Definition media_items : list item :=
  List.app (repeat hex_class 8) (Lit "-" ::
  List.app (repeat hex_class 4) (Lit "-" ::
  List.app (repeat hex_class 4) (Lit "-" ::
  List.app (repeat hex_class 4) (Lit "-" ::
  List.app (repeat hex_class 12) [Lit "."])))).

(** An item that takes exactly one character. *)
Definition single (i : item) : bool :=
  match i with
  | Star => false
  | _ => true
  end.

(** The names of the entries of the directory. *)
Definition names (d : folder) : list string := map fst (entries d).

(** The entries left when the files named in [removed] are gone. *)
Definition without (removed : list string) (es : list (string * kind))
  : list (string * kind) :=
  filter (fun e => negb (existsb (String.eqb (fst e)) removed)) es.

(** The entries whose names the pattern does not match. *)
Definition other_entries (es : list (string * kind)) : list (string * kind) :=
  filter (fun e => negb (fnmatch (fst e) media_pattern)) es.

(** A directory with two downloaded media files, the history file and a
    sub-directory. *)
Definition sample_folder : folder :=
  mk_folder [("0123abcd-0123-abcd-0123-0123456789ab.jpg", RegularFile);
             ("messages_history.json", RegularFile);
             ("media", Directory);
             ("89abcdef-89ab-cdef-89ab-89abcdef0123.mp4", RegularFile)]
            [].

End MediaNotions.

(* ================================================================== *)
(** * Properties of the configuration validator *)
(* ================================================================== *)

Module ConfigProofs.

Import Py Config Schema Samples ConfigNotions.
Local Open Scope py_scope.

Lemma bind_Ok {A B} (m : result A) (k : A -> result B) (b : B) :
  bind m k = Ok b -> exists a, m = Ok a /\ k a = Ok b.
Proof.
  destruct m as [a | e]; simpl; intros H.
  - exists a. split; [reflexivity | exact H].
  - discriminate H.
Qed.

(** Splits a hypothesis [x <- m ;; k = Ok b] into its two steps. *)
Ltac bind_inv H :=
  let a := fresh "a" in
  let Ha := fresh "Hstep" in
  apply bind_Ok in H; destruct H as [a [Ha H]].

Lemma is_empty_true {A} (l : list A) : is_empty l = true <-> l = [].
Proof.
  destruct l; simpl; split; intros H; try reflexivity; discriminate H.
Qed.

(** C9: whenever [validate_config] returns, the flag it returns is true
    exactly when the list of errors it returns is empty; the values that the
    individual checks leave in [valid] on the way do not reach the result. *)
Theorem validate_config_flag_iff_no_errors :
  forall (config : value) (is_valid : bool) (errs : list string),
    validate_config config = Ok (is_valid, errs) ->
    (is_valid = true <-> errs = []).
Proof.
  intros config is_valid errs H.
  unfold validate_config in H.
  repeat bind_inv H.
  injection H as Hv He.
  rewrite <- Hv, <- He.
  apply is_empty_true.
Qed.

Lemma validate_config_flag_iff_no_errors_witness :
  validate_config (document [fwd_a; fwd_b] openai_off)
  = Ok (false,
        ["Shared hashtags {'news'} found for forwarders with tg_channel_id 1. The same message will be forwarded multiple times."])
  /\ (false = true <->
      ["Shared hashtags {'news'} found for forwarders with tg_channel_id 1. The same message will be forwarded multiple times."]
      = @nil string).
Proof.
  split.
  - vm_compute. reflexivity.
  - apply (validate_config_flag_iff_no_errors (document [fwd_a; fwd_b] openai_off)).
    vm_compute. reflexivity.
Defined.

Lemma first_missing_dict_telegram_forwarders :
  forall d, first_missing required_keys (VDict d) = Ok None ->
            exists v, assoc "telegram_forwarders" d = Some v.
Proof.
  intros d H. unfold required_keys in H. simpl in H.
  repeat match type of H with
         | context [assoc ?k d] => destruct (assoc k d) eqn:?; simpl in H; try discriminate H
         end.
  eexists. reflexivity.
Qed.

(** C10: the required-sections check of [load] covers [application],
    [logger], [telegram], [discord] and [telegram_forwarders] only, and
    [validate_config] raises [KeyError] on documents that pass it: on every
    document without an [openai] section (so [load] raises as well instead
    of reporting), and on a document whose forwarder entry lacks
    [forwarder_name], [tg_channel_id], [discord_channel_id],
    [forward_everything] or [mention_everyone]. *)
Theorem validate_config_raises_on_incomplete_documents :
  required_keys = ["application"; "logger"; "telegram"; "discord"; "telegram_forwarders"]
  /\ (forall d,
        first_missing required_keys (VDict d) = Ok None ->
        assoc "openai" d = None ->
        validate_config (VDict d) = Raise (KeyError "openai")
        /\ load_checks (VDict d) = Raise (KeyError "openai"))
  /\ (forall k,
        In k forwarder_keys ->
        first_missing required_keys (document_lacking k) = Ok None
        /\ validate_config (document_lacking k) = Raise (KeyError k)
        /\ load_checks (document_lacking k) = Raise (KeyError k)).
Proof.
  split; [reflexivity | split].
  - intros d Hreq Hopenai.
    destruct (first_missing_dict_telegram_forwarders d Hreq) as [v Hv].
    assert (Hraise : validate_config (VDict d) = Raise (KeyError "openai")).
    { unfold validate_config, subscript. rewrite Hv, Hopenai. reflexivity. }
    split; [exact Hraise |].
    unfold load_checks. rewrite Hreq. simpl. rewrite Hraise. reflexivity.
  - intros k Hk. unfold forwarder_keys in Hk. simpl in Hk.
    repeat (destruct Hk as [Hk | Hk]; [subst k; vm_compute; repeat split |]).
    contradiction.
Qed.

Lemma validate_config_raises_on_incomplete_documents_witness :
  validate_config (VDict [("application", VNone); ("logger", VNone); ("telegram", VNone);
                          ("discord", VNone); ("telegram_forwarders", VList [])])
  = Raise (KeyError "openai")
  /\ validate_config (document_lacking "mention_everyone") = Raise (KeyError "mention_everyone").
Proof.
  split.
  - apply (proj1 (proj2 validate_config_raises_on_incomplete_documents)); reflexivity.
  - apply (proj2 (proj2 validate_config_raises_on_incomplete_documents)).
    unfold forwarder_keys. simpl. tauto.
Defined.

(** A forwarder entry without [forward_everything] is accepted when it has
    forward hashtags: the key is only read behind [len(forward_hashtags) <= 0]. *)
Example forward_everything_read_lazily :
  validate_config
    (document_of_values [without "forward_everything" (yaml_of_forwarder fwd_b)] openai_off)
  = Ok (true, []).
Proof. vm_compute. reflexivity. Qed.

(** ** The validators on entries of the documented shape *)

Lemma hkey_eqb_eq (a b : hkey) : hkey_eqb a b = true <-> a = b.
Proof.
  destruct a, b; simpl; split; intros H; try reflexivity; try discriminate H.
  - apply Z.eqb_eq in H. subst. reflexivity.
  - injection H as H. subst. apply Z.eqb_refl.
  - apply String.eqb_eq in H. subst. reflexivity.
  - injection H as H. subst. apply String.eqb_refl.
Qed.

Lemma hkey_eqb_refl (a : hkey) : hkey_eqb a a = true.
Proof. apply hkey_eqb_eq. reflexivity. Qed.

Lemma hkey_eqb_neq (a b : hkey) : hkey_eqb a b = false <-> a <> b.
Proof.
  split.
  - intros H E. apply hkey_eqb_eq in E. congruence.
  - intros H. destruct (hkey_eqb a b) eqn:E; [| reflexivity].
    apply hkey_eqb_eq in E. contradiction.
Qed.

Lemma mem_In (x : string) (s : list string) : mem x s = true <-> In x s.
Proof.
  unfold mem. rewrite existsb_exists. split.
  - intros [y [Hy E]]. apply String.eqb_eq in E. subst. exact Hy.
  - intros H. exists x. split; [exact H | apply String.eqb_refl].
Qed.

Lemma set_of_list_In (x : string) (l : list string) : In x (set_of_list l) <-> In x l.
Proof.
  induction l as [| y l IH]; simpl; [tauto |].
  destruct (mem y l) eqn:E.
  - rewrite IH. split; [tauto |]. intros [H | H]; [| exact H].
    subst. apply mem_In. exact E.
  - simpl. rewrite IH. tauto.
Qed.

Lemma intersection_In (x : string) (a b : list string) :
  In x (intersection a b) <-> In x a /\ In x b.
Proof.
  unfold intersection. rewrite filter_In, mem_In. tauto.
Qed.

Lemma nonempty_false {A} (l : list A) : nonempty l = false <-> l = [].
Proof.
  destruct l; simpl; split; intros H; try reflexivity; discriminate H.
Qed.

Lemma nonempty_true_In {A} (l : list A) : nonempty l = true <-> exists x, In x l.
Proof.
  destruct l as [| y l]; simpl; split.
  - intros H. discriminate H.
  - intros [x []].
  - intros _. exists y. left. reflexivity.
  - intros _. reflexivity.
Qed.

Lemma nonempty_intersection (a b : list string) :
  nonempty (intersection a b) = true <-> exists x, In x a /\ In x b.
Proof.
  rewrite nonempty_true_In. split; intros [x H]; exists x; apply intersection_In; exact H.
Qed.

Lemma mapM_tag_name (ts : list hashtag) :
  mapM tag_name (map yaml_of_hashtag ts) = Ok (names_of ts).
Proof.
  induction ts as [| t ts IH]; simpl; [reflexivity |].
  rewrite IH. destruct t as [n o]. reflexivity.
Qed.

Lemma hashtag_names_yaml (ts : list hashtag) :
  hashtag_names (yaml_of_hashtags ts) = Ok (set_of_list (names_of ts)).
Proof.
  unfold hashtag_names, yaml_of_hashtags. simpl. rewrite mapM_tag_name. reflexivity.
Qed.

Lemma any_override_yaml (ts : list hashtag) :
  any_override (map yaml_of_hashtag ts) = Ok (existsb overrides ts).
Proof.
  induction ts as [| t ts IH]; simpl; [reflexivity |].
  destruct t as [n [[|] |]]; simpl; try reflexivity; exact IH.
Qed.

Lemma get_forward_hashtags_yaml (f : forwarder) :
  get_forward_hashtags (yaml_of_forwarder f)
  = Ok (yaml_of_hashtags (tags_of (forward_hashtags f))).
Proof.
  destruct f as [n tg dc fe [fh |] [eh |] me]; reflexivity.
Qed.

Lemma get_excluded_hashtags_yaml (f : forwarder) :
  get_excluded_hashtags (yaml_of_forwarder f)
  = Ok (yaml_of_hashtags (tags_of (excluded_hashtags f))).
Proof.
  destruct f as [n tg dc fe [fh |] [eh |] me]; reflexivity.
Qed.

Lemma shared_names_yaml (f : forwarder) :
  shared_names (yaml_of_forwarder f) = Ok (set_of_list (forward_names f)).
Proof.
  destruct f as [n tg dc fe [[| t ts] |] [eh |] me]; try reflexivity;
    unfold shared_names, forward_names; simpl;
    change (VList (yaml_of_hashtag t :: map yaml_of_hashtag ts))
      with (yaml_of_hashtags (t :: ts));
    apply hashtag_names_yaml.
Qed.

Lemma subscript_tg_yaml (f : forwarder) :
  subscript (yaml_of_forwarder f) "tg_channel_id" = Ok (tg_channel_id f).
Proof. reflexivity. Qed.

Lemma validate_mention_yaml (f : forwarder) (ts : list hashtag) :
  validate_mention_everyone_and_override (yaml_of_forwarder f) (yaml_of_hashtags ts)
  = if mention_everyone f then
      if existsb overrides ts then
        Ok (false, "Invalid configuration: `override_mention_everyone` has no effect when `mention_everyone` set to True: forwarder with `tg_channel_id` "
                   ++ str (tg_channel_id f))
      else Ok (true, "")
    else Ok (true, "").
Proof.
  unfold validate_mention_everyone_and_override.
  rewrite subscript_tg_yaml. simpl.
  destruct (mention_everyone f); simpl; [| reflexivity].
  rewrite any_override_yaml. simpl. reflexivity.
Qed.

Lemma validate_overlap_yaml (f : forwarder) (fts ets : list hashtag) :
  validate_hashtags_overlap (yaml_of_forwarder f) (yaml_of_hashtags fts) (yaml_of_hashtags ets)
  = let common := intersection (set_of_list (names_of fts)) (set_of_list (names_of ets)) in
    if nonempty common then
      Ok (false, "Invalid configuration: overlapping hashtags " ++ repr_set common
                 ++ " found in forward_hashtags and excluded_hashtags for forwarder with `tg_channel_id` "
                 ++ str (tg_channel_id f))
    else Ok (true, "").
Proof.
  unfold validate_hashtags_overlap.
  rewrite subscript_tg_yaml, !hashtag_names_yaml. reflexivity.
Qed.

(** Every check returns on an entry of the documented shape whose channel
    ids are hashable. *)
Lemma validate_forwarder_returns (st : locals) (f : forwarder) :
  hashable_ids f -> exists st', validate_forwarder st (yaml_of_forwarder f) = Ok st'.
Proof.
  intros [[k1 H1] [k2 H2]].
  unfold validate_forwarder.
  rewrite get_forward_hashtags_yaml, get_excluded_hashtags_yaml.
  change (subscript (yaml_of_forwarder f) "forwarder_name") with (Ok (VStr (forwarder_name f))).
  change (subscript (yaml_of_forwarder f) "forward_everything")
    with (Ok (VBool (forward_everything f))).
  cbn [bind len yaml_of_hashtags].
  destruct (Z.of_nat (Datatypes.length (map yaml_of_hashtag (tags_of (forward_hashtags f)))) <=? 0);
    cbn [bind].
  all: unfold validate_forwarder_types, validate_forwarder_combinations.
  all: change (subscript (yaml_of_forwarder f) "tg_channel_id") with (Ok (tg_channel_id f)).
  all: change (subscript (yaml_of_forwarder f) "discord_channel_id")
         with (Ok (discord_channel_id f)).
  all: cbn [bind]; rewrite H1, H2; cbn [bind].
  all: change (VList (map yaml_of_hashtag (tags_of (forward_hashtags f))))
         with (yaml_of_hashtags (tags_of (forward_hashtags f))).
  all: rewrite validate_mention_yaml, validate_overlap_yaml.
  all: repeat match goal with
              | |- context [if ?b then _ else _] => destruct b; cbn [bind]
              end.
  all: eexists; reflexivity.
Qed.

Lemma validate_forwarders_returns (fs : list forwarder) :
  Forall hashable_ids fs ->
  forall st, exists st', validate_forwarders (map yaml_of_forwarder fs) st = Ok st'.
Proof.
  induction 1 as [| f fs Hf _ IH]; intros st; simpl.
  - exists st. reflexivity.
  - destruct (validate_forwarder_returns st f Hf) as [st1 H1].
    rewrite H1. simpl. apply IH.
Qed.

(** ** The shared-hashtags check *)

Lemma lookup_set_channel (k k' : hkey) (v : list str_set) (d : channel_hashtags) :
  lookup_channel k' (set_channel k v d)
  = if hkey_eqb k' k then Some v else lookup_channel k' d.
Proof.
  induction d as [| [k0 v0] d IH]; simpl.
  - destruct (hkey_eqb k' k); reflexivity.
  - destruct (hkey_eqb k k0) eqn:E; simpl.
    + apply hkey_eqb_eq in E. subst k0.
      destruct (hkey_eqb k' k); reflexivity.
    + destruct (hkey_eqb k' k0) eqn:E0.
      * apply hkey_eqb_eq in E0. subst k0.
        destruct (hkey_eqb k' k) eqn:E1; [| reflexivity].
        apply hkey_eqb_eq in E1. subst k'. rewrite hkey_eqb_refl in E. discriminate E.
      * exact IH.
Qed.

Lemma clash_skip (seen : seen_sets) (f : forwarder) (fs : list forwarder) :
  forward_names f = [] -> (clash seen (f :: fs) <-> clash seen fs).
Proof.
  intros Hnil. unfold clash. split.
  - intros [[j [fj [Hj Hhit]]] | [i [j [fi [fj [Hij [Hi [Hj [Hsame [x [Hxi Hxj]]]]]]]]]]].
    + destruct j as [| j]; simpl in Hj.
      * injection Hj as <-. destruct Hhit as [k [s [x [_ [_ [_ Hx]]]]]].
        rewrite Hnil in Hx. destruct Hx.
      * left. exists j, fj. split; assumption.
    + destruct i as [| i]; simpl in Hi.
      * injection Hi as <-. rewrite Hnil in Hxi. destruct Hxi.
      * destruct j as [| j]; [lia |]. simpl in Hj.
        right. exists i, j, fi, fj. repeat split; try assumption; try lia.
        exists x. split; assumption.
  - intros [[j [fj [Hj Hhit]]] | [i [j [fi [fj [Hij [Hi [Hj H]]]]]]]].
    + left. exists (S j), fj. split; assumption.
    + right. exists (S i), (S j), fi, fj.
      split; [lia | split; [exact Hi | split; [exact Hj | exact H]]].
Qed.

Lemma clash_record (seen : seen_sets) (f : forwarder) (fs : list forwarder) (k : hkey) :
  hash_key (tg_channel_id f) = Ok k ->
  ~ hits seen f ->
  (clash seen (f :: fs) <-> clash ((k, set_of_list (forward_names f)) :: seen) fs).
Proof.
  intros Hk Hnohit. unfold clash. split.
  - intros [[j [fj [Hj Hhit]]] | [i [j [fi [fj [Hij [Hi [Hj [Hsame [x [Hxi Hxj]]]]]]]]]]].
    + destruct j as [| j]; simpl in Hj.
      * injection Hj as <-. contradiction.
      * left. exists j, fj. split; [assumption |].
        destruct Hhit as [k' [s [x [H1 [H2 [H3 H4]]]]]].
        exists k', s, x. repeat split; try assumption. right. assumption.
    + destruct j as [| j]; [lia |]. simpl in Hj.
      destruct i as [| i]; simpl in Hi.
      * injection Hi as <-. left. exists j, fj. split; [assumption |].
        destruct Hsame as [k' [Hk1 Hk2]].
        rewrite Hk in Hk1. injection Hk1 as <-.
        exists k, (set_of_list (forward_names f)), x.
        repeat split; try assumption.
        -- left. reflexivity.
        -- apply set_of_list_In. assumption.
      * right. exists i, j, fi, fj. repeat split; try assumption; try lia.
        exists x. split; assumption.
  - intros [[j [fj [Hj [k' [s [x [H1 [H2 [H3 H4]]]]]]]]] | [i [j [fi [fj [Hij [Hi [Hj H]]]]]]]].
    + destruct H2 as [H2 | H2].
      * injection H2 as <- <-. right.
        exists 0%nat, (S j), f, fj. repeat split; try assumption; try lia.
        -- exists k. split; assumption.
        -- exists x. split; [apply set_of_list_In; assumption | assumption].
      * left. exists (S j), fj. split; [assumption |].
        exists k', s, x. repeat split; assumption.
    + right. exists (S i), (S j), fi, fj.
      split; [lia | split; [exact Hi | split; [exact Hj | exact H]]].
Qed.

Lemma records_extend (tch : channel_hashtags) (seen : seen_sets) (k : hkey)
    (old : list str_set) (names : str_set) :
  records tch seen ->
  (forall s, In s old <-> exists e, lookup_channel k tch = Some e /\ In s e) ->
  records (set_channel k (List.app old [names]) tch) ((k, names) :: seen).
Proof.
  intros Hrec Hold k' s. rewrite lookup_set_channel.
  destruct (hkey_eqb k' k) eqn:E.
  - apply hkey_eqb_eq in E. subst k'. split.
    + intros [e [He Hs]]. injection He as <-.
      apply in_app_or in Hs. destruct Hs as [Hs | [Hs | []]].
      * right. apply Hrec. apply Hold. exact Hs.
      * left. subst. reflexivity.
    + intros [H | H].
      * injection H as <-. eexists. split; [reflexivity |].
        apply in_or_app. right. left. reflexivity.
      * eexists. split; [reflexivity |].
        apply in_or_app. left. apply Hold. apply Hrec. exact H.
  - split.
    + intros H. right. apply Hrec. exact H.
    + intros [H | H].
      * injection H as -> _. rewrite hkey_eqb_refl in E. discriminate E.
      * apply Hrec. exact H.
Qed.

(** The loop returns, and it reports a conflict exactly when a forwarder
    still to visit clashes with a recorded set or with a later forwarder. *)
Lemma shared_loop_spec (fs : list forwarder) :
  Forall hashable_ids fs ->
  forall tch seen,
    records tch seen ->
    exists b msg,
      shared_loop (map yaml_of_forwarder fs) tch = Ok (b, msg)
      /\ (b = false <-> clash seen fs)
      /\ (b = true -> msg = "").
Proof.
  induction 1 as [| f fs Hf _ IH]; intros tch seen Hrec.
  - exists true, "". simpl. split; [reflexivity | split; [| reflexivity]].
    split; [discriminate |].
    intros [[j [fj [Hj _]]] | [i [j [fi [fj [_ [Hi _]]]]]]].
    + destruct j; discriminate Hj.
    + destruct i; discriminate Hi.
  - cbn [map shared_loop].
    rewrite subscript_tg_yaml, shared_names_yaml. cbn [bind].
    destruct (nonempty (set_of_list (forward_names f))) eqn:Hne.
    + destruct Hf as [[k Hk] _]. rewrite Hk. cbn [bind].
      destruct (lookup_channel k tch) as [existing |] eqn:Hlook.
      * destruct (find (fun e => nonempty (intersection e (set_of_list (forward_names f))))
                    existing) as [e |] eqn:Hfind.
        -- apply find_some in Hfind. destruct Hfind as [He Hx].
           apply nonempty_intersection in Hx. destruct Hx as [x [Hxe Hxf]].
           eexists false, _. split; [reflexivity | split; [| discriminate]].
           split; [| reflexivity]. intros _. left. exists 0%nat, f. split; [reflexivity |].
           exists k, e, x. repeat split; try assumption.
           ++ apply Hrec. exists existing. split; assumption.
           ++ apply set_of_list_In. assumption.
        -- assert (Hnohit : ~ hits seen f).
           { intros [k' [s [x [H1 [H2 [H3 H4]]]]]].
             rewrite Hk in H1. injection H1 as <-.
             apply Hrec in H2. destruct H2 as [e [He Hs]].
             rewrite Hlook in He. injection He as <-.
             pose proof (find_none _ _ Hfind s Hs) as Hn. cbv beta in Hn.
             apply nonempty_false in Hn.
             assert (Hin : In x (intersection s (set_of_list (forward_names f)))).
             { apply intersection_In. split; [assumption | apply set_of_list_In; assumption]. }
             rewrite Hn in Hin. destruct Hin. }
           destruct (IH (set_channel k (List.app existing [set_of_list (forward_names f)]) tch)
                        ((k, set_of_list (forward_names f)) :: seen))
             as [b [msg [Hrun [Hb Hmsg]]]].
           { apply records_extend; [assumption |].
             intros s. rewrite Hlook. split.
             - intros Hs. exists existing. split; [reflexivity | assumption].
             - intros [e [He Hs]]. injection He as <-. assumption. }
           exists b, msg. split; [exact Hrun | split; [| exact Hmsg]].
           rewrite Hb. symmetry. apply clash_record; assumption.
      * assert (Hnohit : ~ hits seen f).
        { intros [k' [s [x [H1 [H2 _]]]]].
          rewrite Hk in H1. injection H1 as <-.
          apply Hrec in H2. destruct H2 as [e [He _]].
          rewrite Hlook in He. discriminate He. }
        destruct (IH (set_channel k [set_of_list (forward_names f)] tch)
                     ((k, set_of_list (forward_names f)) :: seen))
          as [b [msg [Hrun [Hb Hmsg]]]].
        { apply (records_extend tch seen k [] (set_of_list (forward_names f)));
            [assumption |].
          intros s. rewrite Hlook. split; [intros [] | intros [e [He _]]; discriminate He]. }
        exists b, msg. split; [exact Hrun | split; [| exact Hmsg]].
        rewrite Hb. symmetry. apply clash_record; assumption.
    + apply nonempty_false in Hne.
      assert (Hnil : forward_names f = []).
      { destruct (forward_names f) as [| x l] eqn:E; [reflexivity |].
        assert (Hin : In x (set_of_list (x :: l))) by (apply set_of_list_In; left; reflexivity).
        rewrite Hne in Hin. destruct Hin. }
      destruct (IH tch seen Hrec) as [b [msg [Hrun [Hb Hmsg]]]].
      exists b, msg. split; [exact Hrun | split; [| exact Hmsg]].
      rewrite Hb. symmetry. apply clash_skip. exact Hnil.
Qed.

Lemma validate_shared_hashtags_spec (fs : list forwarder) :
  Forall hashable_ids fs ->
  exists b msg,
    validate_shared_hashtags (yaml_of_forwarders fs) = Ok (b, msg)
    /\ (b = false <-> shared_hashtags fs)
    /\ (b = true -> msg = "").
Proof.
  intros Hfs.
  destruct (shared_loop_spec fs Hfs [] []) as [b [msg [Hrun [Hb Hmsg]]]].
  - intros k s. simpl. split; [intros [e [He _]]; discriminate He | intros []].
  - exists b, msg. split; [exact Hrun | split; [| exact Hmsg]].
    rewrite Hb. unfold clash. split; [| tauto].
    intros [[j [fj [_ [k [s [x [_ [[] _]]]]]]]] | H]. exact H.
Qed.






(** ** Acceptance of valid forwarder lists *)


Lemma isinstance_int_hash (v : value) :
  isinstance_int v = true -> exists z, hash_key v = Ok (HNum z).
Proof.
  destruct v; simpl; intros H; try discriminate H; eexists; reflexivity.
Qed.

Lemma integer_ids_hashable (f : forwarder) : integer_ids f -> hashable_ids f.
Proof.
  intros [H1 H2]. apply isinstance_int_hash in H1, H2.
  destruct H1 as [z1 H1], H2 as [z2 H2]. split; eexists; eassumption.
Qed.








(** C7 at a two-forwarder document: the only error concerns forwarder [C],
    and the string reported for it starts with the name of forwarder [B],
    which has no error, before the name of [C]: the prefix is extended from
    one loop iteration to the next and never reset. *)
Theorem error_prefix_names_earlier_forwarders :
  validate_config (document [fwd_b] openai_off) = Ok (true, [])
  /\ validate_config (document [fwd_b; fwd_c] openai_off)
     = Ok (false,
           ["Invalid forwarder configuration: forwarder name: B forwarder name: C `forward_hashtags` must be set when `forward_everything` is False"]).
Proof.
  split; vm_compute; reflexivity.
Qed.

(** The prefix after the loop lists every forwarder visited. *)
Lemma error_prefix_accumulates (fs : list forwarder) :
  forall st st',
    validate_forwarders (map yaml_of_forwarder fs) st = Ok st' ->
    forwarder_error_string st'
    = forwarder_error_string st
      ++ String.concat "" (map (fun f => " forwarder name: " ++ forwarder_name f) fs).
Proof.
  assert (Happ_nil : forall s : string, s ++ "" = s).
  { induction s as [| c s IH]; simpl; [reflexivity | rewrite IH; reflexivity]. }
  assert (Happ_assoc : forall a b c : string, (a ++ b) ++ c = a ++ b ++ c).
  { induction a as [| x a IH]; simpl; intros; [reflexivity | rewrite IH; reflexivity]. }
  assert (Hconcat : forall (x : string) l, String.concat "" (x :: l) = x ++ String.concat "" l).
  { intros x [| y l]; simpl; [rewrite Happ_nil; reflexivity | reflexivity]. }
  induction fs as [| f fs IH]; intros st st' H.
  - simpl in H. injection H as <-. simpl. rewrite Happ_nil. reflexivity.
  - cbn [map validate_forwarders] in H. bind_inv H.
    rewrite (IH _ _ H). cbn [map]. rewrite Hconcat, <- Happ_assoc. f_equal.
    unfold validate_forwarder in Hstep.
    change (subscript (yaml_of_forwarder f) "forwarder_name")
      with (Ok (VStr (forwarder_name f))) in Hstep.
    cbn [bind str] in Hstep.
    repeat match type of Hstep with
           | bind ?m _ = Ok _ =>
               destruct m eqn:?; cbn [bind] in Hstep; [| discriminate Hstep]
           | match ?p with pair _ _ => _ end = Ok _ => destruct p
           end.
    injection Hstep as <-. reflexivity.
Qed.

End ConfigProofs.

(* ================================================================== *)
(** * Properties of the message history *)
(* ================================================================== *)

Module HistoryProofs.

Import Py History HistoryNotions.

(** C1 at [recorded]: before a restart the id recorded for [("f1", 100)] is
    found; after a restart the reloaded mapping has the key ["100"] in the
    place of [100], and the lookup of [100] answers [None].  The entry is
    only found under the string key. *)
Theorem reload_loses_integer_ids :
  answer (get_discord_message_id "f1" (KInt 100) recorded) = Ok (Some (Id 200))
  /\ messages_history recorded = Some (JsonFile 40 [("f1", [("100", JInt 200)])])
  /\ heap recorded = [[("f1", [(KInt 100, Id 200)])]]
  /\ heap (after (load_mapping_data (restart recorded))) = [[("f1", [(KStr "100", Id 200)])]]
  /\ answer (get_discord_message_id "f1" (KInt 100) (restart recorded)) = Ok None
  /\ answer (get_discord_message_id "f1" (KStr "100") (restart recorded)) = Ok (Some (Id 200)).
Proof.
  repeat split; vm_compute; reflexivity.
Qed.

(** C2 at [recorded]: [save_mapping_data("f1", 100, 999)] whose [open]
    fails logs the error and leaves the file as it was, but the cache
    already answers 999: the dictionary that is updated before the write is
    the cached object itself.  When the write fails after the [open], the
    file is left without a document as well. *)
Theorem failed_write_changes_cache :
  let s := after (save_mapping_data OpenFails "f1" 100 999 recorded) in
  let s' := after (save_mapping_data (WriteFails 0) "f1" 100 999 recorded) in
  answer (get_discord_message_id "f1" (KInt 100) recorded) = Ok (Some (Id 200))
  /\ log s = ["An error occurred while saving mapping data: %s"]
  /\ messages_history s = messages_history recorded
  /\ answer (get_discord_message_id "f1" (KInt 100) s) = Ok (Some (Id 999))
  /\ answer (get_discord_message_id "f1" (KStr "100") (restart s)) = Ok (Some (Id 200))
  /\ messages_history s' = Some (RawFile 0)
  /\ answer (get_discord_message_id "f1" (KInt 100) s') = Ok (Some (Id 999)).
Proof.
  repeat split; vm_compute; reflexivity.
Qed.

(** C3 at [recorded]: [save_missed_message("f1", 100, 55, "boom")] takes
    the cached primary mapping as its dictionary, so the primary cache then
    maps [("f1", 100)] to the tuple instead of 200, the ledger file
    receives the whole primary mapping, and the next successful
    [save_mapping_data] writes the tuple into the primary history file. *)
Theorem missed_message_alters_primary_mapping :
  let s := after (save_missed_message (Written 50) "f1" 100 55 "boom" recorded) in
  let s' := after (save_missed_message (Written 50) "f2" 7 55 "boom" recorded) in
  answer (get_discord_message_id "f1" (KInt 100) recorded) = Ok (Some (Id 200))
  /\ answer (get_discord_message_id "f1" (KInt 100) s) = Ok (Some (Tuple 55 "boom"))
  /\ messages_history s = messages_history recorded
  /\ messages_history (after (save_mapping_data (Written 60) "f1" 101 201 s))
     = Some (JsonFile 60 [("f1", [("100", JArr 55 "boom"); ("101", JInt 201)])])
  /\ answer (get_discord_message_id "f2" (KInt 7) recorded) = Ok None
  /\ answer (get_discord_message_id "f2" (KInt 7) s') = Ok (Some (Tuple 55 "boom"))
  /\ missed_messages_history s'
     = Some (JsonFile 50 [("f1", [("100", JInt 200)]); ("f2", [("7", JArr 55 "boom")])]).
Proof.
  repeat split; vm_compute; reflexivity.
Qed.

(** C4 at [oversized_store]: the rotation empties both files, and the
    lookup of the recorded entry still answers 200 from the cache, which
    the rotation does not touch; the next record writes the whole cached
    mapping back; after a restart the lookup raises, the empty file being
    no JSON text.  With no history file the ledger is never rotated. *)
Theorem rotation_keeps_cached_entries :
  let s := clean_history_data 2 oversized_store in
  let ledger_only := mk_state [] None None (Some (RawFile 3145728)) [] in
  messages_history s = Some (RawFile 0)
  /\ missed_messages_history s = Some (RawFile 0)
  /\ answer (get_discord_message_id "f1" (KInt 100) s) = Ok (Some (Id 200))
  /\ messages_history (after (save_mapping_data (Written 80) "f1" 101 201 s))
     = Some (JsonFile 80 [("f1", [("100", JInt 200); ("101", JInt 201)])])
  /\ answer (get_discord_message_id "f1" (KInt 100) (restart s)) = Raise JSONDecodeError
  /\ missed_messages_history (clean_history_data 2 ledger_only) = Some (RawFile 3145728)
  /\ log (clean_history_data 2 ledger_only) = [rotation_error].
Proof.
  repeat split; vm_compute; reflexivity.
Qed.

(** ** The last message of each forwarder *)

Lemma key_eqb_refl (k : key) : key_eqb k k = true.
Proof. destruct k; simpl; [apply Z.eqb_refl | apply String.eqb_refl]. Qed.

Lemma od_get_present (k : key) (data : forwarder_data) :
  In k (map fst data) -> exists e, od_get key_eqb k data = Some e.
Proof.
  induction data as [| [k' e'] data IH]; simpl; intros H; [destruct H |].
  destruct (key_eqb k k') eqn:E.
  - exists e'. reflexivity.
  - destruct H as [H | H]; [subst; rewrite key_eqb_refl in E; discriminate E | auto].
Qed.

Lemma max_from_spec (keys : list key) :
  forall best bz,
    int best = Ok bz ->
    (forall k, In k keys -> exists z, int k = Ok z) ->
    exists k z,
      max_from best bz keys = Ok k
      /\ int k = Ok z
      /\ (k = best \/ In k keys)
      /\ bz <= z
      /\ forall k' z', In k' keys -> int k' = Ok z' -> z' <= z.
Proof.
  induction keys as [| k keys IH]; intros best bz Hbest Hnum.
  - exists best, bz. simpl. repeat split; auto; try lia; intros k' z' [].
  - destruct (Hnum k (or_introl eq_refl)) as [z Hz].
    simpl. rewrite Hz.
    assert (Hnum' : forall k0, In k0 keys -> exists z0, int k0 = Ok z0).
    { intros k0 H0. apply Hnum. right. exact H0. }
    destruct (z >? bz) eqn:E.
    + destruct (IH k z Hz Hnum') as [m [mz [Hrun [Hm [Hin [Hle Hmax]]]]]].
      exists m, mz. split; [exact Hrun | split; [exact Hm | split]].
      * right. destruct Hin as [-> | Hin]; [left; reflexivity | right; exact Hin].
      * split; [apply Z.gtb_lt in E; lia |].
        intros k' z' [-> | Hk'] Hz'.
        -- rewrite Hz in Hz'. injection Hz' as <-. exact Hle.
        -- exact (Hmax k' z' Hk' Hz').
    + destruct (IH best bz Hbest Hnum') as [m [mz [Hrun [Hm [Hin [Hle Hmax]]]]]].
      exists m, mz. split; [exact Hrun | split; [exact Hm | split]].
      * destruct Hin as [-> | Hin]; [left; reflexivity | right; right; exact Hin].
      * split; [exact Hle |].
        intros k' z' [-> | Hk'] Hz'.
        -- rewrite Hz in Hz'. injection Hz' as <-.
           assert (~ z > bz) by (rewrite Z.gtb_ltb in E; apply Z.ltb_ge in E; lia). lia.
        -- exact (Hmax k' z' Hk' Hz').
Qed.

Lemma max_key_spec (k0 : key) (keys : list key) :
  (forall k, In k (k0 :: keys) -> exists z, int k = Ok z) ->
  exists k z,
    max_key (k0 :: keys) = Ok k
    /\ int k = Ok z
    /\ In k (k0 :: keys)
    /\ forall k' z', In k' (k0 :: keys) -> int k' = Ok z' -> z' <= z.
Proof.
  intros Hnum.
  destruct (Hnum k0 (or_introl eq_refl)) as [z0 Hz0].
  destruct (max_from_spec keys k0 z0 Hz0) as [m [mz [Hrun [Hm [Hin [Hle Hmax]]]]]].
  { intros k Hk. apply Hnum. right. exact Hk. }
  exists m, mz. simpl. rewrite Hz0.
  split; [exact Hrun | split; [exact Hm | split]].
  - destruct Hin as [-> | Hin]; [left; reflexivity | right; exact Hin].
  - intros k' z' [<- | Hk'] Hz'.
    + rewrite Hz0 in Hz'. injection Hz' as <-. exact Hle.
    + exact (Hmax k' z' Hk' Hz').
Qed.

Lemma last_messages_spec (items : mapping) :
  Forall (fun fd => numeric (snd fd)) items ->
  exists res,
    last_messages items = Ok res
    /\ Forall2 (fun m fd => forwarder_name m = fst fd /\ is_last (snd fd) m)
               res (filter (fun fd => nonempty (snd fd)) items).
Proof.
  induction 1 as [| [name data] items Hnum _ IH].
  - exists []. split; [reflexivity | constructor].
  - destruct IH as [rest [Hrest Hall]].
    cbn [last_messages filter snd].
    destruct data as [| [k0 e0] data].
    + cbn [nonempty]. exists rest. split; assumption.
    + cbn [nonempty].
      destruct (max_key_spec k0 (map fst data)) as [k [z [Hrun [Hk [Hin Hmax]]]]].
      { exact Hnum. }
      change (map fst ((k0, e0) :: data)) with (k0 :: map fst data).
      rewrite Hrun. cbn [bind].
      destruct (od_get_present k ((k0, e0) :: data) Hin) as [e He].
      rewrite He, Hk, Hrest. cbn [bind].
      eexists. split; [reflexivity |].
      constructor; [| exact Hall].
      split; [reflexivity |].
      exists k. cbn [telegram_id discord_id snd]. repeat split; assumption.
Qed.

(** C8: on a history whose keys all read as integers,
    [get_last_messages_for_all_forwarders] returns one record per forwarder
    with a non-empty dictionary, in the order of the mapping and with no
    record for the others; the record of a forwarder carries the largest
    [int(key)] of its dictionary and the value stored under a key with
    that integer.  After the source ids 5, 42 and 7 have been recorded for
    [f1] the record is the one of 42, also after a restart, when the keys
    are the strings ["5"], ["42"] and ["7"]. *)
Theorem last_message_is_numeric_maximum :
  (forall (s s1 : state) (mapping_data : nat),
      load_mapping_data s = (Ok mapping_data, s1) ->
      Forall (fun fd => numeric (snd fd)) (deref mapping_data s1) ->
      exists res,
        get_last_messages_for_all_forwarders s = (Ok res, s1)
        /\ Forall2 (fun m fd => forwarder_name m = fst fd /\ is_last (snd fd) m)
                   res (filter (fun fd => nonempty (snd fd)) (deref mapping_data s1)))
  /\ answer (get_last_messages_for_all_forwarders three_records)
     = Ok [mk_last_message "f1" 42 (Id 742)]
  /\ heap (after (load_mapping_data (restart three_records)))
     = [[("f1", [(KStr "5", Id 705); (KStr "42", Id 742); (KStr "7", Id 703)])]]
  /\ answer (get_last_messages_for_all_forwarders (restart three_records))
     = Ok [mk_last_message "f1" 42 (Id 742)].
Proof.
  split; [| repeat split; vm_compute; reflexivity].
  intros s s1 a Hload Hnum.
  destruct (last_messages_spec (deref a s1) Hnum) as [res [Hres Hall]].
  exists res. unfold get_last_messages_for_all_forwarders.
  rewrite Hload, Hres. split; [reflexivity | exact Hall].
Qed.

Lemma last_message_is_numeric_maximum_witness :
  exists res,
    get_last_messages_for_all_forwarders
      (mk_state [[("f0", []); ("f1", [(KStr "9", Id 1); (KInt 10, Id 2)])]] (Some 0%nat)
                None None [])
    = (Ok res,
       mk_state [[("f0", []); ("f1", [(KStr "9", Id 1); (KInt 10, Id 2)])]] (Some 0%nat)
                None None [])
    /\ Forall2 (fun m fd => forwarder_name m = fst fd /\ is_last (snd fd) m)
               res [("f1", [(KStr "9", Id 1); (KInt 10, Id 2)])].
Proof.
  apply (proj1 last_message_is_numeric_maximum
           (mk_state [[("f0", []); ("f1", [(KStr "9", Id 1); (KInt 10, Id 2)])]] (Some 0%nat)
                     None None [])
           _ 0%nat eq_refl).
  apply Forall_cons; [intros k [] |].
  apply Forall_cons; [| apply Forall_nil].
  intros k [<- | [<- | []]]; eexists; vm_compute; reflexivity.
Defined.

(** ** Keys written by [json.dumps] read back as the same integer *)

Lemma chars_of_no_space (d : Decimal.uint) :
  Forall (fun c => is_space c = false) (chars_of d).
Proof.
  unfold chars_of. induction d; simpl; constructor; try reflexivity; assumption.
Qed.

Lemma chars_of_digits (d : Decimal.uint) :
  digits true (chars_of d) = Some (chars_of d)
  /\ (d <> Decimal.Nil -> digits false (chars_of d) = Some (chars_of d)).
Proof.
  unfold chars_of. induction d as [| d [IH _] | d [IH _] | d [IH _] | d [IH _] | d [IH _]
                                 | d [IH _] | d [IH _] | d [IH _] | d [IH _] | d [IH _]].
  1: split; [reflexivity | intros H; contradiction].
  all: split; [| intros _]; cbn [NilEmpty.string_of_uint list_ascii_of_string digits];
    change (is_digit _) with true; cbv iota; rewrite IH; reflexivity.
Qed.

Lemma lstrip_no_space (l : list ascii) :
  Forall (fun c => is_space c = false) l -> lstrip l = l.
Proof.
  intros H. destruct H as [| c l Hc _]; simpl; [reflexivity | rewrite Hc; reflexivity].
Qed.

Lemma strip_no_space (l : list ascii) :
  Forall (fun c => is_space c = false) l -> strip l = l.
Proof.
  intros H. unfold strip.
  rewrite (lstrip_no_space l H).
  rewrite (lstrip_no_space (rev l)); [apply rev_involutive |].
  apply Forall_rev. exact H.
Qed.

Lemma unsigned_chars_of (d : Decimal.uint) :
  d <> Decimal.Nil -> unsigned (chars_of d) = Some (Z.of_uint d).
Proof.
  intros Hd. unfold unsigned.
  rewrite (proj2 (chars_of_digits d) Hd).
  unfold chars_of. rewrite string_of_list_ascii_of_string, NilEmpty.usu. reflexivity.
Qed.

Lemma int_of_string_uint (d : Decimal.uint) :
  d <> Decimal.Nil ->
  int_of_string (NilEmpty.string_of_uint d) = Some (Z.of_uint d)
  /\ int_of_string (String "-" (NilEmpty.string_of_uint d)) = Some (- Z.of_uint d).
Proof.
  intros Hd. unfold int_of_string. split.
  - fold (chars_of d). rewrite (strip_no_space _ (chars_of_no_space d)).
    pose proof (unsigned_chars_of d Hd) as Hu.
    unfold chars_of in *. destruct d; try contradiction;
      cbn [NilEmpty.string_of_uint list_ascii_of_string] in *;
      match goal with
      | |- context [Ascii.eqb ?c "-"] => change (Ascii.eqb c "-") with false
      end;
      match goal with
      | |- context [Ascii.eqb ?c "+"] => change (Ascii.eqb c "+") with false
      end;
      cbv iota; exact Hu.
  - cbn [list_ascii_of_string]. fold (chars_of d).
    rewrite strip_no_space.
    + change (Ascii.eqb "-" "-") with true. cbv iota.
      rewrite (unsigned_chars_of d Hd). reflexivity.
    + constructor; [reflexivity | apply chars_of_no_space].
Qed.

Lemma string_of_uint_nonnil (d : Decimal.uint) :
  d <> Decimal.Nil -> NilZero.string_of_uint d = NilEmpty.string_of_uint d.
Proof.
  destruct d; intros H; [contradiction | ..]; reflexivity.
Qed.

(** [int(str(z)) == z]. *)
Lemma int_of_string_str_of_int (z : Z) : int_of_string (str_of_int z) = Some z.
Proof.
  unfold str_of_int. destruct z as [| p | p]; [reflexivity | |].
  all: cbn [Z.to_int NilZero.string_of_int].
  all: pose proof (DecimalPos.Unsigned.to_uint_nonnil p) as Hnil.
  all: rewrite (string_of_uint_nonnil _ Hnil).
  all: destruct (int_of_string_uint (Pos.to_uint p) Hnil) as [Hpos Hneg].
  all: rewrite ?Hpos, ?Hneg.
  all: unfold Z.of_uint; rewrite DecimalPos.Unsigned.of_to; reflexivity.
Qed.

Lemma int_dumps_key (k : key) (z : Z) : int k = Ok z -> int (KStr (dumps_key k)) = Ok z.
Proof.
  destruct k as [z' | s]; simpl; intros H; [| exact H].
  injection H as <-. rewrite int_of_string_str_of_int. reflexivity.
Qed.

(** ** Dictionaries: what a lookup finds and what an assignment keeps *)

Section OrderedDictFacts.

Context {K V : Type} (eqb : K -> K -> bool).
Hypothesis eqb_refl : forall k, eqb k k = true.

Lemma od_get_set_same (k : K) (v : V) (d : list (K * V)) :
  od_get eqb k (od_set eqb k v d) = Some v.
Proof.
  induction d as [| [k' v'] d IH]; simpl.
  - rewrite eqb_refl. reflexivity.
  - destruct (eqb k k') eqn:E; simpl; rewrite E; [reflexivity | exact IH].
Qed.

Lemma od_get_value_In (k : K) (v : V) (d : list (K * V)) :
  od_get eqb k d = Some v -> In v (map snd d).
Proof.
  induction d as [| [k' v'] d IH]; simpl; intros H; [discriminate H |].
  destruct (eqb k k'); [injection H as ->; left; reflexivity | right; auto].
Qed.

Lemma od_set_keys (k k0 : K) (v : V) (d : list (K * V)) :
  In k0 (map fst (od_set eqb k v d)) -> k0 = k \/ In k0 (map fst d).
Proof.
  induction d as [| [k' v'] d IH]; simpl.
  - intros [H | []]. left. congruence.
  - destruct (eqb k k'); simpl; intros [H | H]; auto.
    destruct (IH H); auto.
Qed.

Lemma od_set_values (k : K) (v v0 : V) (d : list (K * V)) :
  In v0 (map snd (od_set eqb k v d)) -> v0 = v \/ In v0 (map snd d).
Proof.
  induction d as [| [k' v'] d IH]; simpl.
  - intros [H | []]. left. congruence.
  - destruct (eqb k k'); simpl; intros [H | H]; auto.
    destruct (IH H); auto.
Qed.

Lemma od_of_pairs_keys (l : list (K * V)) (k0 : K) :
  In k0 (map fst (od_of_pairs eqb l)) -> In k0 (map fst l).
Proof.
  unfold od_of_pairs.
  assert (H : forall d, In k0 (map fst (fold_left (fun d kv => od_set eqb (fst kv) (snd kv) d) l d))
                        -> In k0 (map fst d) \/ In k0 (map fst l)).
  { induction l as [| [k v] l IH]; simpl; intros d Hin; [left; exact Hin |].
    destruct (IH _ Hin) as [H | H]; [| right; right; exact H].
    apply od_set_keys in H. simpl in H. destruct H as [-> | H]; auto. }
  intros Hin. destruct (H [] Hin) as [[] | Hl]. exact Hl.
Qed.

Lemma od_of_pairs_values (l : list (K * V)) (v0 : V) :
  In v0 (map snd (od_of_pairs eqb l)) -> In v0 (map snd l).
Proof.
  unfold od_of_pairs.
  assert (H : forall d, In v0 (map snd (fold_left (fun d kv => od_set eqb (fst kv) (snd kv) d) l d))
                        -> In v0 (map snd d) \/ In v0 (map snd l)).
  { induction l as [| [k v] l IH]; simpl; intros d Hin; [left; exact Hin |].
    destruct (IH _ Hin) as [H | H]; [| right; right; exact H].
    apply od_set_values in H. simpl in H. destruct H as [-> | H]; auto. }
  intros Hin. destruct (H [] Hin) as [[] | Hl]. exact Hl.
Qed.

End OrderedDictFacts.

Lemma od_get_key_In (k : key) (e : entry) (d : forwarder_data) :
  od_get key_eqb k d = Some e -> In k (map fst d).
Proof.
  induction d as [| [k' e'] d IH]; simpl; intros H; [discriminate H |].
  destruct (key_eqb k k') eqn:E; [| right; auto].
  left. destruct k, k'; simpl in E; try discriminate E.
  - apply Z.eqb_eq in E. congruence.
  - apply String.eqb_eq in E. congruence.
Qed.

(** ** The heap *)

Lemma update_nth_length {A} (n : nat) (f : A -> A) (l : list A) :
  List.length (update_nth n f l) = List.length l.
Proof.
  revert n. induction l as [| x l IH]; intros [| n]; simpl; auto.
Qed.

Lemma nth_update_nth {A} (n : nat) (f : A -> A) (l : list A) (d : A) :
  (n < List.length l)%nat -> nth n (update_nth n f l) d = f (nth n l d).
Proof.
  revert n. induction l as [| x l IH]; intros [| n]; simpl; intros H; try lia; auto.
  apply IH. lia.
Qed.

Lemma update_nth_Forall {A} (P : A -> Prop) (n : nat) (f : A -> A) (l : list A) :
  (forall x, P x -> P (f x)) -> Forall P l -> Forall P (update_nth n f l).
Proof.
  intros Hf. revert n. induction l as [| x l IH]; intros [| n] H; simpl; auto;
    inversion H; subst; constructor; auto.
Qed.

Lemma numeric_loads (doc : jobject) : numeric_doc doc -> numeric_mapping (json_loads doc).
Proof.
  intros Hdoc. unfold numeric_mapping, json_loads.
  apply Forall_forall. intros data Hdata.
  apply od_of_pairs_values in Hdata. rewrite map_map in Hdata. simpl in Hdata.
  apply in_map_iff in Hdata. destruct Hdata as [[name members] [<- Hin]].
  intros k Hk. simpl in Hk.
  apply od_of_pairs_keys in Hk. rewrite map_map in Hk. simpl in Hk.
  apply in_map_iff in Hk. destruct Hk as [[k' j] [<- Hk']].
  apply (Hdoc name members k' Hin). apply in_map_iff. exists (k', j). split; auto.
Qed.

Lemma numeric_dumps (m : mapping) : numeric_mapping m -> numeric_doc (json_dumps m).
Proof.
  intros Hm name members k Hin Hk. unfold json_dumps in Hin.
  apply in_map_iff in Hin. destruct Hin as [[name' data] [E Hdata]].
  injection E as <- <-.
  rewrite map_map in Hk. simpl in Hk.
  apply in_map_iff in Hk. destruct Hk as [[k' e] [<- Hk']].
  unfold numeric_mapping in Hm. rewrite Forall_forall in Hm.
  assert (Hnum : numeric data).
  { apply Hm. apply in_map_iff. exists (name', data). split; auto. }
  destruct (Hnum k') as [z Hz].
  { apply in_map_iff. exists (k', e). split; auto. }
  exists z. apply int_dumps_key. exact Hz.
Qed.

Lemma numeric_assign (name : string) (z : Z) (e : entry) (m : mapping) :
  numeric_mapping m -> numeric_mapping (assign name (KInt z) e m).
Proof.
  intros Hm. unfold numeric_mapping, assign in *. rewrite Forall_forall in *.
  intros data Hdata. apply od_set_values in Hdata. destruct Hdata as [-> | Hdata]; [| auto].
  intros k Hk. apply od_set_keys in Hk. destruct Hk as [-> | Hk].
  - exists z. reflexivity.
  - destruct (od_get String.eqb name m) as [d |] eqn:E; [| destruct Hk].
    apply od_get_value_In in E. exact (Hm d E k Hk).
Qed.

Lemma consistent_fresh : consistent fresh.
Proof. split; simpl; auto. Qed.

Lemma consistent_restart (s : state) : consistent s -> consistent (restart s).
Proof. intros [H1 H2 H3]. split; simpl; auto. Qed.

(** [load_mapping_data] keeps the state consistent and, when it returns,
    returns the reference that the cache holds. *)
Lemma load_mapping_data_consistent (s : state) :
  consistent s ->
  consistent (after (load_mapping_data s))
  /\ forall a s1, load_mapping_data s = (Ok a, s1) ->
                  mapping_data_cache s1 = Some a /\ (a < List.length (heap s1))%nat
                  /\ messages_history s1 = messages_history s
                  /\ missed_messages_history s1 = missed_messages_history s
                  /\ log s1 = log s.
Proof.
  intros [H1 H2 H3]. unfold load_mapping_data, after.
  destruct (mapping_data_cache s) as [a |] eqn:Ec.
  - split; [split; simpl; try rewrite Ec; auto |].
    intros a' s1 E. injection E as <- <-. auto.
  - destruct (messages_history s) as [[n doc | n] |] eqn:Ef; simpl.
    + split.
      * split; simpl; [rewrite length_app; simpl; lia | | rewrite Ef; exact H3].
        apply Forall_app. split; [exact H2 |]. constructor; [| constructor].
        apply numeric_loads. exact H3.
      * intros a s1 E. injection E as <- <-. simpl. rewrite length_app. simpl.
        repeat split; auto; lia.
    + split; [split; simpl; try rewrite Ec; try rewrite Ef; auto |].
      intros a s1 E. discriminate E.
    + split.
      * split; simpl; [rewrite length_app; simpl; lia | | rewrite Ef; exact I].
        apply Forall_app. split; [exact H2 |]. constructor; [| constructor]. constructor.
      * intros a s1 E. injection E as <- <-. simpl. rewrite length_app. simpl.
        repeat split; auto; lia.
Qed.

Lemma load_cached (s : state) (a : nat) :
  mapping_data_cache s = Some a -> load_mapping_data s = (Ok a, s).
Proof. intros H. unfold load_mapping_data. rewrite H. reflexivity. Qed.

Lemma deref_numeric (s : state) (a : nat) :
  consistent s -> Forall (fun fd => numeric (snd fd)) (deref a s).
Proof.
  intros [_ H _]. unfold deref.
  assert (Hm : numeric_mapping (nth a (heap s) [])).
  { destruct (Nat.lt_ge_cases a (List.length (heap s))) as [Hlt | Hge].
    - rewrite Forall_forall in H. apply H. apply nth_In. exact Hlt.
    - rewrite nth_overflow by exact Hge. constructor. }
  unfold numeric_mapping in Hm. rewrite Forall_map in Hm. exact Hm.
Qed.

(** In every consistent state in which the mapping loads, all keys of the
    loaded mapping read as integers. *)
Lemma loaded_mapping_numeric (s s1 : state) (a : nat) :
  consistent s -> load_mapping_data s = (Ok a, s1) ->
  Forall (fun fd => numeric (snd fd)) (deref a s1).
Proof.
  intros Hs Hload. apply deref_numeric.
  pose proof (proj1 (load_mapping_data_consistent s Hs)) as H.
  unfold after in H. rewrite Hload in H. exact H.
Qed.

Lemma get_assign (name : string) (k : key) (e : entry) (m : mapping) :
  match od_get String.eqb name (assign name k e m) with
  | Some data => od_get key_eqb k data
  | None => None
  end = Some e.
Proof.
  unfold assign. rewrite (od_get_set_same String.eqb String.eqb_refl).
  apply (od_get_set_same key_eqb key_eqb_refl).
Qed.

(** What [save_mapping_data] leaves, whatever the outcome of the write: the
    cached object has received the assignment. *)
Lemma save_mapping_data_spec (o : write_outcome) (name : string) (k v : Z) (s s1 : state)
    (a : nat) :
  consistent s ->
  load_mapping_data s = (Ok a, s1) ->
  let s' := after (save_mapping_data o name k v s) in
  answer (save_mapping_data o name k v s) = Ok tt
  /\ mapping_data_cache s' = Some a
  /\ deref a s' = assign name (KInt k) (Id v) (deref a s1)
  /\ consistent s'
  /\ missed_messages_history s' = missed_messages_history s
  /\ messages_history s' = fst (write_text o (json_dumps (deref a s')) (messages_history s)).
Proof.
  intros Hs Hload.
  destruct (load_mapping_data_consistent s Hs) as [Hs1 Hret].
  destruct (Hret a s1 Hload) as [Hc [Hlt [Hf [Hm Hl]]]].
  unfold after in Hs1. rewrite Hload in Hs1. cbn [snd] in Hs1.
  assert (Hderef : deref a (mutate a (assign name (KInt k) (Id v)) s1)
                   = assign name (KInt k) (Id v) (deref a s1)).
  { unfold deref, mutate. cbn [heap]. apply nth_update_nth. exact Hlt. }
  assert (Hnum : Forall numeric_mapping (heap (mutate a (assign name (KInt k) (Id v)) s1))).
  { unfold mutate. cbn [heap]. apply update_nth_Forall; [| apply Hs1].
    intros m. apply numeric_assign. }
  assert (Hdoc : numeric_doc (json_dumps (deref a (mutate a (assign name (KInt k) (Id v)) s1)))).
  { apply numeric_dumps. unfold numeric_mapping. rewrite Forall_map.
    unfold deref.
    destruct (Nat.lt_ge_cases a (List.length (heap (mutate a (assign name (KInt k) (Id v)) s1))))
      as [H | H].
    - rewrite Forall_forall in Hnum.
      pose proof (Hnum _ (nth_In _ [] H)) as Hn. unfold numeric_mapping in Hn.
      rewrite Forall_map in Hn. exact Hn.
    - rewrite nth_overflow by exact H. constructor. }
  unfold save_mapping_data, after, answer. rewrite Hload.
  destruct o as [n | | n]; cbn [write_text fst snd].
  all: unfold deref in *; cbn [heap mapping_data_cache messages_history
                                 missed_messages_history mutate] in *.
  all: split; [reflexivity |].
  all: split; [try reflexivity; exact Hc |].
  all: split; [exact Hderef |].
  all: split; [| split; [exact Hm |]].
  all: try (rewrite Hf; reflexivity); try reflexivity.
  all: split; cbn [heap mapping_data_cache messages_history]; try exact I.
  all: try (rewrite update_nth_length; try rewrite Hc; exact Hlt).
  all: try exact Hnum.
  - exact Hdoc.
  - apply Hs1.
Qed.

(** A recorded id is found in the same process, also when the write failed. *)
Lemma recorded_id_found_whatever_the_write (o : write_outcome) (name : string) (k v : Z)
    (s s1 : state) (a : nat) :
  consistent s ->
  load_mapping_data s = (Ok a, s1) ->
  answer (get_discord_message_id name (KInt k) (after (save_mapping_data o name k v s)))
  = Ok (Some (Id v)).
Proof.
  intros Hs Hload.
  destruct (save_mapping_data_spec o name k v s s1 a Hs Hload) as [_ [Hc [Hd _]]].
  unfold get_discord_message_id, answer.
  rewrite (load_cached _ a Hc). rewrite Hd.
  pose proof (get_assign name (KInt k) (Id v) (deref a s1)) as H.
  destruct (od_get String.eqb name (assign name (KInt k) (Id v) (deref a s1)));
    [cbn [fst]; rewrite H; reflexivity | discriminate H].
Qed.

(** After a successful write the history file holds the cached mapping. *)
Lemma written_file_mirrors_cache (n : Z) (name : string) (k v : Z) (s s1 : state) (a : nat) :
  consistent s ->
  load_mapping_data s = (Ok a, s1) ->
  let s' := after (save_mapping_data (Written n) name k v s) in
  messages_history s' = Some (JsonFile n (json_dumps (deref a s')))
  /\ mapping_data_cache s' = Some a.
Proof.
  intros Hs Hload s'.
  destruct (save_mapping_data_spec (Written n) name k v s s1 a Hs Hload)
    as [_ [Hc [_ [_ [_ Hf]]]]].
  split; [exact Hf | exact Hc].
Qed.

(** The primary lookup answers the ledger tuple after every
    [save_missed_message], whatever the outcome of its write. *)
Lemma missed_message_found_in_primary (o : write_outcome) (name : string) (k c : Z)
    (exc : string) (s s1 : state) (a : nat) :
  consistent s ->
  load_mapping_data s = (Ok a, s1) ->
  answer (get_discord_message_id name (KInt k)
            (after (save_missed_message o name k c exc s)))
  = Ok (Some (Tuple c exc)).
Proof.
  intros Hs Hload.
  destruct (load_mapping_data_consistent s Hs) as [_ Hret].
  destruct (Hret a s1 Hload) as [Hc [Hlt _]].
  unfold save_missed_message, after. rewrite Hload.
  assert (Hget : forall s',
             mapping_data_cache s' = Some a ->
             heap s' = update_nth a (assign name (KInt k) (Tuple c exc)) (heap s1) ->
             answer (get_discord_message_id name (KInt k) s') = Ok (Some (Tuple c exc))).
  { intros s' Hc' Hh. unfold get_discord_message_id, answer.
    rewrite (load_cached _ a Hc'). unfold deref. rewrite Hh.
    rewrite (nth_update_nth a _ (heap s1) [] Hlt).
    pose proof (get_assign name (KInt k) (Tuple c exc) (nth a (heap s1) [])) as H.
    destruct (od_get String.eqb name (assign name (KInt k) (Tuple c exc) (nth a (heap s1) [])));
      [cbn [fst]; rewrite H; reflexivity | discriminate H]. }
  destruct o as [n | | n]; cbn [write_text snd]; apply Hget; cbn; auto.
Qed.

(** After a restart no lookup of an integer id finds an entry. *)
Lemma integer_id_not_found_after_restart (s : state) (name : string) (z : Z) (e : entry) :
  answer (get_discord_message_id name (KInt z) (restart s)) <> Ok (Some e).
Proof.
  unfold get_discord_message_id, load_mapping_data, answer, restart.
  cbn [mapping_data_cache messages_history].
  destruct (messages_history s) as [[n doc | n] |]; cbn; try discriminate.
  destruct (od_get String.eqb name (json_loads doc)) as [data |] eqn:E; cbn; [| discriminate].
  intros H. injection H as H.
  apply od_get_key_In in H.
  apply od_get_value_In in E. unfold json_loads in E.
  apply od_of_pairs_values in E. rewrite map_map in E. cbn [snd] in E.
  apply in_map_iff in E. destruct E as [[name' members] [<- _]].
  apply od_of_pairs_keys in H. rewrite map_map in H. cbn [fst snd] in H.
  apply in_map_iff in H. destruct H as [kv [Hkv _]]. discriminate Hkv.
Qed.

(** The rotation leaves the dictionary objects and the cache as they are:
    a process that has used the history answers every lookup as before. *)
Lemma rotation_keeps_cache (limit : Q) (s : state) :
  heap (clean_history_data limit s) = heap s
  /\ mapping_data_cache (clean_history_data limit s) = mapping_data_cache s.
Proof.
  unfold clean_history_data.
  destruct (messages_history s) as [h |]; [| split; reflexivity].
  destruct (oversized h limit); [split; reflexivity |].
  destruct (missed_messages_history s) as [m |]; [| split; reflexivity].
  destruct (oversized m limit); split; reflexivity.
Qed.

Lemma lookup_after_rotation (limit : Q) (s : state) (a : nat) (name : string) (k : key) :
  mapping_data_cache s = Some a ->
  answer (get_discord_message_id name k (clean_history_data limit s))
  = answer (get_discord_message_id name k s).
Proof.
  intros Hc. destruct (rotation_keeps_cache limit s) as [Hh Hc'].
  unfold get_discord_message_id, answer.
  rewrite (load_cached s a Hc), (load_cached (clean_history_data limit s) a);
    [| rewrite Hc'; exact Hc].
  unfold deref. rewrite Hh.
  destruct (od_get String.eqb name (nth a (heap s) [])); reflexivity.
Qed.

(** When both files exist and one of them is over the limit, both are
    emptied. *)
Lemma rotation_empties_both_files (limit : Q) (s : state) (h m : file) :
  messages_history s = Some h ->
  missed_messages_history s = Some m ->
  (oversized h limit || oversized m limit)%bool = true ->
  messages_history (clean_history_data limit s) = Some (RawFile 0)
  /\ missed_messages_history (clean_history_data limit s) = Some (RawFile 0).
Proof.
  intros Hh Hm Hover. unfold clean_history_data. rewrite Hh, Hm.
  destruct (oversized h limit); [split; reflexivity |].
  simpl in Hover. rewrite Hover. split; reflexivity.
Qed.

End HistoryProofs.

(* ================================================================== *)
(** * More on the validator: what an accepted document satisfies *)
(* ================================================================== *)

Module ValidatorFacts.

Import Py Config Schema Samples ConfigNotions ConfigProofs.
Local Open Scope py_scope.

Lemma record_check_app (prefix : string) (c : bool * string) (errs : list string) :
  record_check prefix c errs
  = List.app errs (if fst c then [] else [(prefix ++ snd c)%string]).
Proof.
  unfold record_check. destruct (fst c); [rewrite app_nil_r |]; reflexivity.
Qed.

(** The steps of one loop iteration, read back from its result. *)
Lemma validate_forwarder_inv (st st' : locals) (v : value) :
  validate_forwarder st v = Ok st' ->
  exists name fh eh missing c1 c2 c3 c4 combos,
    subscript v "forwarder_name" = Ok name
    /\ get_forward_hashtags v = Ok fh
    /\ get_excluded_hashtags v = Ok eh
    /\ (n <- len fh ;;
        if n <=? 0 then fe <- subscript v "forward_everything" ;; Ok (is_False fe)
        else Ok false) = Ok missing
    /\ validate_forwarder_types v = Ok c1
    /\ validate_forwarder_combinations v (forwarder_combinations st) = Ok (c2, combos)
    /\ validate_mention_everyone_and_override v fh = Ok c3
    /\ validate_hashtags_overlap v fh eh = Ok c4
    /\ forwarder_combinations st' = combos
    /\ forwarder_error_string st'
       = (forwarder_error_string st ++ " forwarder name: " ++ str name)%string
    /\ errors st'
       = List.app (errors st)
           (List.app (if missing then
                        [((forwarder_error_string st ++ " forwarder name: " ++ str name)
                          ++ forward_hashtags_required)%string]
                      else [])
              (List.app (if fst c1 then [] else
                           [(((forwarder_error_string st ++ " forwarder name: " ++ str name)
                              ++ " ") ++ snd c1)%string])
                 (List.app (if fst c2 then [] else
                              [(((forwarder_error_string st ++ " forwarder name: " ++ str name)
                                 ++ " ") ++ snd c2)%string])
                    (List.app (if fst c3 then [] else
                                 [(((forwarder_error_string st ++ " forwarder name: " ++ str name)
                                    ++ " ") ++ snd c3)%string])
                       (if fst c4 then [] else
                          [(((forwarder_error_string st ++ " forwarder name: " ++ str name)
                             ++ " ") ++ snd c4)%string]))))).
Proof.
  intros H. unfold validate_forwarder in H.
  destruct (subscript v "forwarder_name") as [name |] eqn:E0; cbn [bind] in H;
    [| discriminate H].
  destruct (get_forward_hashtags v) as [fh |] eqn:E1; cbn [bind] in H; [| discriminate H].
  destruct (len fh) as [n |] eqn:E2; cbn [bind] in H; [| discriminate H].
  destruct (if n <=? 0 then _ else _) as [missing |] eqn:E3; cbn [bind] in H;
    [| discriminate H].
  destruct (get_excluded_hashtags v) as [eh |] eqn:E4; cbn [bind] in H; [| discriminate H].
  destruct (validate_forwarder_types v) as [c1 |] eqn:E5; cbn [bind] in H; [| discriminate H].
  destruct (validate_forwarder_combinations v (forwarder_combinations st))
    as [[c2 combos] |] eqn:E6; cbn [bind] in H; [| discriminate H].
  destruct (validate_mention_everyone_and_override v fh) as [c3 |] eqn:E7; cbn [bind] in H;
    [| discriminate H].
  destruct (validate_hashtags_overlap v fh eh) as [c4 |] eqn:E8; cbn [bind] in H;
    [| discriminate H].
  injection H as <-.
  exists name, fh, eh, missing, c1, c2, c3, c4, combos.
  rewrite E2. cbn [bind]. rewrite E3.
  repeat (split; [first [assumption | reflexivity] |]).
  cbn [errors]. rewrite !record_check_app.
  destruct missing; rewrite <- ?app_assoc; rewrite ?app_nil_r; reflexivity.
Qed.

Lemma app_same_nil {A} (l x : list A) : List.app l x = l -> x = [].
Proof.
  intros H. apply (app_inv_head l). rewrite app_nil_r. exact H.
Qed.

Lemma flag_nil {A} (b : bool) (x : A) : (if b then [] else [x]) = [] -> b = true.
Proof. destruct b; [reflexivity | discriminate]. Qed.

(** The loop only appends to the list of errors. *)
Lemma validate_forwarders_appends (l : list value) :
  forall st st', validate_forwarders l st = Ok st' ->
                 exists extra, errors st' = List.app (errors st) extra.
Proof.
  induction l as [| v l IH]; intros st st' H.
  - injection H as <-. exists []. rewrite app_nil_r. reflexivity.
  - cbn [validate_forwarders] in H. bind_inv H.
    destruct (IH _ _ H) as [extra2 H2].
    destruct (validate_forwarder_inv _ _ _ Hstep)
      as [name [fh [eh [missing [c1 [c2 [c3 [c4 [combos [_ [_ [_ [_ [_ [_ [_ [_ [_ [_ H1]]]]]]]]]]]]]]]]]]].
    eexists. rewrite H2, H1, <- app_assoc. reflexivity.
Qed.

(** A forwarder of the documented shape that adds no error satisfies the
    per-forwarder conditions, and its combination is new. *)
Lemma validate_forwarder_silent (st st' : locals) (f : forwarder) :
  validate_forwarder st (yaml_of_forwarder f) = Ok st' ->
  errors st' = errors st ->
  accepted f
  /\ exists h1 h2,
       combination f = (Ok h1, Ok h2)
       /\ combination_in (h1, h2) (forwarder_combinations st) = false
       /\ forwarder_combinations st' = (h1, h2) :: forwarder_combinations st.
Proof.
  intros Hrun Hsame.
  destruct (validate_forwarder_inv _ _ _ Hrun)
    as [name [fh [eh [missing [c1 [c2 [c3 [c4 [combos
         [_ [Hfh [Heh [Hmiss [H1 [H2 [H3 [H4 [Hcombos [_ Herr]]]]]]]]]]]]]]]]]]].
  rewrite Herr in Hsame. apply app_same_nil in Hsame.
  apply app_eq_nil in Hsame. destruct Hsame as [E0 Hsame].
  apply app_eq_nil in Hsame. destruct Hsame as [E1 Hsame].
  apply app_eq_nil in Hsame. destruct Hsame as [E2 Hsame].
  apply app_eq_nil in Hsame. destruct Hsame as [E3 E4].
  apply flag_nil in E1, E2, E3, E4.
  assert (Em : missing = false) by (destruct missing; [discriminate E0 | reflexivity]).
  subst missing. clear E0.
  rewrite get_forward_hashtags_yaml in Hfh. injection Hfh as <-.
  rewrite get_excluded_hashtags_yaml in Heh. injection Heh as <-.
  rewrite validate_mention_yaml in H3. rewrite validate_overlap_yaml in H4. cbv zeta in H4.
  unfold validate_forwarder_types in H1. unfold validate_forwarder_combinations in H2.
  change (subscript (yaml_of_forwarder f) "tg_channel_id") with (Ok (tg_channel_id f)) in *.
  change (subscript (yaml_of_forwarder f) "discord_channel_id")
    with (Ok (discord_channel_id f)) in *.
  change (subscript (yaml_of_forwarder f) "forward_everything")
    with (Ok (VBool (forward_everything f))) in *.
  cbn [bind len yaml_of_hashtags] in *.
  split; [split; [| split; [| split]] |].
  - (* integer ids *)
    unfold integer_ids.
    destruct (isinstance_int (tg_channel_id f)); cbn [negb] in H1;
      [| injection H1 as <-; discriminate E1].
    destruct (isinstance_int (discord_channel_id f)); cbn [negb] in H1;
      [| injection H1 as <-; discriminate E1].
    split; reflexivity.
  - (* forward hashtags where required *)
    intros Hfe Hnil. rewrite Hnil, Hfe in Hmiss. cbn in Hmiss. discriminate Hmiss.
  - (* no overlap *)
    intros x Hx Hx'.
    destruct (nonempty (intersection (set_of_list (names_of (tags_of (forward_hashtags f))))
                          (set_of_list (names_of (tags_of (excluded_hashtags f)))))) eqn:E;
      [injection H4 as <-; discriminate E4 |].
    apply nonempty_false in E.
    assert (Hin : In x (intersection (set_of_list (names_of (tags_of (forward_hashtags f))))
                          (set_of_list (names_of (tags_of (excluded_hashtags f)))))).
    { apply intersection_In. split; apply set_of_list_In; assumption. }
    rewrite E in Hin. destruct Hin.
  - (* no override under mention_everyone *)
    intros Hme t Ht. rewrite Hme in H3.
    destruct (existsb overrides (tags_of (forward_hashtags f))) eqn:E;
      [injection H3 as <-; discriminate E3 |].
    destruct (overrides t) eqn:Et; [| reflexivity].
    assert (existsb overrides (tags_of (forward_hashtags f)) = true).
    { apply existsb_exists. exists t. split; assumption. }
    congruence.
  - (* the combination *)
    destruct (hash_key (tg_channel_id f)) as [h1 |] eqn:Eh1; cbn [bind] in H2;
      [| discriminate H2].
    destruct (hash_key (discord_channel_id f)) as [h2 |] eqn:Eh2; cbn [bind] in H2;
      [| discriminate H2].
    exists h1, h2. unfold combination. rewrite Eh1, Eh2.
    destruct (combination_in (h1, h2) (forwarder_combinations st)) eqn:Ein.
    + injection H2 as <- _. discriminate E2.
    + injection H2 as _ <-. rewrite Hcombos. repeat split; reflexivity.
Qed.

Lemma validate_forwarders_silent (fs : list forwarder) :
  forall st st',
    validate_forwarders (map yaml_of_forwarder fs) st = Ok st' ->
    errors st' = errors st ->
    Forall accepted fs
    /\ NoDup (map combination fs)
    /\ forall f h1 h2, In f fs -> combination f = (Ok h1, Ok h2) ->
                       combination_in (h1, h2) (forwarder_combinations st) = false.
Proof.
  induction fs as [| f fs IH]; intros st st' Hrun Hsame.
  - split; [constructor | split; [constructor | intros f h1 h2 []]].
  - cbn [map validate_forwarders] in Hrun. bind_inv Hrun.
    destruct (validate_forwarders_appends _ _ _ Hrun) as [x2 Hx2].
    destruct (validate_forwarder_inv _ _ _ Hstep)
      as [name [fh [eh [missing [c1 [c2 [c3 [c4 [combos [_ [_ [_ [_ [_ [_ [_ [_ [_ [_ Hx1]]]]]]]]]]]]]]]]]]].
    assert (Hs1 : errors a = errors st).
    { rewrite Hx2, Hx1, <- app_assoc in Hsame. apply app_same_nil in Hsame.
      apply app_eq_nil in Hsame. destruct Hsame as [E _]. rewrite Hx1, E.
      apply app_nil_r. }
    assert (Hs2 : errors st' = errors a) by congruence.
    destruct (validate_forwarder_silent _ _ _ Hstep Hs1)
      as [Hacc [h1 [h2 [Hc [Hnew Hcombos]]]]].
    destruct (IH _ _ Hrun Hs2) as [Hall [Hnodup Hfresh]].
    split; [constructor; assumption | split].
    + cbn [map]. constructor; [| exact Hnodup].
      intros Hin. apply in_map_iff in Hin. destruct Hin as [f' [Hc' Hf']].
      rewrite Hc in Hc'.
      pose proof (Hfresh f' h1 h2 Hf' Hc') as Hfalse.
      rewrite Hcombos in Hfalse. cbn in Hfalse. rewrite !hkey_eqb_refl in Hfalse.
      discriminate Hfalse.
    + intros f' k1 k2 [<- | Hf'] Hc'.
      * rewrite Hc in Hc'. injection Hc' as <- <-. exact Hnew.
      * pose proof (Hfresh f' k1 k2 Hf' Hc') as Hfalse.
        rewrite Hcombos in Hfalse. cbn in Hfalse.
        apply orb_false_iff in Hfalse. destruct Hfalse as [_ Hfalse].
        exact Hfalse.
Qed.

Lemma validate_openai_enabled_shape (openai : value) (c : bool * string) :
  validate_openai_enabled openai = Ok c -> c = (true, "") \/ c = (false, openai_error).
Proof.
  unfold validate_openai_enabled. intros H.
  repeat match type of H with
         | bind ?m _ = Ok _ => destruct m; cbn [bind] in H; [| discriminate H]
         | (if ?b then _ else _) = Ok _ => destruct b
         end;
    injection H as <-; auto.
Qed.

(** X1: a document of the documented shape that [validate_config] accepts
    satisfies every condition the validator knows: the [openai] check
    passes, the channel ids are integers, the combinations are pairwise
    different, forward hashtags are present unless [forward_everything],
    forward and excluded names are disjoint, [mention_everyone] comes with no
    overriding tag, and no forward name is shared within a source channel. *)
Theorem accepted_document_is_valid :
  forall (fs : list forwarder) (config openai : value) (errs : list string),
    subscript config "telegram_forwarders" = Ok (yaml_of_forwarders fs) ->
    subscript config "openai" = Ok openai ->
    validate_config config = Ok (true, errs) ->
    validate_openai_enabled openai = Ok (true, "")
    /\ Forall integer_ids fs
    /\ unique_combinations fs
    /\ Forall hashtags_where_required fs
    /\ Forall no_overlap fs
    /\ Forall no_override_conflict fs
    /\ ~ shared_hashtags fs.
Proof.
  intros fs config openai errs Hfw Hoa Hrun.
  unfold validate_config in Hrun. rewrite Hfw, Hoa in Hrun. cbn [bind] in Hrun.
  destruct (validate_openai_enabled openai) as [c0 |] eqn:E0; cbn [bind] in Hrun;
    [| discriminate Hrun].
  cbn [iter yaml_of_forwarders bind] in Hrun.
  destruct (validate_forwarders (map yaml_of_forwarder fs) _) as [st |] eqn:E1;
    cbn [bind] in Hrun; [| discriminate Hrun].
  destruct (validate_shared_hashtags (yaml_of_forwarders fs)) as [c5 |] eqn:E5;
    cbn [bind] in Hrun; [| discriminate Hrun].
  injection Hrun as Hempty _.
  apply is_empty_true in Hempty. rewrite record_check_app in Hempty.
  apply app_eq_nil in Hempty. destruct Hempty as [Hst H5]. apply flag_nil in H5.
  destruct (validate_forwarders_appends _ _ _ E1) as [extra Hextra].
  cbn [errors] in Hextra. rewrite Hst in Hextra. symmetry in Hextra.
  apply app_eq_nil in Hextra. destruct Hextra as [H0 _].
  rewrite record_check_app in H0. cbn [List.app] in H0. apply flag_nil in H0.
  assert (Hc0 : c0 = (true, "")).
  { destruct (validate_openai_enabled_shape _ _ E0) as [-> | ->];
      [reflexivity | discriminate H0]. }
  subst c0.
  destruct (validate_forwarders_silent fs _ _ E1) as [Hacc [Hnodup _]].
  { rewrite Hst. reflexivity. }
  assert (Hint : Forall integer_ids fs).
  { rewrite Forall_forall in *. intros f Hf. apply (Hacc f Hf). }
  split; [reflexivity | split; [exact Hint | split; [exact Hnodup |]]].
  split; [rewrite Forall_forall in *; intros f Hf; apply (Hacc f Hf) |].
  split; [rewrite Forall_forall in *; intros f Hf; apply (Hacc f Hf) |].
  split; [rewrite Forall_forall in *; intros f Hf; apply (Hacc f Hf) |].
  assert (Hhash : Forall hashable_ids fs).
  { rewrite Forall_forall in *. intros f Hf. apply integer_ids_hashable. auto. }
  destruct (validate_shared_hashtags_spec fs Hhash) as [b [msg [Hs [Hb _]]]].
  rewrite Hs in E5. injection E5 as <-. cbn [fst] in H5. subst b.
  intros Hshared. apply Hb in Hshared. discriminate Hshared.
Qed.

Lemma accepted_document_is_valid_witness :
  validate_openai_enabled openai_off = Ok (true, "")
  /\ Forall integer_ids [fwd_a; fwd_d]
  /\ unique_combinations [fwd_a; fwd_d]
  /\ Forall hashtags_where_required [fwd_a; fwd_d]
  /\ Forall no_overlap [fwd_a; fwd_d]
  /\ Forall no_override_conflict [fwd_a; fwd_d]
  /\ ~ shared_hashtags [fwd_a; fwd_d].
Proof.
  apply (accepted_document_is_valid [fwd_a; fwd_d] (document [fwd_a; fwd_d] openai_off)
           openai_off []); vm_compute; reflexivity.
Defined.

Lemma validate_openai_enabled_returns (d : list (string * value)) :
  (forall k, In k ["enabled"; "api_key"; "organization"; "sentiment_analysis_prompt"] ->
             exists v, assoc k d = Some v) ->
  exists c, validate_openai_enabled (VDict d) = Ok c.
Proof.
  intros H. unfold validate_openai_enabled, subscript.
  destruct (H "enabled") as [v0 ->]; [simpl; tauto |].
  destruct (H "api_key") as [v1 ->]; [simpl; tauto |].
  destruct (H "organization") as [v2 ->]; [simpl; tauto |].
  destruct (H "sentiment_analysis_prompt") as [v3 ->]; [simpl; tauto |].
  cbn [bind].
  destruct (truthy v0), (eq_empty_str v1), (eq_empty_str v2), (is_None v3);
    eexists; reflexivity.
Qed.

(** X2: on a document whose forwarders have the documented shape and
    hashable channel ids and whose [openai] section is a mapping with the
    keys [enabled], [api_key], [organization] and
    [sentiment_analysis_prompt], [validate_config] returns a verdict: it
    raises no [KeyError], [TypeError] or [AttributeError]. *)
Theorem validate_config_returns_on_documented_shape :
  forall (fs : list forwarder) (config : value) (d : list (string * value)),
    subscript config "telegram_forwarders" = Ok (yaml_of_forwarders fs) ->
    subscript config "openai" = Ok (VDict d) ->
    (forall k, In k ["enabled"; "api_key"; "organization"; "sentiment_analysis_prompt"] ->
               exists v, assoc k d = Some v) ->
    Forall hashable_ids fs ->
    exists is_valid errs, validate_config config = Ok (is_valid, errs).
Proof.
  intros fs config d Hfw Hoa Hkeys Hhash.
  destruct (validate_openai_enabled_returns d Hkeys) as [c0 H0].
  unfold validate_config. rewrite Hfw, Hoa. cbn [bind]. rewrite H0.
  cbn [bind iter yaml_of_forwarders].
  destruct (validate_forwarders_returns fs Hhash
              (mk_locals (fst c0) (record_check "" c0 []) "Invalid forwarder configuration:" []))
    as [st Hst].
  rewrite Hst. cbn [bind].
  destruct (validate_shared_hashtags_spec fs Hhash) as [b [msg [Hs _]]].
  change (VList (map yaml_of_forwarder fs)) with (yaml_of_forwarders fs).
  rewrite Hs. cbn [bind]. eexists _, _. reflexivity.
Qed.

Lemma validate_config_returns_on_documented_shape_witness :
  exists is_valid errs,
    validate_config
      (document [fwd_a; fwd_b; fwd_c]
         (VDict [("enabled", VBool true); ("api_key", VStr ""); ("organization", VStr "o");
                 ("sentiment_analysis_prompt", VNone)]))
    = Ok (is_valid, errs).
Proof.
  apply (validate_config_returns_on_documented_shape [fwd_a; fwd_b; fwd_c] _
           [("enabled", VBool true); ("api_key", VStr ""); ("organization", VStr "o");
            ("sentiment_analysis_prompt", VNone)]).
  - reflexivity.
  - reflexivity.
  - intros k [<- | [<- | [<- | [<- | []]]]]; eexists; reflexivity.
  - repeat (apply Forall_cons; [split; eexists; reflexivity |]). apply Forall_nil.
Defined.



(** X4: the prefix that [validate_config] puts before the errors of a
    forwarder grows with every forwarder visited: after the loop it is
    ["Invalid forwarder configuration:"] followed, for each forwarder of the
    list in order, by [" forwarder name: "] and its name, whether or not
    that forwarder had an error. *)
Theorem error_prefix_lists_every_forwarder :
  forall (l : list value) (st st' : locals),
    validate_forwarders l st = Ok st' ->
    exists names,
      mapM (fun v => subscript v "forwarder_name") l = Ok names
      /\ forwarder_error_string st'
         = (forwarder_error_string st
            ++ String.concat "" (map (fun n => " forwarder name: " ++ str n) names))%string.
Proof.
  assert (Happ_nil : forall s : string, (s ++ "")%string = s).
  { induction s as [| c s IH]; simpl; [reflexivity | rewrite IH; reflexivity]. }
  assert (Happ_assoc : forall a b c : string, ((a ++ b) ++ c = a ++ b ++ c)%string).
  { induction a as [| x a IH]; simpl; intros; [reflexivity | rewrite IH; reflexivity]. }
  assert (Hconcat : forall (x : string) l,
             String.concat "" (x :: l) = (x ++ String.concat "" l)%string).
  { intros x [| y l]; simpl; [rewrite Happ_nil; reflexivity | reflexivity]. }
  induction l as [| v l IH]; intros st st' H.
  - injection H as <-. exists []. split; [reflexivity |]. simpl. rewrite Happ_nil. reflexivity.
  - cbn [validate_forwarders] in H. bind_inv H.
    destruct (IH _ _ H) as [names [Hnames Hfes]].
    destruct (validate_forwarder_inv _ _ _ Hstep)
      as [name [fh [eh [missing [c1 [c2 [c3 [c4 [combos [Hname [_ [_ [_ [_ [_ [_ [_ [_ [Hp _]]]]]]]]]]]]]]]]]]].
    exists (name :: names). cbn [mapM]. rewrite Hname, Hnames. cbn [bind].
    split; [reflexivity |].
    rewrite Hfes, Hp. cbn [map]. rewrite Hconcat, !Happ_assoc. reflexivity.
Qed.

Lemma error_prefix_lists_every_forwarder_witness :
  exists names,
    mapM (fun v => subscript v "forwarder_name") (map yaml_of_forwarder [fwd_a; fwd_d])
    = Ok names
    /\ "Invalid forwarder configuration: forwarder name: A forwarder name: D"
       = ("Invalid forwarder configuration:"
          ++ String.concat "" (map (fun n => " forwarder name: " ++ str n) names))%string.
Proof.
  apply (error_prefix_lists_every_forwarder (map yaml_of_forwarder [fwd_a; fwd_d])
           (mk_locals true [] "Invalid forwarder configuration:" [])
           (mk_locals true [] "Invalid forwarder configuration: forwarder name: A forwarder name: D"
              [(HNum 3, HNum 30); (HNum 1, HNum 10)])).
  vm_compute. reflexivity.
Defined.

End ValidatorFacts.

(* ================================================================== *)
(** * More on the history: lookups, restarts and reachable states *)
(* ================================================================== *)

Module HistoryFacts.

Import Py History HistoryNotions HistoryRuns HistoryProofs.

Section KeyedLists.

Context {K V : Type} (eqb : K -> K -> bool).
Hypothesis eqb_eq : forall a b, eqb a b = true <-> a = b.

Lemma eqb_same (k : K) : eqb k k = true.
Proof. apply eqb_eq. reflexivity. Qed.

Lemma od_get_set_other (k k' : K) (v : V) (d : list (K * V)) :
  k' <> k -> od_get eqb k' (od_set eqb k v d) = od_get eqb k' d.
Proof.
  intros Hne. induction d as [| [x vx] d IH]; simpl.
  - destruct (eqb k' k) eqn:E; [apply eqb_eq in E; contradiction | reflexivity].
  - destruct (eqb k x) eqn:E; simpl.
    + apply eqb_eq in E. subst x.
      destruct (eqb k' k) eqn:E'; [apply eqb_eq in E'; contradiction | reflexivity].
    + destruct (eqb k' x); [reflexivity | exact IH].
Qed.

Lemma od_get_None_keys (k : K) (d : list (K * V)) :
  od_get eqb k d = None <-> ~ In k (map fst d).
Proof.
  induction d as [| [x vx] d IH]; simpl; [tauto |].
  destruct (eqb k x) eqn:E.
  - apply eqb_eq in E. subst. split; [discriminate | intros H; exfalso; apply H; auto].
  - rewrite IH. split.
    + intros H [H1 | H1]; [subst; rewrite eqb_same in E; discriminate E | auto].
    + intros H H1. apply H. auto.
Qed.

Lemma od_set_keys_eq (k : K) (v : V) (d : list (K * V)) :
  map fst (od_set eqb k v d)
  = match od_get eqb k d with
    | Some _ => map fst d
    | None => List.app (map fst d) [k]
    end.
Proof.
  induction d as [| [x vx] d IH]; simpl; [reflexivity |].
  destruct (eqb k x) eqn:E; simpl; [reflexivity |].
  rewrite IH. destruct (od_get eqb k d); reflexivity.
Qed.

Lemma od_set_NoDup (k : K) (v : V) (d : list (K * V)) :
  NoDup (map fst d) -> NoDup (map fst (od_set eqb k v d)).
Proof.
  intros H. rewrite od_set_keys_eq.
  destruct (od_get eqb k d) eqn:E; [exact H |].
  apply od_get_None_keys in E.
  apply NoDup_app; [exact H | constructor; [intros [] | constructor] |].
  intros x Hx [<- | []]. contradiction.
Qed.

Lemma od_get_app (k : K) (l1 l2 : list (K * V)) :
  od_get eqb k (List.app l1 l2)
  = match od_get eqb k l1 with
    | Some v => Some v
    | None => od_get eqb k l2
    end.
Proof.
  induction l1 as [| [x vx] l1 IH]; simpl; [reflexivity |].
  destruct (eqb k x); [reflexivity | exact IH].
Qed.

Lemma od_get_In_NoDup (k : K) (v : V) (l : list (K * V)) :
  NoDup (map fst l) -> In (k, v) l -> od_get eqb k l = Some v.
Proof.
  induction l as [| [x vx] l IH]; simpl; intros Hnd Hin; [destruct Hin |].
  inversion Hnd as [| ? ? Hnotin Hnd']; subst.
  destruct Hin as [Hin | Hin].
  - injection Hin as -> ->. rewrite eqb_same. reflexivity.
  - destruct (eqb k x) eqn:E.
    + apply eqb_eq in E. subst x. exfalso. apply Hnotin.
      apply in_map_iff. exists (k, v). split; [reflexivity | exact Hin].
    + apply IH; assumption.
Qed.

Lemma od_get_set_eq (k k' : K) (v : V) (d : list (K * V)) :
  od_get eqb k' (od_set eqb k v d) = if eqb k' k then Some v else od_get eqb k' d.
Proof.
  destruct (eqb k' k) eqn:E.
  - apply eqb_eq in E. subst. apply od_get_set_same. exact eqb_same.
  - apply od_get_set_other. intros ->. rewrite eqb_same in E. discriminate E.
Qed.

(** [dict(pairs)] answers a lookup with the last pair of the key. *)
Lemma od_of_pairs_get (k : K) (l : list (K * V)) :
  od_get eqb k (od_of_pairs eqb l) = od_get eqb k (rev l).
Proof.
  unfold od_of_pairs.
  assert (H : forall d,
             od_get eqb k (fold_left (fun d kv => od_set eqb (fst kv) (snd kv) d) l d)
             = match od_get eqb k (rev l) with
               | Some v => Some v
               | None => od_get eqb k d
               end).
  { induction l as [| [x vx] l IH]; intros d; simpl; [reflexivity |].
    rewrite IH, od_get_app. simpl.
    destruct (od_get eqb k (rev l)); [reflexivity |].
    rewrite od_get_set_eq. destruct (eqb k x); reflexivity. }
  rewrite H. destruct (od_get eqb k (rev l)); reflexivity.
Qed.

Lemma od_of_pairs_NoDup (l : list (K * V)) : NoDup (map fst (od_of_pairs eqb l)).
Proof.
  unfold od_of_pairs.
  assert (H : forall d, NoDup (map fst d) ->
                        NoDup (map fst (fold_left (fun d kv => od_set eqb (fst kv) (snd kv) d) l d))).
  { induction l as [| [x vx] l IH]; intros d Hd; simpl; [exact Hd |].
    apply IH. apply od_set_NoDup. exact Hd. }
  apply H. constructor.
Qed.

End KeyedLists.

Lemma key_eqb_eq (a b : key) : key_eqb a b = true <-> a = b.
Proof.
  destruct a, b; simpl; split; intros H; try discriminate H.
  - apply Z.eqb_eq in H. congruence.
  - injection H as ->. apply Z.eqb_refl.
  - apply String.eqb_eq in H. congruence.
  - injection H as ->. apply String.eqb_refl.
Qed.

(** ** The shape of the dictionaries is kept *)

Lemma od_set_int_after_strings (k : Z) (e : entry) (strs ints : forwarder_data) :
  Forall (fun kv => is_KStr (fst kv) = true) strs ->
  od_set key_eqb (KInt k) e (List.app strs ints)
  = List.app strs (od_set key_eqb (KInt k) e ints).
Proof.
  induction 1 as [| [x vx] strs Hx _ IH]; simpl; [reflexivity |].
  destruct x as [z | s]; [discriminate Hx |]. simpl. rewrite IH. reflexivity.
Qed.

Lemma strings_first_set (k : Z) (e : entry) (d : forwarder_data) :
  strings_first d -> strings_first (od_set key_eqb (KInt k) e d).
Proof.
  intros [strs [ints [-> [Hs Hi]]]].
  exists strs, (od_set key_eqb (KInt k) e ints).
  split; [apply od_set_int_after_strings; exact Hs | split; [exact Hs |]].
  apply Forall_forall. intros [x vx] Hin. simpl.
  assert (Hk : In x (map fst (od_set key_eqb (KInt k) e ints))).
  { apply in_map_iff. exists (x, vx). split; [reflexivity | exact Hin]. }
  apply od_set_keys in Hk. destruct Hk as [-> | Hk]; [reflexivity |].
  apply in_map_iff in Hk. destruct Hk as [[x' vx'] [E Hin']]. simpl in E. subst x'.
  rewrite Forall_forall in Hi. exact (Hi _ Hin').
Qed.

Lemma dict_like_assign (name : string) (k : Z) (e : entry) (m : mapping) :
  dict_like m -> dict_like (assign name (KInt k) e m).
Proof.
  intros [Hnd Hin]. unfold assign. split.
  - apply (od_set_NoDup String.eqb String.eqb_eq). exact Hnd.
  - apply Forall_forall. intros d Hd. apply od_set_values in Hd.
    rewrite Forall_forall in Hin.
    destruct Hd as [-> | Hd]; [| exact (Hin d Hd)].
    destruct (od_get String.eqb name m) as [d0 |] eqn:E.
    + apply od_get_value_In in E. destruct (Hin d0 E) as [H1 H2].
      split; [apply (od_set_NoDup key_eqb key_eqb_eq); exact H1
             | apply strings_first_set; exact H2].
    + split; [simpl; constructor; [intros [] | constructor] |].
      exists [], [(KInt k, e)]. split; [reflexivity | split; constructor; auto].
Qed.

Lemma dict_like_loads (doc : jobject) : dict_like (json_loads doc).
Proof.
  unfold json_loads. split.
  - apply (od_of_pairs_NoDup String.eqb String.eqb_eq).
  - apply Forall_forall. intros d Hd.
    apply od_of_pairs_values in Hd. rewrite map_map in Hd. cbn [snd] in Hd.
    apply in_map_iff in Hd. destruct Hd as [[name members] [<- _]]. cbn [snd].
    split; [apply (od_of_pairs_NoDup key_eqb key_eqb_eq) |].
    exists (od_of_pairs key_eqb (map (fun kv => (KStr (fst kv), loads_entry (snd kv))) members)), [].
    split; [rewrite app_nil_r; reflexivity | split; [| constructor]].
    apply Forall_forall. intros [x vx] Hin. cbn [fst].
    assert (Hk : In x (map fst (od_of_pairs key_eqb
                                  (map (fun kv => (KStr (fst kv), loads_entry (snd kv))) members)))).
    { apply in_map_iff. exists (x, vx). split; [reflexivity | exact Hin]. }
    apply od_of_pairs_keys in Hk. rewrite map_map in Hk. cbn [fst] in Hk.
    apply in_map_iff in Hk. destruct Hk as [kv [<- _]]. reflexivity.
Qed.

Lemma load_heap (s s1 : state) (a : nat) :
  load_mapping_data s = (Ok a, s1) ->
  heap s1 = heap s
  \/ (mapping_data_cache s = None
      /\ exists m, heap s1 = List.app (heap s) [m]
                   /\ a = List.length (heap s)
                   /\ (m = []
                       \/ exists n doc, messages_history s = Some (JsonFile n doc)
                                        /\ m = json_loads doc)).
Proof.
  unfold load_mapping_data. destruct (mapping_data_cache s) as [a' |].
  - intros H. injection H as <- <-. left. reflexivity.
  - destruct (messages_history s) as [[n doc | n] |]; simpl; intros H;
      try discriminate H; injection H as <- <-; right; split; try reflexivity;
      eexists; split; try reflexivity; split; try reflexivity.
    + right. exists n, doc. split; reflexivity.
    + left. reflexivity.
Qed.

Lemma load_raises (s s1 : state) (e : exn) :
  load_mapping_data s = (Raise e, s1) -> e = JSONDecodeError /\ s1 = s.
Proof.
  unfold load_mapping_data. destruct (mapping_data_cache s) as [a' |]; [discriminate |].
  destruct (messages_history s) as [[n doc | n] |]; simpl; intros H; try discriminate H.
  injection H as <- <-. split; reflexivity.
Qed.

Lemma tidy_load (s : state) : tidy s -> tidy (after (load_mapping_data s)).
Proof.
  intros Ht. unfold after.
  destruct (load_mapping_data s) as [[a | e] s1] eqn:E; cbn [snd].
  - unfold tidy.
    destruct (load_heap s s1 a E) as [Hh | [_ [m [Hh [_ Hm]]]]]; rewrite Hh; [exact Ht |].
    apply Forall_app. split; [exact Ht |]. constructor; [| constructor].
    destruct Hm as [-> | [n [doc [_ ->]]]].
    + split; constructor.
    + apply dict_like_loads.
  - destruct (load_raises s s1 e E) as [_ ->]. exact Ht.
Qed.

Lemma healthy_load (s : state) : healthy s -> healthy (after (load_mapping_data s)).
Proof.
  intros [Hc Ht]. split; [apply load_mapping_data_consistent; exact Hc | apply tidy_load; exact Ht].
Qed.

(** The cached object after [save_mapping_data] and after
    [save_missed_message]. *)
Lemma save_heap (o : write_outcome) (name : string) (k v : Z) (s s1 : state) (a : nat) :
  load_mapping_data s = (Ok a, s1) ->
  heap (after (save_mapping_data o name k v s))
  = update_nth a (assign name (KInt k) (Id v)) (heap s1).
Proof.
  intros H. unfold save_mapping_data, after. rewrite H.
  destruct o; reflexivity.
Qed.

Lemma missed_state (o : write_outcome) (name : string) (k c : Z) (exc : string)
    (s s1 : state) (a : nat) :
  load_mapping_data s = (Ok a, s1) ->
  let s' := after (save_missed_message o name k c exc s) in
  heap s' = update_nth a (assign name (KInt k) (Tuple c exc)) (heap s1)
  /\ mapping_data_cache s' = mapping_data_cache s1
  /\ messages_history s' = messages_history s1.
Proof.
  intros H. unfold save_missed_message, after. rewrite H.
  destruct o; repeat split; reflexivity.
Qed.

Lemma healthy_save (o : write_outcome) (name : string) (k v : Z) (s : state) :
  healthy s -> healthy (after (save_mapping_data o name k v s)).
Proof.
  intros Hs. pose proof (healthy_load s Hs) as Hl. destruct Hs as [Hc Ht].
  destruct (load_mapping_data s) as [[a | e] s1] eqn:E.
  - split.
    + apply (save_mapping_data_spec o name k v s s1 a Hc E).
    + unfold tidy. rewrite (save_heap o name k v s s1 a E).
      apply update_nth_Forall; [intros m; apply dict_like_assign |].
      unfold after in Hl. cbn [snd] in Hl. apply Hl.
  - unfold save_mapping_data, after. rewrite E. cbn [snd].
    unfold after in Hl. cbn [snd] in Hl. exact Hl.
Qed.

Lemma healthy_missed (o : write_outcome) (name : string) (k c : Z) (exc : string) (s : state) :
  healthy s -> healthy (after (save_missed_message o name k c exc s)).
Proof.
  intros Hs. pose proof (healthy_load s Hs) as Hl.
  destruct (load_mapping_data s) as [[a | e] s1] eqn:E.
  - unfold after in Hl. cbn [snd] in Hl. destruct Hl as [[H1 H2 H3] Ht].
    destruct (missed_state o name k c exc s s1 a E) as [Hh [Hcache Hfile]].
    split; [split |].
    + rewrite Hcache, Hh, update_nth_length. exact H1.
    + rewrite Hh. apply update_nth_Forall; [intros m; apply numeric_assign | exact H2].
    + rewrite Hfile. exact H3.
    + unfold tidy. rewrite Hh.
      apply update_nth_Forall; [intros m; apply dict_like_assign | exact Ht].
  - unfold save_missed_message, after. rewrite E. cbn [snd].
    unfold after in Hl. cbn [snd] in Hl. exact Hl.
Qed.

Lemma healthy_clean (limit : Q) (s : state) :
  healthy s -> healthy (clean_history_data limit s).
Proof.
  intros [[H1 H2 H3] Ht].
  destruct (rotation_keeps_cache limit s) as [Hh Hc].
  split; [split |].
  - rewrite Hc, Hh. exact H1.
  - rewrite Hh. exact H2.
  - unfold clean_history_data.
    destruct (messages_history s) as [h |] eqn:E; [| cbn; rewrite E; exact I].
    destruct (oversized h limit); [exact I |].
    destruct (missed_messages_history s) as [m |]; [| cbn; rewrite E; exact H3].
    destruct (oversized m limit); [exact I | rewrite E; exact H3].
  - unfold tidy. rewrite Hh. exact Ht.
Qed.

Lemma healthy_step (s : state) (c : call) : healthy s -> healthy (step s c).
Proof.
  intros Hs. destruct c as [o name k v | o name k ch exc | name k | | limit |]; cbn [step].
  - apply healthy_save. exact Hs.
  - apply healthy_missed. exact Hs.
  - pose proof (healthy_load s Hs) as Hl.
    unfold get_discord_message_id, after in *.
    destruct (load_mapping_data s) as [[a | e] s1]; cbn [snd] in *; [| exact Hl].
    destruct (od_get String.eqb name (deref a s1)); exact Hl.
  - pose proof (healthy_load s Hs) as Hl.
    unfold get_last_messages_for_all_forwarders, after in *.
    destruct (load_mapping_data s) as [[a | e] s1]; exact Hl.
  - apply healthy_clean. exact Hs.
  - destruct Hs as [Hc _]. split; [apply consistent_restart; exact Hc | constructor].
Qed.

Lemma healthy_run (calls : list call) : healthy (run calls).
Proof.
  unfold run.
  assert (H : forall s, healthy s -> healthy (fold_left step calls s)).
  { induction calls as [| c calls IH]; intros s Hs; [exact Hs |].
    apply IH. apply healthy_step. exact Hs. }
  apply H. split; [apply consistent_fresh | constructor].
Qed.

(** X5: in every state that a sequence of handler calls and restarts
    reaches from a new installation, whatever the outcomes of the writes,
    [get_last_messages_for_all_forwarders] returns a list or raises
    [JSONDecodeError] (the history file was emptied or left half-written
    before the process started); [int] never fails on a key. *)
Theorem last_messages_never_fail_on_keys :
  forall calls : list call,
    (exists res, answer (get_last_messages_for_all_forwarders (run calls)) = Ok res)
    \/ answer (get_last_messages_for_all_forwarders (run calls)) = Raise JSONDecodeError.
Proof.
  intros calls. destruct (healthy_run calls) as [Hc _].
  unfold get_last_messages_for_all_forwarders, answer.
  destruct (load_mapping_data (run calls)) as [[a | e] s1] eqn:E; cbn [fst].
  - left.
    destruct (last_messages_spec (deref a s1) (loaded_mapping_numeric _ _ _ Hc E))
      as [res [Hres _]].
    exists res. exact Hres.
  - right. destruct (load_raises _ _ _ E) as [-> _]. reflexivity.
Qed.

(** ** Lookups after a record *)

Lemma lookup_answer (s s1 : state) (a : nat) (name : string) (k : key) :
  load_mapping_data s = (Ok a, s1) ->
  answer (get_discord_message_id name k s) = Ok (entry_of (deref a s1) name k).
Proof.
  intros H. unfold get_discord_message_id, answer, entry_of. rewrite H.
  destruct (od_get String.eqb name (deref a s1)); reflexivity.
Qed.

Lemma entry_of_assign_other (m : mapping) (name name' : string) (k k' : key) (e : entry) :
  (name', k') <> (name, k) ->
  entry_of (assign name k e m) name' k' = entry_of m name' k'.
Proof.
  intros Hne. unfold entry_of, assign.
  destruct (String.eqb name' name) eqn:En.
  - apply String.eqb_eq in En. subst name'.
    rewrite (od_get_set_same String.eqb String.eqb_refl).
    rewrite (od_get_set_other key_eqb key_eqb_eq); [| congruence].
    destruct (od_get String.eqb name m); reflexivity.
  - apply String.eqb_neq in En.
    rewrite (od_get_set_other String.eqb String.eqb_eq); [reflexivity | exact En].
Qed.

(** X6: in a process in which the history loads, an id recorded with
    [save_mapping_data] is what [get_discord_message_id] answers for that
    forwarder and source id, and a second record for the same pair replaces
    it; this holds for every outcome of the writes. *)
Theorem record_then_lookup :
  forall (o o' : write_outcome) (name : string) (k v v' : Z) (s s1 : state) (a : nat),
    consistent s ->
    load_mapping_data s = (Ok a, s1) ->
    answer (get_discord_message_id name (KInt k) (after (save_mapping_data o name k v s)))
    = Ok (Some (Id v))
    /\ answer (get_discord_message_id name (KInt k)
                 (after (save_mapping_data o' name k v'
                           (after (save_mapping_data o name k v s)))))
       = Ok (Some (Id v')).
Proof.
  intros o o' name k v v' s s1 a Hs Hload.
  split; [exact (recorded_id_found_whatever_the_write o name k v s s1 a Hs Hload) |].
  destruct (save_mapping_data_spec o name k v s s1 a Hs Hload) as [_ [Hc [_ [Hs' _]]]].
  exact (recorded_id_found_whatever_the_write o' name k v' _ _ a Hs' (load_cached _ a Hc)).
Qed.

Lemma record_then_lookup_witness :
  answer (get_discord_message_id "f1" (KInt 100)
            (after (save_mapping_data OpenFails "f1" 100 200 fresh)))
  = Ok (Some (Id 200))
  /\ answer (get_discord_message_id "f1" (KInt 100)
               (after (save_mapping_data (Written 40) "f1" 100 300
                         (after (save_mapping_data OpenFails "f1" 100 200 fresh)))))
     = Ok (Some (Id 300)).
Proof.
  apply (record_then_lookup OpenFails (Written 40) "f1" 100 200 300 fresh
           (mk_state [[]] (Some 0%nat) None None []) 0%nat consistent_fresh eq_refl).
Defined.

(** X7: [save_mapping_data] changes the answer of no other lookup: for a
    forwarder name and key other than the pair recorded,
    [get_discord_message_id] answers after the call what it answers
    before. *)
Theorem record_keeps_other_entries :
  forall (o : write_outcome) (name name' : string) (k v : Z) (k' : key)
         (s s1 : state) (a : nat),
    consistent s ->
    load_mapping_data s = (Ok a, s1) ->
    (name', k') <> (name, KInt k) ->
    answer (get_discord_message_id name' k' (after (save_mapping_data o name k v s)))
    = answer (get_discord_message_id name' k' s).
Proof.
  intros o name name' k v k' s s1 a Hs Hload Hne.
  destruct (save_mapping_data_spec o name k v s s1 a Hs Hload) as [_ [Hc [Hd _]]].
  rewrite (lookup_answer _ _ a name' k' (load_cached _ a Hc)).
  rewrite (lookup_answer s s1 a name' k' Hload).
  rewrite Hd, entry_of_assign_other; [reflexivity | exact Hne].
Qed.

Lemma record_keeps_other_entries_witness :
  answer (get_discord_message_id "f1" (KInt 100)
            (after (save_mapping_data (Written 80) "f1" 101 201 recorded)))
  = answer (get_discord_message_id "f1" (KInt 100) recorded).
Proof.
  apply (record_keeps_other_entries (Written 80) "f1" "f1" 101 201 (KInt 100) recorded
           recorded 0%nat).
  - pose proof (save_mapping_data_spec (Written 40) "f1" 100 200 fresh
                  (mk_state [[]] (Some 0%nat) None None []) 0%nat consistent_fresh eq_refl) as H.
    cbv zeta in H. apply H.
  - reflexivity.
  - discriminate.
Defined.

(** ** What a restart finds *)

Lemma od_get_In {K V} (eqb : K -> K -> bool) (k : K) (v : V) (d : list (K * V)) :
  (forall a b, eqb a b = true <-> a = b) ->
  od_get eqb k d = Some v -> In (k, v) d.
Proof.
  intros Heq. induction d as [| [x vx] d IH]; simpl; intros H; [discriminate H |].
  destruct (eqb k x) eqn:E.
  - apply Heq in E. subst x. injection H as ->. left. reflexivity.
  - right. exact (IH H).
Qed.

Lemma od_set_In {K V} (eqb : K -> K -> bool) (k : K) (v : V) (d : list (K * V)) :
  (forall a b, eqb a b = true <-> a = b) -> In (k, v) (od_set eqb k v d).
Proof.
  intros Heq. apply (od_get_In eqb k v _ Heq).
  apply od_get_set_same. intros x. apply Heq. reflexivity.
Qed.

Lemma str_of_int_inj (x y : Z) : str_of_int x = str_of_int y -> x = y.
Proof.
  intros H. pose proof (int_of_string_str_of_int x) as Hx.
  rewrite H, int_of_string_str_of_int in Hx. congruence.
Qed.

Lemma loads_dumps_inner (m : mapping) :
  json_loads (json_dumps m)
  = od_of_pairs String.eqb
      (map (fun fd => (fst fd, od_of_pairs key_eqb (map reloaded (snd fd)))) m).
Proof.
  unfold json_loads, json_dumps. rewrite map_map. cbn [fst snd].
  f_equal. apply map_ext. intros [name data]. cbn [fst snd].
  rewrite map_map. reflexivity.
Qed.

Lemma reloaded_ints_NoDup (ints : forwarder_data) :
  Forall (fun kv => is_KStr (fst kv) = false) ints ->
  NoDup (map fst ints) ->
  NoDup (map fst (map reloaded ints)).
Proof.
  induction 1 as [| [x vx] ints Hx Hall IH]; intros Hnd; [constructor |].
  cbn [map] in *. inversion Hnd as [| ? ? Hnotin Hnd']; subst.
  constructor; [| exact (IH Hnd')].
  intros Hin. apply Hnotin.
  rewrite map_map in Hin. apply in_map_iff in Hin. destruct Hin as [[y vy] [E Hy]].
  cbn [reloaded fst] in E.
  rewrite Forall_forall in Hall. pose proof (Hall _ Hy) as Hy'.
  destruct x as [zx | sx]; [| discriminate Hx].
  destruct y as [zy | sy]; [| discriminate Hy'].
  cbn [dumps_key] in E. injection E as E. apply str_of_int_inj in E. subst zy.
  apply in_map_iff. exists (KInt zx, vy). split; [reflexivity | exact Hy].
Qed.

(** Among keys of which the strings come first and none occurs twice, the
    entry recorded under the integer [k] is the one reloaded under the
    text of [k]. *)
Lemma reloaded_lookup (d : forwarder_data) (k : Z) (e : entry) :
  NoDup (map fst d) ->
  strings_first d ->
  In (KInt k, e) d ->
  od_get key_eqb (KStr (str_of_int k)) (od_of_pairs key_eqb (map reloaded d))
  = Some (loads_entry (dumps_entry e)).
Proof.
  intros Hnd [strs [ints [-> [Hs Hi]]]] Hin.
  rewrite (od_of_pairs_get key_eqb key_eqb_eq).
  rewrite map_app, rev_app_distr, od_get_app.
  assert (Hin' : In (KInt k, e) ints).
  { apply in_app_or in Hin. destruct Hin as [Hin | Hin]; [| exact Hin].
    rewrite Forall_forall in Hs. pose proof (Hs _ Hin) as H. discriminate H. }
  rewrite map_app in Hnd. apply NoDup_app_remove_l in Hnd.
  rewrite (od_get_In_NoDup key_eqb key_eqb_eq (KStr (str_of_int k))
             (loads_entry (dumps_entry e))); [reflexivity | |].
  - rewrite map_rev. apply NoDup_rev. apply reloaded_ints_NoDup; assumption.
  - apply in_rev. rewrite rev_involutive.
    apply in_map_iff. exists (KInt k, e). split; [reflexivity | exact Hin'].
Qed.

Lemma deref_dict_like (s : state) (a : nat) : tidy s -> dict_like (deref a s).
Proof.
  intros Ht. unfold deref.
  destruct (Nat.lt_ge_cases a (List.length (heap s))) as [Hlt | Hge].
  - unfold tidy in Ht. rewrite Forall_forall in Ht. apply Ht. apply nth_In. exact Hlt.
  - rewrite nth_overflow by exact Hge. split; constructor.
Qed.

(** X8: an id recorded with a successful write is found after a restart
    under the decimal text of its source id, and not under the integer:
    [get_discord_message_id(name, str(k))] returns it and
    [get_discord_message_id(name, k)] returns [None]. *)
Theorem recorded_id_survives_restart_under_its_text :
  forall (n : Z) (name : string) (k v : Z) (s s1 : state) (a : nat),
    healthy s ->
    load_mapping_data s = (Ok a, s1) ->
    let s' := restart (after (save_mapping_data (Written n) name k v s)) in
    answer (get_discord_message_id name (KStr (str_of_int k)) s') = Ok (Some (Id v))
    /\ answer (get_discord_message_id name (KInt k) s') = Ok None.
Proof.
  intros n name k v s s1 a Hs Hload s'.
  pose proof (healthy_load s Hs) as Hl. unfold after in Hl. rewrite Hload in Hl.
  cbn [snd] in Hl. destruct Hl as [_ Ht1]. destruct Hs as [Hc _].
  destruct (save_mapping_data_spec (Written n) name k v s s1 a Hc Hload)
    as [_ [_ [Hd [_ [_ Hf]]]]].
  cbn [write_text fst] in Hf. rewrite Hd in Hf.
  set (m' := assign name (KInt k) (Id v) (deref a s1)) in *.
  assert (Hm' : dict_like m') by (apply dict_like_assign, deref_dict_like; exact Ht1).
  assert (Hloaded : load_mapping_data s'
                    = (Ok 0%nat, mk_state [json_loads (json_dumps m')] (Some 0%nat)
                                   (messages_history s') (missed_messages_history s') [])).
  { unfold s', load_mapping_data, restart. cbn [mapping_data_cache messages_history].
    rewrite Hf. reflexivity. }
  rewrite !(lookup_answer _ _ _ _ _ Hloaded).
  unfold deref. cbn [heap nth].
  destruct Hm' as [Hnd Hinner].
  set (data := od_set key_eqb (KInt k) (Id v)
                 match od_get String.eqb name (deref a s1) with
                 | Some d => d
                 | None => []
                 end).
  assert (Hdata : In (name, data) m').
  { apply (od_set_In String.eqb name data _ String.eqb_eq). }
  assert (Hget : od_get String.eqb name (json_loads (json_dumps m'))
                 = Some (od_of_pairs key_eqb (map reloaded data))).
  { rewrite loads_dumps_inner, (od_of_pairs_get String.eqb String.eqb_eq).
    apply (od_get_In_NoDup String.eqb String.eqb_eq).
    - rewrite map_rev. apply NoDup_rev. rewrite map_map. cbn [fst]. exact Hnd.
    - apply in_rev. rewrite rev_involutive.
      apply in_map_iff. exists (name, data). split; [reflexivity | exact Hdata]. }
  unfold entry_of. rewrite Hget.
  rewrite Forall_forall in Hinner.
  destruct (Hinner data) as [Hnd' Hsf].
  { apply in_map_iff. exists (name, data). split; [reflexivity | exact Hdata]. }
  split.
  - rewrite (reloaded_lookup data k (Id v) Hnd' Hsf); [reflexivity |].
    apply (od_set_In key_eqb (KInt k) (Id v) _ key_eqb_eq).
  - destruct (od_get key_eqb (KInt k) (od_of_pairs key_eqb (map reloaded data)))
      as [e |] eqn:E; [| reflexivity].
    apply od_get_key_In in E. apply od_of_pairs_keys in E.
    rewrite map_map in E. apply in_map_iff in E. destruct E as [kv [E _]].
    discriminate E.
Qed.

Lemma recorded_id_survives_restart_under_its_text_witness :
  answer (get_discord_message_id "f1" (KStr (str_of_int 100)) (restart recorded))
  = Ok (Some (Id 200))
  /\ answer (get_discord_message_id "f1" (KInt 100) (restart recorded)) = Ok None.
Proof.
  apply (recorded_id_survives_restart_under_its_text 40 "f1" 100 200 fresh
           (mk_state [[]] (Some 0%nat) None None []) 0%nat (healthy_run []) eq_refl).
Defined.

(** X9: after a successful [save_mapping_data], a restarted process loads
    as its mapping what [json.loads] makes of the [json.dumps] text of the
    cache of the process that wrote: every key a string, every tuple a
    list. *)
Theorem restart_loads_the_written_mapping :
  forall (n : Z) (name : string) (k v : Z) (s s1 : state) (a : nat),
    consistent s ->
    load_mapping_data s = (Ok a, s1) ->
    let s' := after (save_mapping_data (Written n) name k v s) in
    exists b s2,
      load_mapping_data (restart s') = (Ok b, s2)
      /\ deref b s2 = json_loads (json_dumps (deref a s'))
      /\ forall nm data key, In (nm, data) (deref b s2) -> In key (map fst data) ->
                             is_KStr key = true.
Proof.
  intros n name k v s s1 a Hc Hload s'.
  destruct (save_mapping_data_spec (Written n) name k v s s1 a Hc Hload)
    as [_ [_ [_ [_ [_ Hf]]]]].
  cbn [write_text fst] in Hf. fold s' in Hf.
  exists 0%nat. eexists. split; [| split].
  - unfold load_mapping_data, restart. cbn [mapping_data_cache messages_history].
    rewrite Hf. reflexivity.
  - reflexivity.
  - unfold deref. cbn [heap nth]. intros nm data key Hin Hkey.
    assert (Hd : In data (map snd (json_loads (json_dumps (deref a s'))))).
    { apply in_map_iff. exists (nm, data). split; [reflexivity | exact Hin]. }
    unfold json_loads in Hd. apply od_of_pairs_values in Hd.
    rewrite map_map in Hd. cbn [snd] in Hd.
    apply in_map_iff in Hd. destruct Hd as [fd [<- _]].
    apply od_of_pairs_keys in Hkey. rewrite map_map in Hkey. cbn [fst] in Hkey.
    apply in_map_iff in Hkey. destruct Hkey as [kv [<- _]]. reflexivity.
Qed.

Lemma restart_loads_the_written_mapping_witness :
  exists b s2,
    load_mapping_data (restart recorded) = (Ok b, s2)
    /\ deref b s2 = json_loads (json_dumps (deref 0%nat recorded))
    /\ forall nm data key, In (nm, data) (deref b s2) -> In key (map fst data) ->
                           is_KStr key = true.
Proof.
  apply (restart_loads_the_written_mapping 40 "f1" 100 200 fresh
           (mk_state [[]] (Some 0%nat) None None []) 0%nat consistent_fresh eq_refl).
Defined.

(** X10: in a process that has loaded the history, the rotation changes
    the answer of no lookup and of no last-messages query: the cache is
    left as it is while the files are emptied. *)
Theorem rotation_changes_no_answer :
  forall (limit : Q) (s : state) (a : nat) (name : string) (k : key),
    mapping_data_cache s = Some a ->
    answer (get_discord_message_id name k (clean_history_data limit s))
    = answer (get_discord_message_id name k s)
    /\ answer (get_last_messages_for_all_forwarders (clean_history_data limit s))
       = answer (get_last_messages_for_all_forwarders s).
Proof.
  intros limit s a name k Hc.
  destruct (rotation_keeps_cache limit s) as [Hh Hc'].
  assert (Hl : load_mapping_data (clean_history_data limit s)
               = (Ok a, clean_history_data limit s)).
  { apply load_cached. rewrite Hc'. exact Hc. }
  split.
  - rewrite (lookup_answer _ _ a name k Hl), (lookup_answer _ _ a name k (load_cached s a Hc)).
    unfold deref. rewrite Hh. reflexivity.
  - unfold get_last_messages_for_all_forwarders, answer.
    rewrite Hl, (load_cached s a Hc). cbn [fst]. unfold deref. rewrite Hh. reflexivity.
Qed.

Lemma rotation_changes_no_answer_witness :
  answer (get_discord_message_id "f1" (KInt 100) (clean_history_data 2 oversized_store))
  = answer (get_discord_message_id "f1" (KInt 100) oversized_store)
  /\ answer (get_last_messages_for_all_forwarders (clean_history_data 2 oversized_store))
     = answer (get_last_messages_for_all_forwarders oversized_store).
Proof.
  apply (rotation_changes_no_answer 2 oversized_store 0%nat "f1" (KInt 100) eq_refl).
Defined.

End HistoryFacts.

(* ================================================================== *)
(** * Properties of [load] and of the instances of [Config] *)
(* ================================================================== *)

Module ObjectsFacts.

Import Py Config Schema Samples Objects Registry FullSample ConfigProofs.
Local Open Scope py_scope.

Ltac ctor_reads :=
  split;
  [ intros d o H f Hf;
    repeat match type of H with
           | bind ?m _ = Ok _ => destruct m eqn:?; cbn [bind] in H; [| discriminate H]
           end;
    injection H as <-;
    cbn [In] in Hf;
    repeat (destruct Hf as [<- | Hf]; [eexists; split; [eassumption | reflexivity] |]);
    contradiction
  | intros d H;
    repeat match goal with
           | |- exists o, bind (subscript d ?f) _ = Ok o =>
               let v := fresh "v" in
               let E := fresh "E" in
               destruct (H f) as [v E]; [cbn [In]; tauto |]; rewrite E; cbn [bind]
           end;
    eexists; reflexivity ].

Lemma AppConfig_reads :
  reads AppConfig ["name"; "version"; "description"; "debug"; "healthcheck_interval";
                   "recoverer_delay"; "history_size_limit"].
Proof. unfold AppConfig. ctor_reads. Qed.

Lemma APIConfig_reads :
  reads APIConfig ["enabled"; "cors_origins"; "telegram_login_enabled"; "telegram_auth_file";
                   "telegram_auth_request_expiration"].
Proof. unfold APIConfig. ctor_reads. Qed.

Lemma LoggerConfig_reads :
  reads LoggerConfig ["level"; "file_max_bytes"; "file_backup_count"; "format"; "date_format";
                      "console"].
Proof. unfold LoggerConfig. ctor_reads. Qed.

Lemma TelegramConfig_reads :
  reads TelegramConfig ["phone"; "password"; "api_id"; "api_hash";
                        "log_unhandled_conversations"].
Proof. unfold TelegramConfig. ctor_reads. Qed.

Lemma DiscordConfig_reads :
  reads DiscordConfig ["bot_token"; "built_in_roles"; "max_latency"].
Proof. unfold DiscordConfig. ctor_reads. Qed.

Lemma OpenAIConfig_reads :
  reads OpenAIConfig ["filter"; "api_key"; "organization"; "enabled";
                      "sentiment_analysis_prompt"].
Proof. unfold OpenAIConfig. ctor_reads. Qed.

Lemma build_inv (config_data : value) (key : string) (ctor : value -> result attrs)
    (set : attrs -> instance -> instance) (self self' : instance)
    (k : instance -> outcome value * instance) (v : value) :
  build config_data key ctor set self k = (Returns v, self') ->
  exists section o,
    subscript config_data key = Ok section /\ ctor section = Ok o
    /\ k (set o self) = (Returns v, self').
Proof.
  unfold build. intros H.
  destruct (subscript config_data key) as [section |]; [| discriminate H].
  destruct (ctor section) as [o |] eqn:E; [| discriminate H].
  exists section, o. split; [reflexivity | split; [exact E | exact H]].
Qed.

(** The assignments at the end of [load], read back from a run that
    returned. *)
Lemma assign_sections_returns (config_data v : value) (self self' : instance) :
  assign_sections config_data self = (Returns v, self') ->
  v = config_data
  /\ initialized self' = initialized self
  /\ file_path self' = file_path self
  /\ (exists fw, subscript config_data "telegram_forwarders" = Ok fw
                 /\ telegram_forwarders self' = Some fw)
  /\ forall key fields, In (key, fields) section_fields ->
                        mirrored config_data self' key fields.
Proof.
  intros H. unfold assign_sections in H.
  apply build_inv in H. destruct H as [s1 [o1 [E1 [C1 H]]]].
  apply build_inv in H. destruct H as [s2 [o2 [E2 [C2 H]]]].
  apply build_inv in H. destruct H as [s3 [o3 [E3 [C3 H]]]].
  apply build_inv in H. destruct H as [s4 [o4 [E4 [C4 H]]]].
  apply build_inv in H. destruct H as [s5 [o5 [E5 [C5 H]]]].
  apply build_inv in H. destruct H as [s6 [o6 [E6 [C6 H]]]].
  destruct (subscript config_data "telegram_forwarders") as [fw |] eqn:E7; [| discriminate H].
  injection H as <- <-.
  split; [reflexivity | split; [reflexivity | split; [reflexivity | split]]].
  - exists fw. split; reflexivity.
  - intros key fields Hin. unfold section_fields in Hin. cbn [In] in Hin.
    destruct Hin as [Hin | [Hin | [Hin | [Hin | [Hin | [Hin | []]]]]]];
      injection Hin as <- <-.
    + exists s1, o1. repeat split; try assumption. exact (proj1 AppConfig_reads s1 o1 C1).
    + exists s2, o2. repeat split; try assumption. exact (proj1 APIConfig_reads s2 o2 C2).
    + exists s3, o3. repeat split; try assumption. exact (proj1 LoggerConfig_reads s3 o3 C3).
    + exists s4, o4. repeat split; try assumption. exact (proj1 TelegramConfig_reads s4 o4 C4).
    + exists s5, o5. repeat split; try assumption. exact (proj1 DiscordConfig_reads s5 o5 C5).
    + exists s6, o6. repeat split; try assumption. exact (proj1 OpenAIConfig_reads s6 o6 C6).
Qed.

Lemma assign_sections_never_exits (config_data : value) (self self' : instance)
    (out : outcome value) :
  assign_sections config_data self = (out, self') ->
  out = Returns config_data \/ exists e, out = Raises e.
Proof.
  unfold assign_sections, build. intros H.
  repeat match type of H with
         | match ?m with Ok _ => _ | Raise _ => _ end = _ =>
             destruct m; [| injection H as <- _; right; eexists; reflexivity]
         end.
  injection H as <- _. left. reflexivity.
Qed.

Lemma complete_section (config_data : value) (key : string) (fields : list string)
    (ctor : value -> result attrs) :
  complete config_data ->
  In (key, fields) section_fields ->
  fields <> [] ->
  reads ctor fields ->
  exists section o, subscript config_data key = Ok section /\ ctor section = Ok o.
Proof.
  intros Hc Hin Hne [_ Htotal].
  destruct fields as [| f0 fields]; [contradiction |].
  destruct (Hc key (f0 :: fields) f0 Hin (or_introl eq_refl)) as [section [v0 [Hs _]]].
  exists section.
  destruct (Htotal section) as [o Ho].
  - intros f Hf. destruct (Hc key (f0 :: fields) f Hin Hf) as [section' [v [Hs' Hv]]].
    rewrite Hs in Hs'. injection Hs' as <-. exists v. exact Hv.
  - exists o. split; assumption.
Qed.

Lemma assign_sections_complete (config_data fw : value) (self : instance) :
  complete config_data ->
  subscript config_data "telegram_forwarders" = Ok fw ->
  exists self', assign_sections config_data self = (Returns config_data, self').
Proof.
  intros Hc Hfw. unfold assign_sections, build.
  destruct (complete_section config_data "application" _ AppConfig Hc
              (or_introl eq_refl) ltac:(discriminate) AppConfig_reads) as [s1 [o1 [-> ->]]].
  destruct (complete_section config_data "api" _ APIConfig Hc
              (or_intror (or_introl eq_refl)) ltac:(discriminate) APIConfig_reads)
    as [s2 [o2 [-> ->]]].
  destruct (complete_section config_data "logger" _ LoggerConfig Hc
              (or_intror (or_intror (or_introl eq_refl))) ltac:(discriminate)
              LoggerConfig_reads) as [s3 [o3 [-> ->]]].
  destruct (complete_section config_data "telegram" _ TelegramConfig Hc
              (or_intror (or_intror (or_intror (or_introl eq_refl)))) ltac:(discriminate)
              TelegramConfig_reads) as [s4 [o4 [-> ->]]].
  destruct (complete_section config_data "discord" _ DiscordConfig Hc
              (or_intror (or_intror (or_intror (or_intror (or_introl eq_refl)))))
              ltac:(discriminate) DiscordConfig_reads) as [s5 [o5 [-> ->]]].
  destruct (complete_section config_data "openai" _ OpenAIConfig Hc
              (or_intror (or_intror (or_intror (or_intror (or_intror (or_introl eq_refl))))))
              ltac:(discriminate) OpenAIConfig_reads) as [s6 [o6 [-> ->]]].
  rewrite Hfw. eexists. reflexivity.
Qed.

Lemma mirrored_complete (config_data : value) (self : instance) :
  (forall key fields, In (key, fields) section_fields ->
                      mirrored config_data self key fields) ->
  complete config_data.
Proof.
  intros H key fields field Hin Hf.
  destruct (H key fields Hin) as [section [o [Hs [_ Hall]]]].
  destruct (Hall field Hf) as [v [Hv _]].
  exists section, v. split; assumption.
Qed.

(** X11: when [load] returns, it returns the parsed document, has printed
    nothing, the document has passed the validator, and the instance
    mirrors it: for every section and every key that the section's class
    reads, the attribute of the section object is the document's value, and
    [telegram_forwarders] is the document's list; [_initialized] and
    [_file_path] are as before. *)
Theorem loaded_configuration_mirrors_document :
  forall (file : read_outcome) (self self' : instance) (v : value) (printed : list string),
    load file self = (Returns v, self', printed) ->
    file = Parsed v
    /\ printed = []
    /\ (exists errs, validate_config v = Ok (true, errs))
    /\ initialized self' = initialized self
    /\ file_path self' = file_path self
    /\ (exists fw, subscript v "telegram_forwarders" = Ok fw
                   /\ telegram_forwarders self' = Some fw)
    /\ forall key fields, In (key, fields) section_fields -> mirrored v self' key fields.
Proof.
  intros file self self' v printed H. unfold load in H.
  destruct file as [| ex | config_data]; try discriminate H.
  destruct (first_missing required_keys config_data) as [[key |] |]; try discriminate H.
  destruct (validate_config config_data) as [[[|] errs] |] eqn:Ev; try discriminate H.
  injection H as H <-.
  destruct (assign_sections_returns _ _ _ _ H) as [-> [Hi [Hp [Hfw Hm]]]].
  repeat split; try assumption. exists errs. exact Ev.
Qed.

Lemma loaded_configuration_mirrors_document_witness :
  exists self',
    load (Parsed full_document) blank = (Returns full_document, self', [])
    /\ forall key fields, In (key, fields) section_fields ->
                          mirrored full_document self' key fields.
Proof.
  eexists. split.
  - vm_compute. reflexivity.
  - apply (loaded_configuration_mirrors_document (Parsed full_document) blank _
             full_document []).
    vm_compute. reflexivity.
Defined.

(** X12: a document that has passed the required-keys check and the
    validator is loaded exactly when it is complete, i.e. when each of
    [application], [api], [logger], [telegram], [discord] and [openai] is
    present with every key its class reads; otherwise [load] raises (a
    [KeyError] for the first missing key, for instance for [api], which no
    check asks for) without printing anything. *)
Theorem validated_document_loads_iff_complete :
  forall (config_data : value) (self : instance) (errs : list string),
    first_missing required_keys config_data = Ok None ->
    validate_config config_data = Ok (true, errs) ->
    (complete config_data ->
     exists self', load (Parsed config_data) self = (Returns config_data, self', []))
    /\ (~ complete config_data ->
        exists e self', load (Parsed config_data) self = (Raises e, self', [])).
Proof.
  intros config_data self errs Hreq Hval. unfold load. rewrite Hreq, Hval. split.
  - intros Hc.
    assert (Hfw : exists fw, subscript config_data "telegram_forwarders" = Ok fw).
    { unfold validate_config in Hval.
      destruct (subscript config_data "telegram_forwarders") as [fw |];
        [exists fw; reflexivity | discriminate Hval]. }
    destruct Hfw as [fw Hfw].
    destruct (assign_sections_complete config_data fw self Hc Hfw) as [self' ->].
    exists self'. reflexivity.
  - intros Hnc.
    destruct (assign_sections config_data self) as [out self'] eqn:E.
    destruct (assign_sections_never_exits _ _ _ _ E) as [-> | [e ->]].
    + exfalso. apply Hnc.
      destruct (assign_sections_returns _ _ _ _ E) as [_ [_ [_ [_ Hm]]]].
      exact (mirrored_complete _ _ Hm).
    + exists e, self'. reflexivity.
Qed.

Lemma validated_document_loads_iff_complete_witness :
  (exists self', load (Parsed full_document) blank = (Returns full_document, self', []))
  /\ (exists e self', load (Parsed document_without_api) blank = (Raises e, self', [])).
Proof.
  split.
  - apply (proj1 (validated_document_loads_iff_complete full_document blank []
                    ltac:(vm_compute; reflexivity) ltac:(vm_compute; reflexivity))).
    intros key fields field Hin Hf. unfold section_fields in Hin. cbn [In] in Hin.
    repeat (destruct Hin as [Hin | Hin];
            [injection Hin as <- <-; cbn [In] in Hf;
             repeat (destruct Hf as [<- | Hf]; [eexists _, _; split; reflexivity |]);
             contradiction |]).
    contradiction.
  - apply (proj2 (validated_document_loads_iff_complete document_without_api blank []
                    ltac:(vm_compute; reflexivity) ltac:(vm_compute; reflexivity))).
    intros Hc.
    destruct (Hc "api" _ "enabled" (or_intror (or_introl eq_refl)) (or_introl eq_refl))
      as [section [v [H _]]].
    discriminate H.
Defined.

(** X13: on the forwarders of a loaded document of the documented shape,
    [get_telegram_channel_by_forwarder_name] returns the [tg_channel_id] of
    the first forwarder in document order that has the name, and [None]
    when none has it; a later forwarder of the same name is never
    reported. *)
Theorem channel_of_first_forwarder_with_name :
  forall (self : instance) (fs : list forwarder) (forwarder_name : string),
    Objects.telegram_forwarders self = Some (yaml_of_forwarders fs) ->
    get_telegram_channel_by_forwarder_name self forwarder_name
    = Ok match find (fun f => String.eqb forwarder_name (Schema.forwarder_name f)) fs with
         | Some f => tg_channel_id f
         | None => VNone
         end.
Proof.
  intros self fs name H. unfold get_telegram_channel_by_forwarder_name. rewrite H.
  cbn [iter yaml_of_forwarders bind]. clear H.
  induction fs as [| f fs IH]; [reflexivity |].
  cbn [map channel_of find].
  change (get (yaml_of_forwarder f) "forwarder_name" VNone)
    with (Ok (VStr (Schema.forwarder_name f))).
  cbn [bind is_str].
  destruct (String.eqb name (Schema.forwarder_name f)); [reflexivity | exact IH].
Qed.

Lemma channel_of_first_forwarder_with_name_witness :
  get_telegram_channel_by_forwarder_name
    (set_telegram_forwarders
       (yaml_of_forwarders
          [fwd_a; mk_forwarder "A" (VInt 7) (VInt 70) true None None false]) blank) "A"
  = Ok (VInt 1).
Proof.
  apply (channel_of_first_forwarder_with_name
           (set_telegram_forwarders
              (yaml_of_forwarders
                 [fwd_a; mk_forwarder "A" (VInt 7) (VInt 70) true None None false]) blank)
           [fwd_a; mk_forwarder "A" (VInt 7) (VInt 70) true None None false] "A" eq_refl).
Defined.

End ObjectsFacts.

Module RegistryFacts.

Import Py Config Schema Samples Objects Registry FullSample ObjectsFacts.

Lemma version_eqb_eq (a b : option string) : version_eqb a b = true <-> a = b.
Proof.
  destruct a as [x |], b as [y |]; simpl; split; intros H; try discriminate H;
    try reflexivity.
  - apply String.eqb_eq in H. congruence.
  - injection H as ->. apply String.eqb_refl.
Qed.

Lemma lookup_store_same (k : option string) (r : nat) (d : list (option string * nat)) :
  lookup k (store k r d) = Some r.
Proof.
  induction d as [| [k' r'] d IH]; simpl.
  - rewrite (proj2 (version_eqb_eq k k) eq_refl). reflexivity.
  - destruct (version_eqb k k') eqn:E; simpl; rewrite E; [reflexivity | exact IH].
Qed.

Lemma lookup_store_other (k k' : option string) (r : nat) (d : list (option string * nat)) :
  k' <> k -> lookup k' (store k r d) = lookup k' d.
Proof.
  intros Hne. induction d as [| [x rx] d IH]; simpl.
  - destruct (version_eqb k' k) eqn:E; [apply version_eqb_eq in E; contradiction | reflexivity].
  - destruct (version_eqb k x) eqn:E; simpl.
    + apply version_eqb_eq in E. subst x.
      destruct (version_eqb k' k) eqn:E'; [apply version_eqb_eq in E'; contradiction |].
      reflexivity.
    + destruct (version_eqb k' x); [reflexivity | exact IH].
Qed.

Lemma replace_nth_length {A} (n : nat) (x : A) (l : list A) :
  List.length (replace_nth n x l) = List.length l.
Proof.
  revert n. induction l as [| y l IH]; intros [| n]; simpl; auto.
Qed.

Lemma nth_replace_nth_same {A} (n : nat) (x d : A) (l : list A) :
  (n < List.length l)%nat -> nth n (replace_nth n x l) d = x.
Proof.
  revert n. induction l as [| y l IH]; intros [| n]; simpl; intros H; try lia; auto.
  apply IH. lia.
Qed.

Lemma nth_replace_nth_other {A} (n m : nat) (x d : A) (l : list A) :
  n <> m -> nth m (replace_nth n x l) d = nth m l d.
Proof.
  revert n m. induction l as [| y l IH]; intros [| n] [| m] H; simpl; auto; try lia.
Qed.

(** [load] assigns section attributes only. *)
Lemma load_keeps_identity (file : read_outcome) (self self' : instance)
    (out : outcome value) (printed : list string) :
  load file self = (out, self', printed) ->
  file_path self' = file_path self /\ initialized self' = initialized self.
Proof.
  unfold load. intros H.
  destruct file as [| ex | config_data]; try (injection H as _ <- _; split; reflexivity).
  destruct (first_missing required_keys config_data) as [[key |] |];
    try (injection H as _ <- _; split; reflexivity).
  destruct (validate_config config_data) as [[[|] errs] |];
    try (injection H as _ <- _; split; reflexivity).
  injection H as H _. unfold assign_sections, build in H.
  repeat match type of H with
         | match ?m with Ok _ => _ | Raise _ => _ end = _ =>
             destruct m; [| injection H as _ <-; split; reflexivity]
         end.
  injection H as _ <-. split; reflexivity.
Qed.

(** What [self.load()] changes in the world. *)
Lemma load_at_frame (d : disk) (r : nat) (w w' : world) (out : outcome value) :
  (r < List.length (objects w))%nat ->
  load_at d r w = (out, w') ->
  instances w' = instances w
  /\ List.length (objects w') = List.length (objects w)
  /\ (forall r', r' <> r -> object r' w' = object r' w)
  /\ exists printed,
       load (d (path_of (object r w))) (object r w) = (out, object r w', printed).
Proof.
  intros Hr H. unfold load_at in H.
  destruct (load (d (path_of (object r w))) (object r w)) as [[out' self'] printed] eqn:E.
  injection H as <- <-. cbn [instances objects].
  split; [reflexivity | split; [apply replace_nth_length | split]].
  - intros r' Hne. unfold object. cbn [objects]. apply nth_replace_nth_other. congruence.
  - exists printed.
    assert (Hself : object r (mk_world (instances w) (replace_nth r self' (objects w))
                                (List.app (stdout w) printed)) = self').
    { unfold object. cbn [objects]. apply nth_replace_nth_same. exact Hr. }
    rewrite Hself. reflexivity.
Qed.

(** The call [Config()] while no [None] key is registered. *)
Lemma Config_call_spec (d : disk) (w w1 : world) (out : outcome nat) :
  lookup None (instances w) = None ->
  Config_call d w = (out, w1) ->
  instances w1 = store (Some "") (List.length (objects w)) (instances w)
  /\ List.length (objects w1) = S (List.length (objects w))
  /\ (forall r', (r' < List.length (objects w))%nat -> object r' w1 = object r' w)
  /\ (forall r, out = Returns r -> r = List.length (objects w))
  /\ exists out' printed,
       load (d (in_curdir "config.yml")) started
       = (out', object (List.length (objects w)) w1, printed)
       /\ (forall r, out = Returns r -> exists v, out' = Returns v).
Proof.
  intros Hnone H. unfold Config_call, new in H. rewrite Hnone in H.
  set (r := List.length (objects w)) in *.
  set (w0 := mk_world (store (Some "") r (instances w)) (List.app (objects w) [blank])
                      (stdout w)) in *.
  assert (Hblank : object r w0 = blank).
  { unfold object, w0, r. cbn [objects]. rewrite app_nth2 by lia.
    rewrite Nat.sub_diag. reflexivity. }
  unfold init in H. rewrite Hblank in H. cbn [initialized blank] in H.
  fold started in H.
  destruct (load_at d r (update r started w0)) as [out' w2] eqn:E.
  assert (Hlen0 : List.length (objects (update r started w0)) = S r).
  { unfold update, w0. cbn [objects]. rewrite replace_nth_length, length_app. simpl. lia. }
  destruct (load_at_frame d r _ _ _ ltac:(rewrite Hlen0; lia) E)
    as [Hi [Hl [Hother [printed Hload]]]].
  assert (Hstarted : object r (update r started w0) = started).
  { unfold object, update, w0. cbn [objects]. apply nth_replace_nth_same.
    rewrite length_app. simpl. unfold r. lia. }
  rewrite Hstarted in Hload. cbn [path_of started set_telegram_forwarders set_initialized
                                  blank file_path] in Hload.
  assert (Hres : w1 = w2 /\ ((exists v, out' = Returns v /\ out = Returns r)
                             \/ (forall x, out <> Returns x))).
  { destruct out' as [v | c | e]; injection H as <- <-; split; try reflexivity.
    - left. exists v. split; reflexivity.
    - right. intros x Hx. discriminate Hx.
    - right. intros x Hx. discriminate Hx. }
  destruct Hres as [-> Hout].
  split; [rewrite Hi; reflexivity | split; [rewrite Hl, Hlen0; reflexivity | split]].
  - intros r' Hr'. rewrite Hother by lia.
    unfold object, update, w0. cbn [objects].
    rewrite nth_replace_nth_other by lia. apply app_nth1. exact Hr'.
  - split.
    + intros x Hx. destruct Hout as [[v [_ Hr]] | Hno]; [congruence | exfalso; exact (Hno x Hx)].
    + exists out', printed. split; [exact Hload |].
      intros x Hx. destruct Hout as [[v [Hv _]] | Hno];
        [exists v; exact Hv | exfalso; exact (Hno x Hx)].
Qed.

(** X14: [Config()] is no singleton.  As long as the key [None] is not
    registered, two calls that return give two different instances; the
    second one is what [get_config_instance] then returns for the default
    version, and the first instance is left as it was. *)
Theorem Config_call_creates_a_new_instance :
  forall (d : disk) (w w1 w2 : world) (r1 r2 : nat),
    lookup None (instances w) = None ->
    Config_call d w = (Returns r1, w1) ->
    Config_call d w1 = (Returns r2, w2) ->
    r1 <> r2
    /\ get_config_instance (Some "") w1 = Returns r1
    /\ get_config_instance (Some "") w2 = Returns r2
    /\ object r1 w2 = object r1 w1.
Proof.
  intros d w w1 w2 r1 r2 Hnone H1 H2.
  destruct (Config_call_spec d w w1 _ Hnone H1) as [Hi1 [Hl1 [_ [Hr1 _]]]].
  assert (Hnone1 : lookup None (instances w1) = None).
  { rewrite Hi1, lookup_store_other by discriminate. exact Hnone. }
  destruct (Config_call_spec d w1 w2 _ Hnone1 H2) as [Hi2 [_ [Hold [Hr2 _]]]].
  pose proof (Hr1 r1 eq_refl) as E1. pose proof (Hr2 r2 eq_refl) as E2.
  split; [lia | split; [| split]].
  - unfold get_config_instance. cbn. rewrite Hi1, lookup_store_same. congruence.
  - unfold get_config_instance. cbn. rewrite Hi2, lookup_store_same. congruence.
  - apply Hold. lia.
Qed.

Lemma Config_call_creates_a_new_instance_witness :
  0%nat <> 1%nat
  /\ get_config_instance (Some "") (snd (Config_call full_disk empty_world)) = Returns 0%nat
  /\ get_config_instance (Some "")
       (snd (Config_call full_disk (snd (Config_call full_disk empty_world))))
     = Returns 1%nat
  /\ object 0 (snd (Config_call full_disk (snd (Config_call full_disk empty_world))))
     = object 0 (snd (Config_call full_disk empty_world)).
Proof.
  apply (Config_call_creates_a_new_instance full_disk empty_world
           (snd (Config_call full_disk empty_world))
           (snd (Config_call full_disk (snd (Config_call full_disk empty_world))))
           0%nat 1%nat); vm_compute; reflexivity.
Defined.

Lemma load_returns_inv (file : read_outcome) (self self' : instance) (v : value)
    (printed : list string) :
  load file self = (Returns v, self', printed) ->
  file = Parsed v
  /\ forall key fields, In (key, fields) section_fields -> mirrored v self' key fields.
Proof.
  intros H. unfold load in H.
  destruct file as [| ex | config_data]; try discriminate H.
  destruct (first_missing required_keys config_data) as [[key |] |]; try discriminate H.
  destruct (validate_config config_data) as [[[|] errs] |]; try discriminate H.
  injection H as H _.
  destruct (assign_sections_returns _ _ _ _ H) as [-> [_ [_ [_ Hm]]]].
  split; [reflexivity | exact Hm].
Qed.

(** X15: [set_version(v)] for a version [v] that is not registered yet
    (and no [None] key registered) creates one instance and registers it
    under [v] and, through [Config()], under [""] as well: when the call
    returns, [get_config_instance] returns this one instance for [v] and
    for the default version, its [_file_path] is [./config-v.yml] and its
    sections mirror that file. *)
Theorem set_version_rebinds_the_default_instance :
  forall (d : disk) (v : string) (w w' : world) (r : nat),
    v <> "" ->
    lookup (Some v) (instances w) = None ->
    lookup None (instances w) = None ->
    set_version d (Some v) w = (Returns r, w') ->
    r = List.length (objects w)
    /\ get_config_instance (Some v) w' = Returns r
    /\ get_config_instance (Some "") w' = Returns r
    /\ file_path (object r w') = Some (in_curdir ("config-" ++ v ++ ".yml"))
    /\ exists doc,
         d (in_curdir ("config-" ++ v ++ ".yml")) = Parsed doc
         /\ forall key fields, In (key, fields) section_fields ->
                               mirrored doc (object r w') key fields.
Proof.
  intros d v w w' r Hv Hnew Hnone H.
  assert (Htruthy : truthy_version (Some v) = true).
  { cbn. destruct (String.eqb v "") eqn:E; [apply String.eqb_eq in E; contradiction |].
    reflexivity. }
  unfold set_version in H. rewrite Hnew in H.
  destruct (Config_call d w) as [out w1] eqn:E1.
  destruct (Config_call_spec d w w1 out Hnone E1) as [Hi1 [Hl1 [_ [Hr1 _]]]].
  destruct out as [r0 | c | e]; try discriminate H.
  pose proof (Hr1 r0 eq_refl) as Er0. subst r0.
  set (r0 := List.length (objects w)) in *.
  set (w1' := mk_world (store (Some v) r0 (instances w1)) (objects w1) (stdout w1)) in *.
  unfold set_file_path in H. rewrite Htruthy in H.
  set (p := in_curdir ("config-" ++ v ++ ".yml")) in *.
  set (w2 := update r0 (set_path p (object r0 w1')) w1') in *.
  destruct (load_at d r0 w2) as [out2 w3] eqn:E2.
  assert (Hlen2 : List.length (objects w2) = S r0).
  { unfold w2, update, w1'. cbn [objects]. rewrite replace_nth_length. exact Hl1. }
  destruct (load_at_frame d r0 w2 w3 out2 ltac:(rewrite Hlen2; lia) E2)
    as [Hi3 [_ [_ [printed Hload]]]].
  destruct out2 as [v2 | c | e]; try discriminate H.
  injection H as <- <-.
  assert (Hobj2 : object r0 w2 = set_path p (object r0 w1')).
  { unfold object at 1, w2, update. cbn [objects]. apply nth_replace_nth_same.
    unfold w1'. cbn [objects]. rewrite Hl1. lia. }
  rewrite Hobj2 in Hload. cbn [path_of set_path file_path] in Hload.
  assert (Hinst : instances w3 = store (Some v) r0 (store (Some "") r0 (instances w))).
  { rewrite Hi3. unfold w2, update, w1'. cbn [instances]. rewrite Hi1. reflexivity. }
  split; [reflexivity | split; [| split; [| split]]].
  - unfold get_config_instance. rewrite Htruthy, Hinst, lookup_store_same. reflexivity.
  - unfold get_config_instance. cbn [truthy_version String.eqb negb].
    rewrite Hinst, lookup_store_other, lookup_store_same; [reflexivity |].
    intros E. injection E as E. apply Hv. symmetry. exact E.
  - destruct (load_keeps_identity _ _ _ _ _ Hload) as [Hp _]. rewrite Hp. reflexivity.
  - destruct (load_returns_inv _ _ _ _ _ Hload) as [Hfile Hm].
    exists v2. split; assumption.
Qed.

Lemma set_version_rebinds_the_default_instance_witness :
  0%nat = List.length (objects empty_world)
  /\ get_config_instance (Some "v2") (snd (set_version full_disk (Some "v2") empty_world))
     = Returns 0%nat
  /\ get_config_instance (Some "") (snd (set_version full_disk (Some "v2") empty_world))
     = Returns 0%nat
  /\ file_path (object 0 (snd (set_version full_disk (Some "v2") empty_world)))
     = Some (in_curdir ("config-" ++ "v2" ++ ".yml"))
  /\ exists doc,
       full_disk (in_curdir ("config-" ++ "v2" ++ ".yml")) = Parsed doc
       /\ forall key fields, In (key, fields) section_fields ->
            mirrored doc (object 0 (snd (set_version full_disk (Some "v2") empty_world)))
              key fields.
Proof.
  apply (set_version_rebinds_the_default_instance full_disk "v2" empty_world
           (snd (set_version full_disk (Some "v2") empty_world)) 0%nat).
  - discriminate.
  - reflexivity.
  - reflexivity.
  - vm_compute. reflexivity.
Defined.

End RegistryFacts.

(* ================================================================== *)
(** * Properties of the PID file handling *)
(* ================================================================== *)

Module AppFacts.

Import Py HistoryNotions HistoryProofs App.

Lemma chars_of_not_space (d : Decimal.uint) :
  Forall (fun c => isspace c = false) (chars_of d).
Proof.
  unfold chars_of. induction d; simpl; constructor; try reflexivity; assumption.
Qed.

Lemma str_of_int_chars (z : Z) :
  Forall (fun c => isspace c = false) (list_ascii_of_string (str_of_int z))
  /\ Forall (fun c => History.is_space c = false) (list_ascii_of_string (str_of_int z)).
Proof.
  unfold str_of_int. destruct z as [| p | p].
  - split; repeat constructor.
  - cbn [Z.to_int NilZero.string_of_int].
    rewrite (string_of_uint_nonnil _ (DecimalPos.Unsigned.to_uint_nonnil p)).
    split; [apply chars_of_not_space | apply chars_of_no_space].
  - cbn [Z.to_int NilZero.string_of_int].
    rewrite (string_of_uint_nonnil _ (DecimalPos.Unsigned.to_uint_nonnil p)).
    cbn [list_ascii_of_string].
    split; (constructor; [reflexivity |]);
      [apply chars_of_not_space | apply chars_of_no_space].
Qed.

Lemma lstrip_id (l : list ascii) : Forall (fun c => isspace c = false) l -> lstrip l = l.
Proof.
  intros H. destruct H as [| c l Hc _]; simpl; [reflexivity | rewrite Hc; reflexivity].
Qed.

Lemma strip_chars_id (l : list ascii) :
  Forall (fun c => isspace c = false) l -> strip_chars l = l.
Proof.
  intros H. unfold strip_chars. rewrite (lstrip_id l H).
  rewrite (lstrip_id (rev l)); [apply rev_involutive | apply Forall_rev; exact H].
Qed.

(** [int(str(z).strip()) == z]. *)
Lemma int_strip_str (z : Z) : int (strip (str_of_int z)) = Some z.
Proof.
  destruct (str_of_int_chars z) as [H1 H2].
  unfold strip. rewrite (strip_chars_id _ H1), string_of_list_ascii_of_string.
  unfold int. rewrite (strip_chars_id _ H1).
  pose proof (int_of_string_str_of_int z) as H.
  unfold History.int_of_string in H. rewrite (strip_no_space _ H2) in H. exact H.
Qed.

Lemma isfile_remove (name : string) (m : machine) :
  isfile name (remove_pid_file name m) = false.
Proof.
  unfold remove_pid_file. destruct (isfile name m) eqn:E.
  - unfold isfile, remove_file. cbn [files].
    induction (files m) as [| [n c] l IH]; [reflexivity |].
    cbn [filter fst]. destruct (String.eqb name n) eqn:En; cbn [negb]; [exact IH |].
    cbn [History.od_get]. rewrite En. exact IH.
  - unfold isfile, logged in *. cbn [files]. exact E.
Qed.

Lemma isfile_write (name content : string) (m : machine) :
  History.od_get String.eqb name (files (write_file name content m)) = Some content.
Proof.
  unfold write_file. cbn [files]. apply od_get_set_same. apply String.eqb_refl.
Qed.

(** X16: when there is no PID file, [create_pid_file] writes one that
    [determine_process_state] reads back as the state [running] with the
    process id written; from then on every further [create_pid_file] of a
    bridge of the same name ends the process with status 1. *)
Theorem created_pid_file_is_read_back :
  forall (e e' : env) (m : machine),
    isfile (name e ++ ".pid") m = false ->
    name e' = name e ->
    exists m1,
      create_pid_file e m = (Done (name e ++ ".pid"), m1)
      /\ fst (determine_process_state e (name e ++ ".pid") m1)
         = Done ("running", getpid e)
      /\ fst (create_pid_file e' m1) = SysExit 1.
Proof.
  intros e e' m Hno Hname. unfold isfile in Hno.
  destruct (History.od_get String.eqb (name e ++ ".pid") (files m)) eqn:E;
    [discriminate Hno |].
  unfold create_pid_file at 1, determine_process_state. rewrite E. cbn.
  eexists. split; [reflexivity |]. split.
  - rewrite isfile_write, int_strip_str. reflexivity.
  - unfold create_pid_file, determine_process_state. rewrite Hname.
    rewrite isfile_write, int_strip_str. reflexivity.
Qed.

Lemma created_pid_file_is_read_back_witness :
  exists m1,
    create_pid_file sample_env (mk_machine [] []) = (Done ("bridge" ++ ".pid"), m1)
    /\ fst (determine_process_state sample_env ("bridge" ++ ".pid") m1)
       = Done ("running", 4242)
    /\ fst (create_pid_file sample_env m1) = SysExit 1.
Proof.
  apply (created_pid_file_is_read_back sample_env sample_env (mk_machine [] []));
    reflexivity.
Defined.

(** X17: a PID file that holds an integer is never removed by starting or
    stopping: [create_pid_file] ends the process with status 1 and
    [stop_bridge] signals or logs, both leaving every file as it is,
    whether or not a process of that id exists; so after a [stop_bridge]
    that found no such process the next start still ends with status 1. *)
Theorem stale_pid_file_is_never_removed :
  forall (e : env) (m : machine) (content : string) (pid : Z),
    History.od_get String.eqb (name e ++ ".pid") (files m) = Some content ->
    int (strip content) = Some pid ->
    fst (create_pid_file e m) = SysExit 1
    /\ files (snd (create_pid_file e m)) = files m
    /\ files (snd (stop_bridge e m)) = files m
    /\ fst (create_pid_file e (snd (stop_bridge e m))) = SysExit 1.
Proof.
  intros e m content pid Hfile Hint.
  assert (Hstop : files (snd (stop_bridge e m)) = files m).
  { unfold stop_bridge, determine_process_state. rewrite Hfile, Hint. cbn.
    destruct (kill e pid); reflexivity. }
  unfold create_pid_file, determine_process_state.
  rewrite Hstop, Hfile, Hint. cbn. repeat split; reflexivity.
Qed.

Lemma stale_pid_file_is_never_removed_witness :
  fst (create_pid_file sample_env (mk_machine [("bridge.pid", "17")] [])) = SysExit 1
  /\ files (snd (create_pid_file sample_env (mk_machine [("bridge.pid", "17")] [])))
     = [("bridge.pid", "17")]
  /\ files (snd (stop_bridge sample_env (mk_machine [("bridge.pid", "17")] [])))
     = [("bridge.pid", "17")]
  /\ fst (create_pid_file sample_env
            (snd (stop_bridge sample_env (mk_machine [("bridge.pid", "17")] []))))
     = SysExit 1.
Proof.
  apply (stale_pid_file_is_never_removed sample_env
           (mk_machine [("bridge.pid", "17")] []) "17" 17); reflexivity.
Defined.

(** X18: [start_bridge] removes the PID file it has created: when there is
    no PID file at the start, there is none when [start_bridge] is left,
    however the run of the bridge ends and whatever it does to the files;
    the run itself finds the PID file holding the text of the process id. *)
Theorem start_bridge_removes_its_pid_file :
  forall (e : env) (run : machine -> run_end * machine) (m : machine),
    isfile (name e ++ ".pid") m = false ->
    isfile (name e ++ ".pid") (snd (start_bridge e run m)) = false
    /\ exists m1,
         create_pid_file e m = (Done (name e ++ ".pid"), m1)
         /\ History.od_get String.eqb (name e ++ ".pid") (files m1)
            = Some (str_of_int (getpid e))
         /\ snd (start_bridge e run m)
            = remove_pid_file (name e ++ ".pid")
                match run m1 with
                | (ConnectionError, m2) => logged "Error while running the bridge: %s" m2
                | (_, m2) => m2
                end.
Proof.
  intros e run m Hno. unfold isfile in Hno.
  destruct (History.od_get String.eqb (name e ++ ".pid") (files m)) eqn:E;
    [discriminate Hno |].
  unfold start_bridge, create_pid_file, determine_process_state. rewrite E. cbn.
  split.
  - destruct (run _) as [[| | | x | c] m2]; cbn [snd]; apply isfile_remove.
  - eexists. split; [reflexivity | split; [apply isfile_write |]].
    destruct (run _) as [[| | | x | c] m2]; reflexivity.
Qed.

Lemma start_bridge_removes_its_pid_file_witness :
  isfile ("bridge" ++ ".pid")
    (snd (start_bridge sample_env (fun m => (OtherException "RuntimeError", m))
            (mk_machine [("messages_history.json", "{}")] [])))
  = false.
Proof.
  apply (start_bridge_removes_its_pid_file sample_env
           (fun m => (OtherException "RuntimeError", m))
           (mk_machine [("messages_history.json", "{}")] [])).
  reflexivity.
Defined.



End AppFacts.


(* ================================================================== *)
(** * Properties of the sentiment request *)
(* ================================================================== *)

Module OpenAIFacts.

Import Py Config Objects OpenAI.

(** The attributes of an object that [OpenAIConfig] has built. *)
Lemma OpenAIConfig_attrs (config_data : value) (o : attrs) :
  OpenAIConfig config_data = Ok o ->
  exists f k g e p,
    o = [("is_healthy", VBool true); ("filter", f); ("api_key", k);
         ("organization", g); ("enabled", e); ("sentiment_analysis_prompt", p)].
Proof.
  unfold OpenAIConfig. intros H.
  repeat match type of H with
         | bind ?m _ = Ok _ => destruct m eqn:?; cbn [bind] in H; [| discriminate H]
         end.
  injection H as <-. repeat eexists.
Qed.

(** X20: with the [openai] object as [OpenAIConfig] builds it from any
    document, [analyze_message_sentiment] never calls the service: reading
    [config.openai.model] raises inside the [try], and the answer is the
    fixed text of the last [except] clause, for every message and whatever
    the service would have answered. *)
Theorem sentiment_analysis_never_reaches_the_service :
  forall (config_data : value) (o : attrs) (create : request -> api_outcome)
         (text : string),
    OpenAIConfig config_data = Ok o ->
    sentiment_request o text = Raise AttributeError
    /\ analyze_message_sentiment o create text = "Error generating suggestion.".
Proof.
  intros config_data o create text H.
  destruct (OpenAIConfig_attrs _ _ H) as (f & k & g & e & p & ->).
  assert (Hreq : sentiment_request
                   [("is_healthy", VBool true); ("filter", f); ("api_key", k);
                    ("organization", g); ("enabled", e);
                    ("sentiment_analysis_prompt", p)] text = Raise AttributeError).
  { unfold sentiment_request. cbn.
    destruct (is_None p); cbn; [reflexivity |].
    destruct p; reflexivity. }
  split; [exact Hreq |].
  unfold analyze_message_sentiment. rewrite Hreq. reflexivity.
Qed.

Lemma sentiment_analysis_never_reaches_the_service_witness :
  analyze_message_sentiment
    [("is_healthy", VBool true); ("filter", VBool false); ("api_key", VStr "k");
     ("organization", VStr "o"); ("enabled", VBool true);
     ("sentiment_analysis_prompt", VList [VDict [("role", VStr "system");
                                                 ("content", VStr "Rate it.")]])]
    (fun _ => Response ["positive"]) "good news"
  = "Error generating suggestion.".
Proof.
  refine (proj2 (sentiment_analysis_never_reaches_the_service
            (VDict [("filter", VBool false); ("api_key", VStr "k");
                    ("organization", VStr "o"); ("enabled", VBool true);
                    ("sentiment_analysis_prompt",
                     VList [VDict [("role", VStr "system");
                                   ("content", VStr "Rate it.")]])])
            _ (fun _ => Response ["positive"]) "good news" _)).
  reflexivity.
Defined.

End OpenAIFacts.


(* ================================================================== *)
(** * Properties of the media cleaner *)
(* ================================================================== *)

Module MediaFacts.

Import Py Media MediaNotions.

(** ** The pattern *)

Lemma items_media_pattern :
  items (String.length media_pattern) (list_ascii_of_string media_pattern)
  = List.app media_items [Star].
Proof. vm_compute. reflexivity. Qed.

Lemma takes_hex_class (c : ascii) : takes hex_class c = hex c.
Proof. destruct c as [[|] [|] [|] [|] [|] [|] [|] [|]]; reflexivity. Qed.

Lemma takes_Lit (x c : ascii) : takes (Lit x) c = true <-> c = x.
Proof. cbn [takes]. apply Ascii.eqb_eq. Qed.

Lemma matches_Star (s : list ascii) : matches [Star] s = true.
Proof.
  induction s as [| c s IH]; [reflexivity |].
  cbn [matches] in *. rewrite IH. apply orb_true_r.
Qed.

(** Items that take one character each, then [*]: a prefix of the name is
    taken character by character, the rest is free. *)
Lemma matches_single_then_Star (p : list item) :
  forallb single p = true ->
  forall s, matches (List.app p [Star]) s = true
            <-> exists pre ext, s = List.app pre ext
                                /\ Forall2 (fun i c => takes i c = true) p pre.
Proof.
  induction p as [| i p IH]; intros Hp s.
  - split.
    + intros _. exists [], s. split; [reflexivity | constructor].
    + intros _. apply matches_Star.
  - cbn [forallb] in Hp. apply andb_prop in Hp. destruct Hp as [Hi Hp].
    assert (Hstep : matches (List.app (i :: p) [Star]) s
                    = match s with
                      | c :: s' => (takes i c && matches (List.app p [Star]) s')%bool
                      | [] => false
                      end).
    { destruct i; [discriminate Hi | reflexivity ..]. }
    rewrite Hstep. destruct s as [| c s].
    + split; [discriminate |].
      intros (pre & ext & Hs & HF). inversion HF; subst. discriminate Hs.
    + split.
      * intros H. apply andb_prop in H. destruct H as [Hc H].
        apply (IH Hp) in H. destruct H as (pre & ext & -> & HF).
        exists (c :: pre), ext. split; [reflexivity | constructor; assumption].
      * intros (pre & ext & Hs & HF). inversion HF as [| i' c' p' pre' Hc HF']; subst.
        injection Hs as <- ->. rewrite Hc. cbn [andb].
        apply (IH Hp). exists pre', ext. split; [reflexivity | assumption].
Qed.

Lemma hex_group_cons (n : nat) (c : ascii) (g : list ascii) :
  hex c = true -> hex_group n g -> hex_group (S n) (c :: g).
Proof.
  intros Hc [Hl HF]. split; [cbn; f_equal; exact Hl | constructor; assumption].
Qed.

Lemma hex_group_nil : hex_group 0 [].
Proof. split; [reflexivity | constructor]. Qed.

(** A group of [n] digits is taken by [n] classes. *)
Lemma group_taken (n : nat) (g : list ascii) (p : list item) (rest : list ascii) :
  hex_group n g ->
  Forall2 (fun i c => takes i c = true) p rest ->
  Forall2 (fun i c => takes i c = true) (List.app (repeat hex_class n) p) (List.app g rest).
Proof.
  intros [Hl HF] Hrest. revert n Hl. induction HF as [| c g Hc HF IH]; intros n Hl.
  - subst n. exact Hrest.
  - destruct n as [| n]; [discriminate Hl |]. injection Hl as Hl.
    cbn [repeat List.app]. constructor; [rewrite takes_hex_class; exact Hc | apply IH; exact Hl].
Qed.

(** What [n] classes take is a group of [n] digits. *)
Lemma taken_group (n : nat) (p : list item) (l : list ascii) :
  Forall2 (fun i c => takes i c = true) (List.app (repeat hex_class n) p) l ->
  exists g rest, l = List.app g rest /\ hex_group n g
                 /\ Forall2 (fun i c => takes i c = true) p rest.
Proof.
  revert l. induction n as [| n IH]; intros l H.
  - exists [], l. split; [reflexivity | split; [apply hex_group_nil | exact H]].
  - cbn [repeat List.app] in H. inversion H as [| i c p' l' Hc H']; subst.
    destruct (IH _ H') as (g & rest & -> & Hg & Hrest).
    exists (c :: g), rest. split; [reflexivity |]. split; [| exact Hrest].
    apply hex_group_cons; [rewrite <- takes_hex_class; exact Hc | exact Hg].
Qed.

Lemma taken_Lit (x : ascii) (p : list item) (l : list ascii) :
  Forall2 (fun i c => takes i c = true) (Lit x :: p) l ->
  exists rest, l = x :: rest /\ Forall2 (fun i c => takes i c = true) p rest.
Proof.
  intros H. inversion H as [| i c p' l' Hc H']; subst.
  apply takes_Lit in Hc. subst c. exists l'. split; [reflexivity | exact H'].
Qed.

Lemma media_items_single : forallb single media_items = true.
Proof. reflexivity. Qed.

Lemma fnmatch_media (name : string) :
  fnmatch name media_pattern = true
  <-> exists pre ext, list_ascii_of_string name = List.app pre ext
                      /\ Forall2 (fun i c => takes i c = true) media_items pre.
Proof.
  unfold fnmatch. rewrite items_media_pattern.
  apply matches_single_then_Star. apply media_items_single.
Qed.

Lemma fnmatch_uuid_named (name : string) :
  fnmatch name media_pattern = true -> uuid_named name.
Proof.
  intros H. apply fnmatch_media in H. destruct H as (pre & ext & Hname & H).
  unfold media_items in H.
  apply taken_group in H. destruct H as (a & r1 & -> & Ha & H).
  apply taken_Lit in H. destruct H as (r1' & -> & H).
  apply taken_group in H. destruct H as (b & r2 & -> & Hb & H).
  apply taken_Lit in H. destruct H as (r2' & -> & H).
  apply taken_group in H. destruct H as (c & r3 & -> & Hc & H).
  apply taken_Lit in H. destruct H as (r3' & -> & H).
  apply taken_group in H. destruct H as (d & r4 & -> & Hd & H).
  apply taken_Lit in H. destruct H as (r4' & -> & H).
  apply taken_group in H. destruct H as (e & r5 & -> & He & H).
  apply taken_Lit in H. destruct H as (r5' & -> & H).
  inversion H; subst.
  exists a, b, c, d, e, ext. rewrite Hname.
  repeat (rewrite <- ?app_assoc; cbn [List.app]).
  repeat split; try assumption; try (apply Ha || apply Hb || apply Hc || apply Hd || apply He).
Qed.

Lemma uuid_named_fnmatch (name : string) :
  uuid_named name -> fnmatch name media_pattern = true.
Proof.
  intros (a & b & c & d & e & ext & Hname & Ha & Hb & Hc & Hd & He).
  apply fnmatch_media.
  exists (List.app a ("-"%char :: List.app b ("-"%char :: List.app c ("-"%char ::
            List.app d ("-"%char :: List.app e ["."%char]))))), ext.
  split.
  - rewrite Hname. repeat (rewrite <- ?app_assoc; cbn [List.app]). reflexivity.
  - unfold media_items.
    apply group_taken; [exact Ha |]. constructor; [apply takes_Lit; reflexivity |].
    apply group_taken; [exact Hb |]. constructor; [apply takes_Lit; reflexivity |].
    apply group_taken; [exact Hc |]. constructor; [apply takes_Lit; reflexivity |].
    apply group_taken; [exact Hd |]. constructor; [apply takes_Lit; reflexivity |].
    apply group_taken; [exact He |]. constructor; [apply takes_Lit; reflexivity |].
    constructor.
Qed.

(** ** The directory *)

Lemma hex_not_dot (c : ascii) : hex c = true -> Ascii.eqb c "." = false.
Proof. destruct c as [[|] [|] [|] [|] [|] [|] [|] [|]]; (reflexivity || discriminate). Qed.

Lemma uuid_named_not_hidden (n : string) : uuid_named n -> hidden n = false.
Proof.
  intros (a & b & c & d & e & ext & Hname & [Hl HF] & _).
  destruct a as [| x a]; [discriminate Hl |].
  destruct n as [| y n]; [discriminate Hname |].
  cbn in Hname. injection Hname as -> _.
  cbn [hidden]. apply hex_not_dot. inversion HF; assumption.
Qed.

Lemma glob_media (d : folder) :
  glob media_pattern d
  = map fst (filter (fun e => fnmatch (fst e) media_pattern) (entries d)).
Proof.
  unfold glob. f_equal. apply filter_ext. intros [n k]. cbn [fst].
  change (hidden media_pattern) with false. cbn [orb].
  destruct (fnmatch n media_pattern) eqn:E; [| apply andb_false_r].
  rewrite (uuid_named_not_hidden n (fnmatch_uuid_named n E)). reflexivity.
Qed.

Lemma In_glob (d : folder) (n : string) :
  In n (glob media_pattern d) <-> In n (names d) /\ fnmatch n media_pattern = true.
Proof.
  rewrite glob_media. unfold names. rewrite !in_map_iff. split.
  - intros ([n' k] & <- & H). apply filter_In in H. cbn [fst] in *. destruct H as [H1 H2].
    split; [exists (n', k); split; [reflexivity | exact H1] | exact H2].
  - intros [([n' k] & <- & H1) H2]. exists (n', k). split; [reflexivity |].
    apply filter_In. split; assumption.
Qed.

(** The names stay distinct when entries are dropped. *)
Lemma distinct_names_filter (keep : string * kind -> bool) (es : list (string * kind)) :
  NoDup (map fst es) -> NoDup (map fst (filter keep es)).
Proof.
  intros Hes. induction es as [| e es IH]; [apply NoDup_nil |].
  cbn [map] in Hes. apply NoDup_cons_iff in Hes. destruct Hes as [Hfresh Hes].
  cbn [filter]. destruct (keep e); [| exact (IH Hes)].
  cbn [map]. apply NoDup_cons; [| exact (IH Hes)].
  intros Hin. apply Hfresh. apply in_map_iff in Hin. destruct Hin as (e' & He' & Hin).
  apply filter_In in Hin. apply in_map_iff. exists e'. split; [exact He' | apply Hin].
Qed.

Lemma assoc_In {A} (n : string) (es : list (string * A)) (k : A) :
  assoc n es = Some k -> In (n, k) es.
Proof.
  induction es as [| [n' k'] es IH]; cbn [assoc]; [discriminate |].
  destruct (String.eqb n n') eqn:E.
  - apply String.eqb_eq in E. subst n'. intros [= ->]. left. reflexivity.
  - intros H. right. apply IH. exact H.
Qed.

Lemma In_assoc {A} (n : string) (es : list (string * A)) (k : A) :
  NoDup (map fst es) -> In (n, k) es -> assoc n es = Some k.
Proof.
  induction es as [| [n' k'] es IH]; intros Hnd Hin; [destruct Hin |].
  cbn [map fst] in Hnd. inversion Hnd as [| x l Hx Hl]; subst.
  cbn [assoc]. destruct Hin as [[= -> ->] | Hin].
  - rewrite String.eqb_refl. reflexivity.
  - destruct (String.eqb n n') eqn:E; [| apply IH; assumption].
    apply String.eqb_eq in E. subst n'. exfalso. apply Hx.
    apply in_map_iff. exists (n, k). split; [reflexivity | exact Hin].
Qed.

Lemma assoc_filter_other (file n : string) (es : list (string * kind)) :
  n <> file ->
  assoc n (filter (fun e => negb (String.eqb file (fst e))) es) = assoc n es.
Proof.
  intros Hn. induction es as [| [n' k'] es IH]; [reflexivity |].
  cbn [filter fst]. destruct (String.eqb file n') eqn:E; cbn [negb assoc].
  - apply String.eqb_eq in E. subst n'.
    rewrite (proj2 (String.eqb_neq n file) Hn). exact IH.
  - rewrite IH. reflexivity.
Qed.

Lemma without_nil (es : list (string * kind)) : without [] es = es.
Proof.
  unfold without. induction es as [| e es IH]; [reflexivity |].
  cbn [filter existsb negb]. f_equal. exact IH.
Qed.

Lemma without_cons (file : string) (L : list string) (es : list (string * kind)) :
  without L (filter (fun e => negb (String.eqb file (fst e))) es) = without (file :: L) es.
Proof.
  unfold without. induction es as [| e es IH]; [reflexivity |].
  cbn [filter existsb]. rewrite (String.eqb_sym (fst e) file).
  destruct (String.eqb file (fst e)); cbn [negb orb]; [exact IH |].
  cbn [filter]. destruct (existsb (String.eqb (fst e)) L); cbn [negb]; rewrite IH; reflexivity.
Qed.

Lemma In_without (L : list string) (es : list (string * kind)) (n : string) (k : kind) :
  In (n, k) (without L es) <-> In (n, k) es /\ ~ In n L.
Proof.
  unfold without. rewrite filter_In. cbn [fst]. split; intros [H1 H2]; (split; [exact H1 |]).
  - intros Hin. apply negb_true_iff in H2.
    assert (existsb (String.eqb n) L = true) as Ht; [| congruence].
    apply existsb_exists. exists n. split; [exact Hin | apply String.eqb_refl].
  - apply negb_true_iff. destruct (existsb (String.eqb n) L) eqn:E; [| reflexivity].
    apply existsb_exists in E. destruct E as (x & Hx & Hnx).
    apply String.eqb_eq in Hnx. subst x. contradiction.
Qed.

(** As long as the names are regular files, the loop removes them. *)
Lemma remove_each_files (L1 L2 : list string) :
  NoDup L1 ->
  forall es errs,
    (forall n, In n L1 -> assoc n es = Some RegularFile) ->
    remove_each (List.app L1 L2) (mk_folder es errs)
    = remove_each L2 (mk_folder (without L1 es) errs).
Proof.
  intros Hnd. induction Hnd as [| file L1 Hfile Hnd IH]; intros es errs Hall.
  - rewrite without_nil. reflexivity.
  - cbn [List.app remove_each]. unfold kind_of. cbn [entries errors].
    rewrite (Hall file (or_introl eq_refl)).
    rewrite IH, without_cons; [reflexivity |].
    intros n Hn. rewrite assoc_filter_other; [apply Hall; right; exact Hn |].
    intros ->. contradiction.
Qed.

(** Whatever the names, what is removed is a list of regular files among
    them, and at most one error is logged. *)
Lemma remove_each_shape (L : list string) :
  NoDup L ->
  forall es errs,
    exists L1,
      (forall n, In n L1 -> In n L /\ assoc n es = Some RegularFile)
      /\ entries (remove_each L (mk_folder es errs)) = without L1 es
      /\ (errors (remove_each L (mk_folder es errs)) = errs
          \/ errors (remove_each L (mk_folder es errs)) = List.app errs [media_error]).
Proof.
  intros Hnd. induction Hnd as [| file L Hfile Hnd IH]; intros es errs.
  - exists []. cbn. rewrite without_nil. repeat split; try contradiction. left. reflexivity.
  - cbn [remove_each]. unfold kind_of. cbn [entries errors].
    destruct (assoc file es) as [[|] |] eqn:E.
    + destruct (IH (filter (fun e => negb (String.eqb file (fst e))) es) errs)
        as (L1 & Hall & Hent & Herr).
      exists (file :: L1). split; [| split; [rewrite Hent; apply without_cons | exact Herr]].
      intros n [<- | Hn]; [split; [left; reflexivity | exact E] |].
      destruct (Hall n Hn) as [HnL Hk]. split; [right; exact HnL |].
      rewrite assoc_filter_other in Hk; [exact Hk |]. intros ->. contradiction.
    + exists []. rewrite without_nil. repeat split; try contradiction. right. reflexivity.
    + exists []. rewrite without_nil. repeat split; try contradiction. right. reflexivity.
Qed.

Lemma NoDup_glob (d : folder) : NoDup (names d) -> NoDup (glob media_pattern d).
Proof. intros H. rewrite glob_media. apply distinct_names_filter. exact H. Qed.

Lemma other_entries_without (es : list (string * kind)) :
  without (map fst (filter (fun e => fnmatch (fst e) media_pattern) es)) es
  = other_entries es.
Proof.
  unfold without, other_entries. apply filter_ext_in. intros [n k] Hin. cbn [fst].
  f_equal. destruct (fnmatch n media_pattern) eqn:E.
  - apply existsb_exists. exists n. split; [| apply String.eqb_refl].
    apply in_map_iff. exists (n, k). split; [reflexivity |].
    apply filter_In. split; [exact Hin | exact E].
  - destruct (existsb _ _) eqn:Ex; [| reflexivity].
    apply existsb_exists in Ex. destruct Ex as (x & Hx & Hnx).
    apply String.eqb_eq in Hnx. subst x.
    apply in_map_iff in Hx. destruct Hx as ([n' k'] & Hn' & Hx). cbn [fst] in Hn'. subst n'.
    apply filter_In in Hx. cbn [fst] in Hx. destruct Hx as [_ Hx]. congruence.
Qed.

Lemma media_glob_names (d : folder) (n : string) :
  In n (glob media_pattern d) -> uuid_named n.
Proof. intros H. apply In_glob in H. apply fnmatch_uuid_named. apply H. Qed.

(** X21: [glob.glob] with the pattern of [clean_old_media] lists exactly
    the entries of the directory that are named by eight, four, four, four
    and twelve lower-case hexadecimal digits separated by hyphens, then a
    dot and any extension. *)
Theorem media_glob_lists_the_uuid_named_entries :
  forall (d : folder) (n : string),
    In n (glob media_pattern d) <-> In n (names d) /\ uuid_named n.
Proof.
  intros d n. rewrite In_glob. split; intros [H1 H2]; (split; [exact H1 |]).
  - apply fnmatch_uuid_named. exact H2.
  - apply uuid_named_fnmatch. exact H2.
Qed.

(** X22: when no directory has such a name, [clean_old_media] removes
    every entry with such a name and no other, and logs nothing. *)
Theorem clean_old_media_removes_every_media_file :
  forall (d : folder),
    NoDup (names d) ->
    (forall n, In (n, Directory) (entries d) -> ~ uuid_named n) ->
    (forall n k, In (n, k) (entries (clean_old_media d))
                 <-> In (n, k) (entries d) /\ ~ uuid_named n)
    /\ errors (clean_old_media d) = errors d.
Proof.
  intros [es errs] Hnd Hdir. unfold names in Hnd. cbn [entries errors] in *.
  assert (Hrun : clean_old_media (mk_folder es errs) = mk_folder (other_entries es) errs).
  { unfold clean_old_media.
    rewrite <- (app_nil_r (glob media_pattern (mk_folder es errs))).
    rewrite remove_each_files.
    - cbn [remove_each]. rewrite glob_media. cbn [entries].
      rewrite other_entries_without. reflexivity.
    - apply NoDup_glob. exact Hnd.
    - intros n Hn. apply In_glob in Hn. destruct Hn as [Hn Hm].
      unfold names in Hn. cbn [entries] in Hn. apply in_map_iff in Hn.
      destruct Hn as ([n' k] & Hn' & Hin). cbn [fst] in Hn'. subst n'.
      rewrite (In_assoc n es k Hnd Hin). destruct k; [reflexivity |].
      exfalso. apply (Hdir n Hin). apply fnmatch_uuid_named. exact Hm. }
  rewrite Hrun. cbn [entries errors]. split; [| reflexivity].
  intros n k. unfold other_entries. rewrite filter_In. cbn [fst].
  split; intros [H1 H2]; (split; [exact H1 |]).
  - intros Hu. apply uuid_named_fnmatch in Hu. rewrite Hu in H2. discriminate H2.
  - destruct (fnmatch n media_pattern) eqn:E; [| reflexivity].
    exfalso. apply H2. apply fnmatch_uuid_named. exact E.
Qed.

Lemma not_uuid_named (n : string) : fnmatch n media_pattern = false -> ~ uuid_named n.
Proof. intros H Hu. apply uuid_named_fnmatch in Hu. congruence. Qed.

Lemma sample_folder_names : NoDup (names sample_folder).
Proof.
  unfold names. cbn [sample_folder entries map fst].
  repeat (apply NoDup_cons; [cbn [In]; intuition discriminate |]). apply NoDup_nil.
Qed.

Lemma clean_old_media_removes_every_media_file_witness :
  (forall n k, In (n, k) (entries (clean_old_media sample_folder))
               <-> In (n, k) (entries sample_folder) /\ ~ uuid_named n)
  /\ errors (clean_old_media sample_folder) = errors sample_folder.
Proof.
  apply (clean_old_media_removes_every_media_file sample_folder sample_folder_names).
  intros n H. cbn [sample_folder entries In] in H.
  destruct H as [H | [H | [H | [H | []]]]]; try discriminate H.
  injection H as <-. apply not_uuid_named. vm_compute. reflexivity.
Defined.

Lemma without_outside (L : list string) (l : list (string * kind)) :
  (forall e, In e l -> ~ In (fst e) L) -> without L l = l.
Proof.
  intros H. induction l as [| e l IH]; [reflexivity |].
  unfold without in *. cbn [filter].
  destruct (existsb (String.eqb (fst e)) L) eqn:E.
  - exfalso. apply existsb_exists in E. destruct E as (x & Hx & Hex).
    apply String.eqb_eq in Hex. subst x. exact (H e (or_introl eq_refl) Hx).
  - cbn [negb]. f_equal. apply IH. intros e' He'. apply H. right. exact He'.
Qed.

(** X23: a directory with such a name stops the cleaning: the media files
    listed before it are removed, the directory and everything listed
    after it, media files included, stay, and one error is logged. *)
Theorem directory_named_like_media_stops_the_cleaning :
  forall (before after : list (string * kind)) (n : string) (errs : list string),
    NoDup (map fst (List.app before ((n, Directory) :: after))) ->
    uuid_named n ->
    (forall m, In (m, Directory) before -> ~ uuid_named m) ->
    clean_old_media (mk_folder (List.app before ((n, Directory) :: after)) errs)
    = mk_folder (List.app (other_entries before) ((n, Directory) :: after))
                (List.app errs [media_error]).
Proof.
  intros before after n errs Hnd Hn Hdir.
  set (es := List.app before ((n, Directory) :: after)) in *.
  set (Lb := map fst (filter (fun e => fnmatch (fst e) media_pattern) before)).
  set (La := map fst (filter (fun e => fnmatch (fst e) media_pattern) after)).
  assert (Hglob : glob media_pattern (mk_folder es errs) = List.app Lb (n :: La)).
  { rewrite glob_media. cbn [entries]. unfold es. rewrite filter_app, map_app.
    cbn [filter fst]. rewrite (uuid_named_fnmatch n Hn). reflexivity. }
  assert (Hbefore : forall m, In m Lb -> exists k, In (m, k) before
                                                   /\ fnmatch m media_pattern = true).
  { intros m Hm. unfold Lb in Hm. apply in_map_iff in Hm.
    destruct Hm as ([m' k] & Hm' & Hin). cbn [fst] in Hm'. subst m'.
    apply filter_In in Hin. cbn [fst] in Hin. exists k. exact Hin. }
  assert (Hsplit : NoDup (map fst before)
                   /\ forall e, In e ((n, Directory) :: after) -> ~ In (fst e) (map fst before)).
  { unfold es in Hnd. rewrite map_app in Hnd. split.
    - apply NoDup_app_remove_r in Hnd. exact Hnd.
    - intros e He Hin.
      assert (Hin2 : In (fst e) (map fst ((n, Directory) :: after)))
        by (apply in_map; exact He).
      clear - Hnd Hin Hin2.
      induction (map fst before) as [| x l IH]; [destruct Hin |].
      cbn [List.app] in Hnd. inversion Hnd as [| y l' Hx Hl]; subst.
      destruct Hin as [-> | Hin]; [| exact (IH Hl Hin)].
      apply Hx. apply in_or_app. right. exact Hin2. }
  destruct Hsplit as [Hndb Hout].
  assert (Houtside : forall e, In e ((n, Directory) :: after) -> ~ In (fst e) Lb).
  { intros e He Hin. apply (Hout e He). destruct (Hbefore _ Hin) as (k & Hk & _).
    apply in_map_iff. exists (fst e, k). split; [reflexivity | exact Hk]. }
  unfold clean_old_media. rewrite Hglob, remove_each_files.
  - cbn [remove_each]. unfold kind_of. cbn [entries errors].
    assert (Hkept : without Lb es = List.app (other_entries before) ((n, Directory) :: after)).
    { unfold es, without. rewrite filter_app. fold (without Lb before).
      fold (without Lb ((n, Directory) :: after)).
      unfold Lb. rewrite other_entries_without.
      fold Lb. rewrite (without_outside _ _ Houtside). reflexivity. }
    rewrite Hkept.
    assert (Hkind : assoc n (List.app (other_entries before) ((n, Directory) :: after))
                    = Some Directory).
    { apply In_assoc.
      - rewrite <- Hkept. unfold without. apply distinct_names_filter. exact Hnd.
      - apply in_or_app. right. left. reflexivity. }
    rewrite Hkind. reflexivity.
  - unfold Lb. apply distinct_names_filter. exact Hndb.
  - intros m Hm. destruct (Hbefore _ Hm) as (k & Hk & Hmatch).
    assert (Hin : In (m, k) es) by (apply in_or_app; left; exact Hk).
    rewrite (In_assoc m es k Hnd Hin). destruct k; [reflexivity |].
    exfalso. apply (Hdir m Hk). apply fnmatch_uuid_named. exact Hmatch.
Qed.

Lemma directory_named_like_media_stops_the_cleaning_witness :
  clean_old_media
    (mk_folder [("0123abcd-0123-abcd-0123-0123456789ab.jpg", RegularFile);
                ("messages_history.json", RegularFile);
                ("aaaaaaaa-bbbb-cccc-dddd-eeeeeeeeeeee.d", Directory);
                ("89abcdef-89ab-cdef-89ab-89abcdef0123.mp4", RegularFile)] [])
  = mk_folder [("messages_history.json", RegularFile);
               ("aaaaaaaa-bbbb-cccc-dddd-eeeeeeeeeeee.d", Directory);
               ("89abcdef-89ab-cdef-89ab-89abcdef0123.mp4", RegularFile)]
              [media_error].
Proof.
  refine (directory_named_like_media_stops_the_cleaning
            [("0123abcd-0123-abcd-0123-0123456789ab.jpg", RegularFile);
             ("messages_history.json", RegularFile)]
            [("89abcdef-89ab-cdef-89ab-89abcdef0123.mp4", RegularFile)]
            "aaaaaaaa-bbbb-cccc-dddd-eeeeeeeeeeee.d" [] _ _ _).
  - cbn [List.app map fst].
    repeat (apply NoDup_cons; [cbn [In]; intuition discriminate |]). apply NoDup_nil.
  - apply fnmatch_uuid_named. vm_compute. reflexivity.
  - intros m H. cbn [In] in H. destruct H as [H | [H | []]]; discriminate H.
Defined.

(** X24: [clean_old_media] creates nothing and touches nothing else: every
    entry afterwards was there before, every entry that is a directory or
    is not named like a media file is still there, and at most one error
    is logged. *)
Theorem clean_old_media_keeps_everything_else :
  forall (d : folder),
    NoDup (names d) ->
    (forall n k, In (n, k) (entries (clean_old_media d)) -> In (n, k) (entries d))
    /\ (forall n k, In (n, k) (entries d) -> ~ uuid_named n \/ k = Directory ->
                    In (n, k) (entries (clean_old_media d)))
    /\ (errors (clean_old_media d) = errors d
        \/ errors (clean_old_media d) = List.app (errors d) [media_error]).
Proof.
  intros [es errs] Hnd. unfold clean_old_media.
  destruct (remove_each_shape (glob media_pattern (mk_folder es errs))
              (NoDup_glob _ Hnd) es errs) as (L1 & Hall & Hent & Herr).
  unfold names in Hnd. cbn [entries errors] in *. rewrite Hent.
  split; [| split; [| exact Herr]].
  - intros n k H. apply In_without in H. apply H.
  - intros n k Hin Hkeep. apply In_without. split; [exact Hin |].
    intros HL. destruct (Hall n HL) as [Hg Hk].
    rewrite (In_assoc n es k Hnd Hin) in Hk. injection Hk as ->.
    destruct Hkeep as [Hnot | Hdir]; [| discriminate Hdir].
    apply Hnot. apply (media_glob_names (mk_folder es errs) n Hg).
Qed.

Lemma clean_old_media_keeps_everything_else_witness :
  (forall n k, In (n, k) (entries (clean_old_media sample_folder))
               -> In (n, k) (entries sample_folder))
  /\ (forall n k, In (n, k) (entries sample_folder) -> ~ uuid_named n \/ k = Directory ->
                  In (n, k) (entries (clean_old_media sample_folder)))
  /\ (errors (clean_old_media sample_folder) = errors sample_folder
      \/ errors (clean_old_media sample_folder)
         = List.app (errors sample_folder) [media_error]).
Proof.
  exact (clean_old_media_keeps_everything_else sample_folder sample_folder_names).
Defined.

End MediaFacts.
